(** * Source-extraction engine of tkp.sourcefinder.image (class ImageData)

    A shallow embedding of the methods of [ImageData] and the properties
    of its masking, background estimation, island labelling, FDR threshold
    selection, result filtering and cache handling.

    Conventions of the embedding.
    - Python floats are exact rationals ([Q]); the two places where the code
      tests for an infinite value use [pyfloat], which adds the IEEE
      specials.
    - A numpy array of rank two is a list of rows.  A masked array carries a
      plane of values and a plane of validity bits ([true] = masked); a plain
      ndarray is a masked array with nothing masked.
    - Exceptions are values of [exn]; a method is a function from the object
      state to a result and a new state, so that what was mutated before an
      exception was raised stays mutated.
    - Library routines that are not part of this module (scipy.ndimage,
      numpy's transcendental functions, tkp.sourcefinder.stats / utils /
      extract, the wcs object) are Variables of the Section [Engine]. *)

From Stdlib Require Import String ZArith QArith Qround Qabs List Sorted
  Permutation Bool Lia Lqa.
Import ListNotations.

Set Implicit Arguments.
Set Default Proof Using "Type".

(* ------------------------------------------------------------------ *)
(** ** Python and numpy primitives *)

Module Py.

Inductive exn : Type :=
| IndexError (msg : string)
| ValueError (msg : string)
| TypeError (msg : string)
| RuntimeError (msg : string)
| AssertionError
| ZeroDivisionError
| OverflowError
| UnboundLocalError (name : string).

Inductive result (A : Type) : Type :=
| Ok (a : A)
| Raise (e : exn).
Arguments Ok {A} a.
Arguments Raise {A} e.

(** A Python float that may be one of the IEEE specials. *)
Inductive pyfloat : Type :=
| Fin (q : Q)
| PosInf
| NegInf
| NaN.

(** [f == float('inf')] *)
Definition is_pos_inf (f : pyfloat) : bool :=
  match f with PosInf => true | _ => false end.

Definition isfinite (f : pyfloat) : bool :=
  match f with Fin _ => true | _ => false end.

Definition Qltb (x y : Q) : bool := negb (Qle_bool y x).
Definition Qgtb (x y : Q) : bool := Qltb y x.
Definition Qgeb (x y : Q) : bool := Qle_bool y x.

(** [int(x)]: truncation towards zero. *)
Definition int_of (x : Q) : Z := Z.quot (Qnum x) (Zpos (Qden x)).

(** Python 2 [round(x)]: to the nearest integer, halves away from zero. *)
Definition round (x : Q) : Z :=
  if Qle_bool 0 x then Qfloor (x + (1 # 2)) else Qceiling (x - (1 # 2)).

(** Normalisation of an index against a dimension: negative indices count
    from the end, anything else outside the dimension is an IndexError. *)
Definition index (len i : Z) : option Z :=
  if (0 <=? i)%Z && (i <? len)%Z then Some i
  else if (- len <=? i)%Z && (i <? 0)%Z then Some (len + i)%Z
  else None.

Definition getitem {A : Type} (l : list A) (i : Z) : option A :=
  match index (Z.of_nat (length l)) i with
  | Some k => nth_error l (Z.to_nat k)
  | None => None
  end.

(** [a[i, j]] *)
Definition getitem2 {A : Type} (a : list (list A)) (i j : Z) : option A :=
  match getitem a i with
  | Some row => getitem row j
  | None => None
  end.

(** One bound of [slice(start, stop)] against a dimension. *)
Definition slice_bound (len k : Z) : Z :=
  if (k <? 0)%Z then Z.max (k + len) 0 else Z.min k len.

(** [i] is selected by [start:stop] in a dimension of length [len]. *)
Definition in_slice (len start stop i : Z) : bool :=
  (slice_bound len start <=? i)%Z && (i <? slice_bound len stop)%Z.

(** [l[start:stop]] *)
Definition slice {A : Type} (l : list A) (start stop : Z) : list A :=
  let len := Z.of_nat (length l) in
  let s := slice_bound len start in
  let e := slice_bound len stop in
  firstn (Z.to_nat (e - s)) (skipn (Z.to_nat s) l).

(** [a[r0:r1, c0:c1]] *)
Definition slice2 {A : Type} (a : list (list A)) (r0 r1 c0 c1 : Z)
  : list (list A) :=
  map (fun row => slice row c0 c1) (slice a r0 r1).

Fixpoint mapi_from {A B : Type} (f : Z -> A -> B) (k : Z) (l : list A)
  : list B :=
  match l with
  | [] => []
  | x :: l' => f k x :: mapi_from f (k + 1) l'
  end.

Definition mapi {A B : Type} (f : Z -> A -> B) (l : list A) : list B :=
  mapi_from f 0 l.

(** [a[r0:r1, c0:c1] = v] *)
Definition slice2_assign {A : Type} (a : list (list A)) (r0 r1 c0 c1 : Z)
  (v : A) : list (list A) :=
  let nrows := Z.of_nat (length a) in
  mapi (fun i row =>
          if in_slice nrows r0 r1 i then
            let ncols := Z.of_nat (length row) in
            mapi (fun j x => if in_slice ncols c0 c1 j then v else x) row
          else row) a.

(** [numpy.ones((n, m))], [numpy.zeros((n, m))] and the like. *)
Definition full {A : Type} (n m : nat) (v : A) : list (list A) :=
  repeat (repeat v m) n.

(** [a.shape] of a rank-two array. *)
Definition shape {A : Type} (a : list (list A)) : nat * nat :=
  (length a, match a with [] => 0%nat | row :: _ => length row end).

Definition shape_eqb (s t : nat * nat) : bool :=
  Nat.eqb (fst s) (fst t) && Nat.eqb (snd s) (snd t).

Fixpoint map2 {A B C : Type} (f : A -> B -> C) (l : list A) (m : list B)
  : list C :=
  match l, m with
  | x :: l', y :: m' => f x y :: map2 f l' m'
  | _, _ => []
  end.

Definition map2d {A B : Type} (f : A -> B) (a : list (list A))
  : list (list B) :=
  map (map f) a.

Definition zip2d {A B C : Type} (f : A -> B -> C) (a : list (list A))
  (b : list (list B)) : list (list C) :=
  map2 (map2 f) a b.

(** [a.ravel()] *)
Definition ravel {A : Type} (a : list (list A)) : list A := concat a.

(** [range(start, stop, step)] for a positive step. *)
Definition xrange (stop step : nat) : list nat :=
  map (fun k => (k * step)%nat) (seq 0 ((stop + step - 1) / step)).

End Py.
Import Py.

(* ------------------------------------------------------------------ *)
(** ** Data model *)

(** [numpy.ma.MaskedArray] of rank two: each pixel is its value and its
    mask bit ([true] = masked). *)
Definition marray : Type := list (list (Q * bool)).

(** [numpy.ma.array(data, mask=mask)] *)
Definition ma_array (data : list (list Q)) (mask : list (list bool))
  : marray :=
  zip2d pair data mask.

Definition ma_data (a : marray) : list (list Q) := map2d fst a.
Definition ma_mask (a : marray) : list (list bool) := map2d snd a.

(** A plain ndarray seen as a masked array. *)
Definition of_ndarray (a : list (list Q)) : marray :=
  map2d (fun x => (x, false)) a.

(** The world coordinate system object: the header values this module
    reads. *)
Record wcs_t : Type := Wcs {
  crval : Q * Q;
  crpix : Q * Q;
  cdelt : Q * Q;
  ctype : string * string
}.

(** A rectangular chunk of the image, [(slice(r0, r1), slice(c0, c1))]. *)
Record chunk_t : Type := Chunk {
  ch_r0 : Z; ch_r1 : Z; ch_c0 : Z; ch_c1 : Z
}.

(** The keyword arguments of [ImageData.__init__]. *)
Record settings : Type := Settings {
  max_degradation : Q;
  median_filter : Z;
  mf_threshold : Q;
  interpolate_order : Z;
  back_sizex : nat;
  back_sizey : nat;
  margin : Z;
  radius : Q;
  fdr_alpha : Q;
  structuring_element : list (list Z);
  residuals : bool;
  deblend_enabled : bool;
  deblend_nthresh : Z;
  detection_threshold : Q;
  analysis_threshold : Q;
  ra_sys_err : Q;
  dec_sys_err : Q;
  force_beam : bool
}.

(** What [__grids] returns: the dictionary with keys 'rms' and 'bg'. *)
Record grids_t : Type := Grids {
  grid_rms : marray;
  grid_bg : marray
}.

(** The mutable attributes of an [ImageData]: the two threshold-keyed
    dictionaries, the user overrides (absent until set), the stores of the
    memoised properties and the residual maps. *)
Record caches : Type := Caches {
  clip : list (Q * list (list Z));
  labels : list (Q * (list (list Z) * Z));
  user_backmap : option marray;
  user_noisemap : option marray;
  memo_grids : option grids_t;
  memo_backmap : option marray;
  memo_rmsmap : option marray;
  memo_data : option marray;
  memo_data_bgsubbed : option marray;
  residuals_from_gauss_fitting : option (list (list Q));
  residuals_from_deblending : option (list (list Q))
}.

(** An [ImageData] object; [rawnan] is [numpy.isnan(rawdata)] and [logged]
    collects the records handed to the module's logger, newest first. *)
Record ImageData : Type := Image {
  rawdata : list (list Q);
  rawnan : list (list bool);
  wcs : wcs_t;
  beam : Q * Q * Q;
  conf : settings;
  cache : caches;
  logged : list (string * string)
}.

Definition initial_caches : caches :=
  Caches [] [] None None None None None None None None None.

(** [ImageData(data, beam, wcs, **settings)] *)
Definition init (data : list (list Q)) (nan : list (list bool))
  (b : Q * Q * Q) (w : wcs_t) (s : settings) : ImageData :=
  Image data nan w b s initial_caches [].

Definition with_cache (c : caches) (st : ImageData) : ImageData :=
  Image (rawdata st) (rawnan st) (wcs st) (beam st) (conf st) c (logged st).

Definition with_logged (l : list (string * string)) (st : ImageData)
  : ImageData :=
  Image (rawdata st) (rawnan st) (wcs st) (beam st) (conf st) (cache st) l.

Definition set_clip v (c : caches) : caches :=
  Caches v (labels c) (user_backmap c) (user_noisemap c) (memo_grids c)
    (memo_backmap c) (memo_rmsmap c) (memo_data c) (memo_data_bgsubbed c)
    (residuals_from_gauss_fitting c) (residuals_from_deblending c).
Definition set_labels v (c : caches) : caches :=
  Caches (clip c) v (user_backmap c) (user_noisemap c) (memo_grids c)
    (memo_backmap c) (memo_rmsmap c) (memo_data c) (memo_data_bgsubbed c)
    (residuals_from_gauss_fitting c) (residuals_from_deblending c).
Definition set_user_backmap v (c : caches) : caches :=
  Caches (clip c) (labels c) v (user_noisemap c) (memo_grids c)
    (memo_backmap c) (memo_rmsmap c) (memo_data c) (memo_data_bgsubbed c)
    (residuals_from_gauss_fitting c) (residuals_from_deblending c).
Definition set_user_noisemap v (c : caches) : caches :=
  Caches (clip c) (labels c) (user_backmap c) v (memo_grids c)
    (memo_backmap c) (memo_rmsmap c) (memo_data c) (memo_data_bgsubbed c)
    (residuals_from_gauss_fitting c) (residuals_from_deblending c).
Definition set_memo_grids v (c : caches) : caches :=
  Caches (clip c) (labels c) (user_backmap c) (user_noisemap c) v
    (memo_backmap c) (memo_rmsmap c) (memo_data c) (memo_data_bgsubbed c)
    (residuals_from_gauss_fitting c) (residuals_from_deblending c).
Definition set_memo_backmap v (c : caches) : caches :=
  Caches (clip c) (labels c) (user_backmap c) (user_noisemap c) (memo_grids c)
    v (memo_rmsmap c) (memo_data c) (memo_data_bgsubbed c)
    (residuals_from_gauss_fitting c) (residuals_from_deblending c).
Definition set_memo_rmsmap v (c : caches) : caches :=
  Caches (clip c) (labels c) (user_backmap c) (user_noisemap c) (memo_grids c)
    (memo_backmap c) v (memo_data c) (memo_data_bgsubbed c)
    (residuals_from_gauss_fitting c) (residuals_from_deblending c).
Definition set_memo_data v (c : caches) : caches :=
  Caches (clip c) (labels c) (user_backmap c) (user_noisemap c) (memo_grids c)
    (memo_backmap c) (memo_rmsmap c) v (memo_data_bgsubbed c)
    (residuals_from_gauss_fitting c) (residuals_from_deblending c).
Definition set_memo_data_bgsubbed v (c : caches) : caches :=
  Caches (clip c) (labels c) (user_backmap c) (user_noisemap c) (memo_grids c)
    (memo_backmap c) (memo_rmsmap c) (memo_data c) v
    (residuals_from_gauss_fitting c) (residuals_from_deblending c).
Definition set_residuals_from_gauss_fitting v (c : caches) : caches :=
  Caches (clip c) (labels c) (user_backmap c) (user_noisemap c) (memo_grids c)
    (memo_backmap c) (memo_rmsmap c) (memo_data c) (memo_data_bgsubbed c)
    v (residuals_from_deblending c).
Definition set_residuals_from_deblending v (c : caches) : caches :=
  Caches (clip c) (labels c) (user_backmap c) (user_noisemap c) (memo_grids c)
    (memo_backmap c) (memo_rmsmap c) (memo_data c) (memo_data_bgsubbed c)
    (residuals_from_gauss_fitting c) v.

(** [self.xdim], [self.ydim] *)
Definition xdim (st : ImageData) : nat := fst (shape (rawdata st)).
Definition ydim (st : ImageData) : nat := snd (shape (rawdata st)).

(* ------------------------------------------------------------------ *)
(** ** Methods as state transformers that may raise *)

Definition M (A : Type) : Type := ImageData -> result A * ImageData.

Definition ret {A : Type} (a : A) : M A := fun st => (Ok a, st).

Definition bind {A B : Type} (m : M A) (k : A -> M B) : M B :=
  fun st =>
    match m st with
    | (Ok a, st') => k a st'
    | (Raise e, st') => (Raise e, st')
    end.

Definition raise {A : Type} (e : exn) : M A := fun st => (Raise e, st).

Definition self : M ImageData := fun st => (Ok st, st).

Definition update_cache (f : caches -> caches) : M unit :=
  fun st => (Ok tt, with_cache (f (cache st)) st).

(** [logger.<level>(msg)] *)
Definition log (level msg : string) : M unit :=
  fun st => (Ok tt, with_logged ((level, msg) :: logged st) st).

(** A pure computation that may raise, run inside a method. *)
Definition lift {A : Type} (r : result A) : M A := fun st => (r, st).

Declare Scope py_scope.
Delimit Scope py_scope with py.
Notation "x <- c1 ;; c2" := (bind c1 (fun x => c2))
  (at level 100, c1 at next level, right associativity) : py_scope.
Notation "c1 ;;; c2" := (bind c1 (fun _ => c2))
  (at level 100, right associativity) : py_scope.

(** The [Memoize] descriptor.
    Modelled from the spec: tkp.utility.memoize is not part of this module;
    a memoised property is an optional stored value that is filled by the
    first read and emptied by [del]. *)
Definition memoize {A : Type} (load : caches -> option A)
  (store : option A -> caches -> caches) (body : M A) : M A :=
  fun st =>
    match load (cache st) with
    | Some v => (Ok v, st)
    | None =>
        match body st with
        | (Ok v, st') => (Ok v, with_cache (store (Some v) (cache st')) st')
        | (Raise e, st') => (Raise e, st')
        end
    end.

(** [Memoize.delete] *)
Definition memo_delete {A : Type} (store : option A -> caches -> caches)
  : M unit :=
  update_cache (store None).

(* ------------------------------------------------------------------ *)
(** ** Masked-array arithmetic *)

Definition truthy (q : Q) : bool := negb (Qeq_bool q 0).

Definition logical_or (a b : list (list bool)) : list (list bool) :=
  zip2d orb a b.

(** Elementwise binary operation of two masked arrays: a result pixel is
    masked when either operand is. *)
Definition ma_binop (f : Q -> Q -> Q) (a b : marray) : marray :=
  zip2d (fun p q => (f (fst p) (fst q), snd p || snd q)) a b.

Definition ma_sub : marray -> marray -> marray := ma_binop Qminus.
Definition ma_div : marray -> marray -> marray := ma_binop Qdiv.

(** [c * a] for a scalar [c]. *)
Definition ma_scale (c : Q) (a : marray) : marray :=
  map2d (fun p => (c * fst p, snd p)) a.

(** [a.filled(fill_value=v)] *)
Definition ma_filled (a : marray) (v : Q) : list (list Q) :=
  map2d (fun p : Q * bool => if snd p then v else fst p) a.

(** The unmasked values of a flat masked array. *)
Definition compressed (l : list (Q * bool)) : list Q :=
  flat_map (fun p : Q * bool => if snd p then [] else [fst p]) l.

(** [a.compressed()]: the unmasked values, in C order. *)
Definition ma_compressed (a : marray) : list Q := compressed (ravel a).

(** [a[r0:r1, c0:c1]] of a masked array. *)
Definition ma_slice (a : marray) (c : chunk_t) : marray :=
  slice2 a (ch_r0 c) (ch_r1 c) (ch_c0 c) (ch_c1 c).

(** [a.shape] *)
Definition ma_shape (a : marray) : nat * nat := shape a.

Definition Qmax (x y : Q) : Q := if Qle_bool x y then y else x.
Definition Qmin (x y : Q) : Q := if Qle_bool x y then x else y.

(** [numpy.mean] of a flat array. *)
Definition np_mean (l : list Q) : Q :=
  fold_right Qplus 0 l / inject_Z (Z.of_nat (length l)).

(** [a.any()] of a flat array, and of a flat masked array (masked entries
    do not count). *)
Definition any_nonzero (l : list Q) : bool := existsb truthy l.
Definition ma_any (l : list (Q * bool)) : bool := any_nonzero (compressed l).

(** [a.max()] and [a.min()] of a non-empty list of numbers. *)
Definition list_max (d : Q) (l : list Q) : Q :=
  match l with [] => d | x :: l' => fold_left Qmax l' x end.
Definition list_min (d : Q) (l : list Q) : Q :=
  match l with [] => d | x :: l' => fold_left Qmin l' x end.

(** The pixels of a 0/1 array that are 1, as (row, column), in C order. *)
Definition coords_where {A : Type} (p : A -> bool) (a : list (list A))
  : list (Z * Z) :=
  concat (mapi (fun i row =>
                  concat (mapi (fun j x => if p x then [(i, j)] else [])
                               row)) a).

(** [ndimage.find_objects] of an array whose entries are 0 or 1, given as
    the pixels that are 1: the bounding box of label 1, and nothing when
    there is no such pixel. *)
Definition bounding_box (ones : list (Z * Z)) : list chunk_t :=
  match ones with
  | [] => []
  | (i, j) :: rest =>
      [Chunk (fold_left Z.min (map fst rest) i)
             (fold_left Z.max (map fst rest) i + 1)
             (fold_left Z.min (map snd rest) j)
             (fold_left Z.max (map snd rest) j + 1)]
  end.

(** [ndimage.find_objects(numpy.where(mask, 0, 1))] *)
Definition find_objects_unmasked (mask : list (list bool)) : list chunk_t :=
  bounding_box (coords_where negb mask).

(** An entry appended to a row of the grids: [False] or a number. *)
Inductive cell : Type :=
| CFalse
| CNum (q : Q).

(** The entry as numpy.array stores it. *)
Definition cell_value (c : cell) : Q :=
  match c with CFalse => 0 | CNum q => q end.

(** [numpy.ma.array(grid, mask=numpy.where(numpy.array(grid) == False, 1, 0))] *)
Definition masked_grid (g : list (list cell)) : marray :=
  map2d (fun c => (cell_value c, Qeq_bool (cell_value c) 0)) g.

(** [numpy.fabs(mean - median) / sigma >= 0.3] on numpy floats: a zero
    [sigma] gives an infinite ratio, or NaN when the numerator is zero
    too. *)
Definition skewed (mean median sigma : Q) : bool :=
  if Qeq_bool sigma 0 then negb (Qeq_bool (Qabs (mean - median)) 0)
  else Qle_bool (3 # 10) (Qabs (mean - median) / sigma).

(** [a[chunk] = b] for a block [b] of the shape of the chunk; numpy refuses
    a block of another shape. *)
Definition block_assign (a : list (list Q)) (c : chunk_t)
  (b : list (list Q)) : result (list (list Q)) :=
  let nrows := Z.of_nat (length a) in
  if forallb (fun row =>
                (Z.of_nat (length row) =?
                 slice_bound (Z.of_nat (snd (shape a))) (ch_c1 c)
                 - slice_bound (Z.of_nat (snd (shape a))) (ch_c0 c))%Z) b
     && (Z.of_nat (length b) =?
         slice_bound nrows (ch_r1 c) - slice_bound nrows (ch_r0 c))%Z
  then
    Ok (mapi (fun i row =>
                if in_slice nrows (ch_r0 c) (ch_r1 c) i then
                  let ncols := Z.of_nat (length row) in
                  mapi (fun j x =>
                          if in_slice ncols (ch_c0 c) (ch_c1 c) j then
                            nth (Z.to_nat (j - slice_bound ncols (ch_c0 c)))
                              (nth (Z.to_nat
                                      (i - slice_bound nrows (ch_r0 c)))
                                   b [])
                              x
                          else x) row
                else row) a)
  else Raise (ValueError "could not broadcast input array")%string.

(** The values of [input] on the pixels that carry [label]. *)
Definition values_of_label (input : list (list Q))
  (labelled : list (list Z)) (label : Z) : list Q :=
  flat_map (fun p : Q * Z => if (snd p =? label)%Z then [fst p] else [])
           (ravel (zip2d pair input labelled)).

(** [ndimage.maximum(input, labelled, index)]: for each label of [index]
    the largest value of [input] on its pixels. *)
Definition ndimage_maximum (input : list (list Q))
  (labelled : list (list Z)) (index : list Z) : list Q :=
  map (fun label => list_max 0 (values_of_label input labelled label)) index.

(** [numpy.arange(1, n + 1)] *)
Definition arange1 (n : Z) : list Z :=
  map (fun k => Z.of_nat k + 1)%Z (seq 0 (Z.to_nat n)).

(** [enumerate(l, 1)] *)
Definition enumerate1 {A : Type} (l : list A) : list (Z * A) :=
  mapi (fun i x => (i + 1, x)%Z) l.

(** Zero pixels are masked: a property of the masked data that [_get_data]
    builds. *)
Definition zero_masked (data : marray) : Prop :=
  forall x : Q, In (x, false) (ravel data) -> ~ x == 0.

(** [numpy.sort] of a flat array. *)
Fixpoint insert_sorted (x : Q) (l : list Q) : list Q :=
  match l with
  | [] => [x]
  | y :: l' => if Qle_bool x y then x :: l else y :: insert_sorted x l'
  end.

Definition np_sort (l : list Q) : list Q := fold_right insert_sorted [] l.

(** [numpy.sort] of a flat masked array: every entry is kept; the unmasked
    values come first, in ascending order, and the masked entries last. *)
Definition ma_sort (l : list (Q * bool)) : list (Q * bool) :=
  map (fun v => (v, false)) (np_sort (compressed l))
  ++ filter (fun p : Q * bool => snd p) l.

(** [a / b] of masked arrays: a pixel whose divisor is zero is masked. *)
Definition ma_true_divide (a b : marray) : marray :=
  zip2d (fun p q : Q * bool =>
           (fst p / fst q, snd p || snd q || Qeq_bool (fst q) 0)) a b.

(** [a[chunk]] where [chunk] may be [None], which selects the whole
    array. *)
Definition ma_slice_opt (a : marray) (c : option chunk_t) : marray :=
  match c with Some c => ma_slice a c | None => a end.

(** [ndimage.find_objects(labelled)]: for each label from 1 to the largest
    one its bounding box, or [None] for a label without pixels. *)
Definition find_objects (labelled : list (list Z))
  : list (option chunk_t) :=
  let top := fold_left Z.max (ravel labelled) 0%Z in
  map (fun label =>
         match bounding_box (coords_where (Z.eqb label) labelled) with
         | c :: _ => Some c
         | [] => None
         end)
      (arange1 top).

(** [d.setdefault(key, value)] on a dictionary keyed by floats. *)
Fixpoint lookup {A : Type} (d : list (Q * A)) (key : Q) : option A :=
  match d with
  | [] => None
  | (k, v) :: d' => if Qeq_bool k key then Some v else lookup d' key
  end.

Definition setdefault {A : Type} (d : list (Q * A)) (key : Q) (value : A)
  : A * list (Q * A) :=
  match lookup d key with
  | Some v => (v, d)
  | None => (value, (key, value) :: d)
  end.

(** The measurement that a fit returns: the parameters of the Gaussian and
    the significance. *)
Record measurement_t : Type := Measurement {
  peak : Q;
  xbar : Q;
  ybar : Q;
  semimajor : Q;
  semiminor : Q;
  theta : Q;
  sig : Q
}.

(** What this module reads of an [extract.Detection]: the errors of the
    position, the pixel position and the pixel coordinates of the four ends
    of the axes. *)
Record Detection : Type := Det {
  det_measurement : measurement_t;
  ra_error : pyfloat;
  dec_error : pyfloat;
  det_x : Q;
  det_y : Q;
  start_smaj_x : Q;
  start_smaj_y : Q;
  start_smin_x : Q;
  start_smin_y : Q;
  end_smaj_x : Q;
  end_smaj_y : Q;
  end_smin_x : Q;
  end_smin_y : Q
}.

(** [check_point] of [is_usable]: the four pixels around [(x, y)] must
    index the mask without an IndexError and be unmasked. *)
Definition check_point (mask : list (list bool)) (x y : Q) : bool :=
  forallb
    (fun position : Z * Z =>
       match getitem2 mask (fst position) (snd position) with
       | Some true => false
       | Some false => true
       | None => false
       end)
    (list_prod [Qfloor x; Qceiling x] [Qfloor y; Qceiling y]).

(** [is_usable] of [_pyse], given [self.data.mask]. *)
Definition is_usable (mask : list (list bool)) (det : Detection) : bool :=
  forallb (fun point : Q * Q => check_point mask (fst point) (snd point))
    [(start_smaj_x det, start_smaj_y det);
     (start_smin_x det, start_smin_y det);
     (end_smaj_x det, end_smaj_y det);
     (end_smin_x det, end_smin_y det)].

(** [a[chunk] += b], positions outside [b] left alone. *)
Definition block_add (a : list (list Q)) (c : option chunk_t)
  (b : list (list Q)) : list (list Q) :=
  let nrows := Z.of_nat (length a) in
  let r0 := match c with Some c => slice_bound nrows (ch_r0 c) | None => 0%Z end in
  mapi (fun i row =>
          let ncols := Z.of_nat (length row) in
          let c0 :=
            match c with
            | Some c => slice_bound ncols (ch_c0 c)
            | None => 0%Z
            end in
          mapi (fun j x =>
                  if (r0 <=? i)%Z && (c0 <=? j)%Z then
                    match nth_error b (Z.to_nat (i - r0)) with
                    | Some brow =>
                        match nth_error brow (Z.to_nat (j - c0)) with
                        | Some v => x + v
                        | None => x
                        end
                    | None => x
                    end
                  else x) row) a.

(** [for x in l: acc = f(acc, x)] for a body that may raise. *)
Fixpoint foldM {A B : Type} (f : B -> A -> M B) (l : list A) (b : B)
  : M B :=
  match l with
  | [] => ret b
  | x :: l' => bind (f b x) (foldM f l')
  end.

(** [try: m  except <handled>: handler(e)]; an exception that [handles]
    rejects propagates. *)
Definition try_except {A : Type} (m : M A) (handles : exn -> bool)
  (handler : exn -> M A) : M A :=
  fun st =>
    match m st with
    | (Ok a, st') => (Ok a, st')
    | (Raise e, st') =>
        if handles e then handler e st' else (Raise e, st')
    end.

Definition is_RuntimeError (e : exn) : bool :=
  match e with RuntimeError _ => true | _ => false end.
Definition is_IndexError (e : exn) : bool :=
  match e with IndexError _ => true | _ => false end.
Definition is_ValueError (e : exn) : bool :=
  match e with ValueError _ => true | _ => false end.

(** [a[chunk]] of a plain array, where [chunk] may be [None]. *)
Definition slice2_opt {A : Type} (a : list (list A)) (c : option chunk_t)
  : list (list A) :=
  match c with
  | Some c => slice2 a (ch_r0 c) (ch_r1 c) (ch_c0 c) (ch_c1 c)
  | None => a
  end.

(** [numpy.arange(n)] for an integral [n]. *)
Definition np_arange (n : Z) : list Z := map Z.of_nat (seq 0 (Z.to_nat n)).

(** [a.sum()] of a flat array. *)
Definition np_sum (l : list Q) : Q := fold_left Qplus l 0.

(** [(numpy.where(cond)[0]).max()]: the last index at which [cond] holds,
    if there is one. *)
Definition last_true (cond : list bool) : option nat :=
  fold_left (fun acc (ib : nat * bool) => if snd ib then Some (fst ib) else acc)
            (combine (seq 0 (length cond)) cond) None.

(** The sum of the reciprocals of 1, ..., K. *)
Fixpoint harmonic (K : nat) : Q :=
  match K with
  | O => 0
  | S K' => harmonic K' + 1 / inject_Z (Z.of_nat K)
  end.

(** A method leaves the attribute [proj] of the object as it found it. *)
Definition keeps {A B : Type} (proj : ImageData -> B) (m : M A) : Prop :=
  forall st : ImageData, proj (snd (m st)) = proj st.

(** A call raises and leaves a user override as it was. *)
Definition refused {A : Type} (m : M A) (st : ImageData)
  (override : caches -> option marray) : Prop :=
  exists (e : exn) (st' : ImageData),
    m st = (Raise e, st') /\ override (cache st') = override (cache st).

(** What a method is given to work on: the constructor arguments, the two
    threshold-keyed dictionaries and the user overrides (everything except
    the stores of the memoised properties, the residual maps and the
    log). *)
Definition inputs_of (st : ImageData) :=
  (rawdata st, rawnan st, wcs st, beam st, conf st,
   clip (cache st), labels (cache st),
   user_backmap (cache st), user_noisemap (cache st)).

(** The pixel at row [i] and column [j], both counted from 0. *)
Definition pixel {A : Type} (a : list (list A)) (i j : nat) : option A :=
  match nth_error a i with
  | Some row => nth_error row j
  | None => None
  end.

(** The four points that [is_usable] tests: the two ends of each axis of
    the detection. *)
Definition axis_ends (det : Detection) : list (Q * Q) :=
  [(start_smaj_x det, start_smaj_y det);
   (start_smin_x det, start_smin_y det);
   (end_smaj_x det, end_smaj_y det);
   (end_smin_x det, end_smin_y det)].

(* ------------------------------------------------------------------ *)
(** ** Concrete stand-ins for the routines of other modules

    Used where a property is evaluated on a concrete image. *)

Module Fixture.

Definition pi : Q := 3141592653589793 # 1000000000000000.

(** Fixed-point truncation to 64 binary digits. *)
Definition trunc (q : Q) : Q :=
  Qfloor (q * inject_Z (2 ^ 64)) # (2 ^ 64).

Fixpoint newton (n : nat) (a y : Q) : Q :=
  match n with
  | O => y
  | S n' => newton n' a (trunc ((y + a / y) / 2))
  end.

(** Square root by Newton's iteration in fixed point, to about nine digits
    on the arguments used here. *)
Definition sqrt (a : Q) : Q :=
  if Qle_bool a 0 then 0 else Qabs (newton 6 a (trunc ((1 + a) / 2))).

(** An angle of the first quadrant is represented by its cosine, so that
    [sin (arccos x)] is [sqrt (1 - x * x)]. *)
Definition arccos (x : Q) : Q := x.
Definition sin (c : Q) : Q := sqrt (1 - c * c).

(** The median of the values of a map: the middle of the sorted values, or
    the mean of the two middle ones. *)
Definition median (a : marray) : Q :=
  let l := np_sort (ravel (ma_data a)) in
  let n := length l in
  if Nat.even n then (nth (n / 2 - 1) l 0 + nth (n / 2) l 0) / 2
  else nth (n / 2) l 0.

Definition median_of (l : list Q) : Q :=
  let l := np_sort l in
  let n := length l in
  if Nat.even n then (nth (n / 2 - 1) l 0 + nth (n / 2) l 0) / 2
  else nth (n / 2) l 0.

Definition std (l : list Q) : Q :=
  let m := np_mean l in
  sqrt (np_mean (map (fun x => (x - m) * (x - m)) l)).

(** One pass of clipping at two standard deviations about the median. *)
Definition sigma_clip (chunk : list (Q * bool)) (beam : Q * Q * Q)
  : list Q * Q * Q * Q :=
  let d := compressed chunk in
  let sample :=
    filter (fun x => Qle_bool (Qabs (x - median_of d)) (2 * std d)) d in
  (sample, std sample, median_of sample, 1).

(** A 2 x 4 image, that is two tiles of 2 x 2 pixels: [1, 2, 3, 10] and
    [1, 1, 2, 4]. *)
Definition two_tiles : marray :=
  of_ndarray [[1; 2; 1; 1]; [3; 10; 2; 4]].

(** Connected-component labelling in scan order: each unlabelled
    foreground pixel met in C order starts a new label, which then grows
    along the structuring element until it stops changing. *)
Definition at0 (a : list (list Z)) (i j : Z) : Z :=
  if (0 <=? i)%Z && (0 <=? j)%Z then
    match getitem2 a i j with Some v => v | None => 0%Z end
  else 0%Z.

Definition neighbours (structure : list (list Z)) (i j : Z)
  : list (Z * Z) :=
  map (fun d : Z * Z => (i + fst d - 1, j + snd d - 1)%Z)
      (coords_where (fun v => negb (v =? 0)%Z) structure).

Definition grow (structure input lab : list (list Z)) (n : Z)
  : list (list Z) :=
  mapi (fun i row =>
          mapi (fun j l =>
                  if (l =? 0)%Z && negb (at0 input i j =? 0)%Z
                     && existsb (fun q => (at0 lab (fst q) (snd q) =? n)%Z)
                                (neighbours structure i j)
                  then n else l) row) lab.

Definition set_label (lab : list (list Z)) (i j n : Z) : list (list Z) :=
  mapi (fun i' row =>
          mapi (fun j' l => if (i' =? i)%Z && (j' =? j)%Z then n else l)
               row) lab.

Definition label (input structure : list (list Z)) : list (list Z) * Z :=
  let fuel := length (ravel input) in
  fold_left
    (fun (acc : list (list Z) * Z) (p : Z * Z) =>
       let '(lab, n) := acc in
       if (at0 lab (fst p) (snd p) =? 0)%Z then
         (Nat.iter fuel (fun l => grow structure input l (n + 1))
                   (set_label lab (fst p) (snd p) (n + 1)),
          (n + 1)%Z)
       else acc)
    (coords_where (fun v => negb (v =? 0)%Z) input)
    (map2d (fun _ => 0%Z) input, 0%Z).

(** Twice the semi-axes. *)
Definition correlation_lengths (semimajor semiminor : Q) : Q * Q :=
  (2 * semimajor, 2 * semiminor).

(** The exponential: Taylor's polynomial of degree 8 on [x / 1024], raised
    to the power 1024 by ten squarings; below -40 the result is 0. *)
Definition exp_small (x : Q) : Q :=
  1 + x * (1 + x / 2 * (1 + x / 3 * (1 + x / 4 * (1 + x / 5 * (1 + x / 6
    * (1 + x / 7 * (1 + x / 8))))))).

Definition exp (x : Q) : Q :=
  if Qle_bool x (-40) then 0
  else Nat.iter 10 (fun y => trunc (y * y)) (trunc (exp_small (x / 1024))).

(** The logarithm: the argument is brought into [1, 2) by halving or
    doubling, and the series of the inverse hyperbolic tangent is summed;
    0 on arguments that are not positive. *)
Definition ln2 : Q := 6931471805599453 # 10000000000000000.

Fixpoint reduce (fuel : nat) (y : Q) (k : Z) : Q * Z :=
  match fuel with
  | O => (y, k)
  | S fuel' =>
      if Qle_bool 2 y then reduce fuel' (y / 2) (k + 1)%Z
      else if Qle_bool 1 y then (y, k)
      else reduce fuel' (y * 2) (k - 1)%Z
  end.

Definition atanh_series (t : Q) : Q :=
  let t2 := trunc (t * t) in
  t * (1 + t2 * ((1 # 3) + t2 * ((1 # 5) + t2 * ((1 # 7) + t2 * ((1 # 9)
    + t2 * ((1 # 11) + t2 * ((1 # 13) + t2 * (1 # 15)))))))).

Definition log (y : Q) : Q :=
  if Qle_bool y 0 then 0
  else
    let '(m, k) := reduce 200 (Qred y) 0 in
    trunc (inject_Z k * ln2 + 2 * atanh_series (trunc ((m - 1) / (m + 1)))).

(** The mask of the pixels farther than [radius] from the centre. *)
Definition circular_mask (xdim ydim : nat) (radius : Q)
  : list (list bool) :=
  mapi (fun i row =>
          mapi (fun j (_ : bool) =>
                  let dx := inject_Z i - inject_Z (Z.of_nat xdim) / 2 in
                  let dy := inject_Z j - inject_Z (Z.of_nat ydim) / 2 in
                  negb (Qle_bool (dx * dx + dy * dy) (radius * radius)))
               row)
       (full xdim ydim false).

(** The median filter of size one. *)
Definition median_filter1 (grid : marray) (size : Z) : marray := grid.

(** Interpolation of order 0: each pixel takes the grid entry nearest to
    its coordinate, the coordinates running from -0.5 to -0.5 + ratio. *)
Definition nearest (n : nat) (dim : nat) (ratio : Q) (i : nat) : nat :=
  let c :=
    if (dim <=? 1)%nat then - (1 # 2)
    else - (1 # 2) + ratio * inject_Z (Z.of_nat i)
                     / inject_Z (Z.of_nat dim - 1) in
  Z.to_nat (Z.min (Z.of_nat n - 1) (Z.max 0 (round c))).

Definition map_coordinates (grid : marray) (my_xdim my_ydim : nat)
  (xratio yratio : Q) (order : Z) : list (list Q) :=
  map (fun i =>
         map (fun j =>
                fst (nth (nearest (snd (shape grid)) my_ydim yratio j)
                         (nth (nearest (length grid) my_xdim xratio i)
                              grid [])
                         (0, true)))
             (seq 0 my_ydim))
      (seq 0 my_xdim).

(** An island is the tuple of the arguments of its constructor; it does
    not split when deblended, and its fit is the brightest pixel with the
    shape of the beam (or the fixed semi-axes). *)
Record island : Type := Island {
  isl_data : list (list Q);
  isl_rms : marray;
  isl_chunk : option chunk_t;
  isl_anl : Q;
  isl_det : marray;
  isl_beam : Q * Q * Q
}.

Definition island_data (isl : island) : marray :=
  map2d (fun x => (x, Qle_bool x (- (99999 # 1)))) (isl_data isl).

Definition deblend (isl : island) : list island := [isl].

(** The position of the largest value of a block, in C order. *)
Definition argmax (a : list (list Q)) : Z * Z * Q :=
  fold_left
    (fun (best : Z * Z * Q) (p : Z * Z * Q) =>
       if Qltb (snd best) (snd p) then p else best)
    (concat (mapi (fun i row => mapi (fun j x => (i, j, x)) row) a))
    (0%Z, 0%Z, - (99999 # 1)).

Definition fit (isl : island) (fixed : option (Q * Q))
  : option (measurement_t * list (list Q)) :=
  let '(i, j, v) := argmax (isl_data isl) in
  let '(smaj, smin) :=
    match fixed with
    | Some f => f
    | None => (fst (fst (isl_beam isl)), snd (fst (isl_beam isl)))
    end in
  Some (Measurement v (inject_Z i) (inject_Z j) smaj smin
          (snd (isl_beam isl)) v,
        map2d (fun _ => 0) (isl_data isl)).

(** A detection for a position angle of zero: the major axis runs along
    the second pixel coordinate and the minor axis along the first; the
    errors of the position are zero. *)
Definition detection (m : measurement_t) (image : ImageData)
  (chunk : option (option chunk_t)) : result Detection :=
  let '(r0, c0) :=
    match chunk with
    | Some (Some c) => (ch_r0 c, ch_c0 c)
    | _ => (0%Z, 0%Z)
    end in
  let x := xbar m + inject_Z r0 in
  let y := ybar m + inject_Z c0 in
  Ok (Det m (Fin 0) (Fin 0) x y
          x (y + semimajor m) (x - semiminor m) y
          x (y - semimajor m) (x + semiminor m) y).

(** A linear pixel scale; declinations beyond the poles are invalid. *)
Definition s2p (w : wcs_t) (source : Q * Q) : result (Z * Z) :=
  if Qltb 90 (Qabs (snd source)) then
    Raise (RuntimeError
             "wcsp2s error: 8: One or more of the world coordinates were invalid")
  else
    Ok (int_of (fst (crpix w) + (fst source - fst (crval w)) / fst (cdelt w)),
        int_of (snd (crpix w) + (snd source - snd (crval w)) / snd (cdelt w))).

(** The forced fit: the brightest unmasked value at the centre of the box,
    with the shape of the beam; no data is a failure of the fit. *)
Definition source_profile_and_errors (fitme : marray)
  (threshold_at_pixel : option Q) (noise : Q) (beam : Q * Q * Q)
  (fixed : list (string * Q)) : result (measurement_t * list (list Q)) :=
  match ma_compressed fitme with
  | [] => Raise (ValueError "fit failed")
  | v :: l =>
      Ok (Measurement (list_max 0 (v :: l))
            (inject_Z (Z.of_nat (length fitme)) / 2)
            (inject_Z (Z.of_nat (snd (shape fitme))) / 2)
            (fst (fst beam)) (snd (fst beam)) (snd beam) 0,
          map2d (fun _ => 0) fitme)
  end.

(** The keyword defaults of [ImageData.__init__]. *)
Definition default_settings : settings :=
  Settings (2 # 10) 0 0 1 32 32 0 0 (1 # 100)
    [[0; 1; 0]; [1; 1; 1]; [0; 1; 0]]%Z
    true false 32 10 3 0 0 false.

Definition sin_wcs (crpix0 crpix1 cdelt0 cdelt1 : Q) : wcs_t :=
  Wcs (0, 0) (crpix0, crpix1) (cdelt0, cdelt1)
      ("RA---SIN"%string, "DEC--SIN"%string).

(** A 10 x 10 image without blank pixels; reference pixel (5, 5), ten
    degrees per pixel. *)
Definition allsky : ImageData :=
  init (full 10 10 1) (full 10 10 false) (2, 2, 0)
       (sin_wcs 5 5 (-10) 10) default_settings.

(** The same pixels under a projection that is not SIN. *)
Definition allsky_tan : ImageData :=
  init (full 10 10 1) (full 10 10 false) (2, 2, 0)
       (Wcs (0, 0) (5, 5) (-10, 10) ("RA---TAN"%string, "DEC--TAN"%string))
       default_settings.

(** A 2 x 5 background-subtracted image with unit noise: three isolated
    pixels of 4, 9 and 5 on a floor of 1.  With thresholds of 5 (detection)
    and 3 (analysis) times the noise the three pixels are three islands,
    whose peaks lie below, above and exactly at the detection threshold. *)
Definition three_pixels : marray :=
  of_ndarray [[4; 1; 1; 1; 9]; [1; 1; 5; 1; 1]].
Definition unit_noise : marray := of_ndarray (full 2 5 1).
Definition cross : list (list Z) := [[0; 1; 0]; [1; 1; 1]; [0; 1; 0]]%Z.

(** A 4 x 4 image of ones with one pixel of 4 at (1, 2), in a SIN
    projection fine enough for the whole image to be reliable, and a beam
    of one pixel. *)
Definition small_sky : ImageData :=
  init [[1; 1; 1; 1]; [1; 1; 4; 1]; [1; 1; 1; 1]; [1; 1; 1; 1]]
       (full 4 4 false) (1, 1, 0)
       (sin_wcs 2 2 (- (1 # 100)) (1 # 100)) default_settings.

Definition zero_background : marray := of_ndarray (full 4 4 0).
Definition unit_rms : marray := of_ndarray (full 4 4 1).
Definition masked_rms : marray := map2d (fun x => (x, true)) (full 4 4 1).

(** [small_sky] after [img.backmap = zero_background] and
    [img.rmsmap = unit_rms]. *)
Definition small_sky_flat : ImageData :=
  Image (rawdata small_sky) (rawnan small_sky) (wcs small_sky)
        (beam small_sky) (conf small_sky)
        (Caches [] [] (Some zero_background) (Some unit_rms)
                None None None None None None None)
        [].

(** [small_sky] after [img.backmap = zero_background] and
    [img.rmsmap = masked_rms]. *)
Definition small_sky_blind : ImageData :=
  Image (rawdata small_sky) (rawnan small_sky) (wcs small_sky)
        (beam small_sky) (conf small_sky)
        (Caches [] [] (Some zero_background) (Some masked_rms)
                None None None None None None None)
        [].

(** A 4 x 4 image of ones with a source of 100 in its first row, at
    (0, 2), with the same maps as [small_sky_flat]. *)
Definition edge_sky_flat : ImageData :=
  Image [[1; 1; 100; 1]; [1; 1; 1; 1]; [1; 1; 1; 1]; [1; 1; 1; 1]]
        (full 4 4 false) (wcs small_sky) (beam small_sky) (conf small_sky)
        (Caches [] [] (Some zero_background) (Some unit_rms)
                None None None None None None None)
        [].

(** [small_sky] with a margin of one pixel. *)
Definition small_sky_margin : ImageData :=
  init (rawdata small_sky) (rawnan small_sky) (1, 1, 0) (wcs small_sky)
       (Settings (2 # 10) 0 0 1 32 32 1 0 (1 # 100) cross
                 true false 32 10 3 0 0 false).

(** A 4 x 4 image of zeros. *)
Definition blank_sky : ImageData :=
  init (full 4 4 0) (full 4 4 false) (1, 1, 0) (wcs small_sky)
       default_settings.

(** A noise map with a negative value everywhere. *)
Definition negative_rms : marray := of_ndarray (full 4 4 (-1)).

(** [blank_sky] after [img.rmsmap = masked_rms]: no usable pixel, and a
    noise map set by the user that is entirely masked. *)
Definition blank_sky_blind : ImageData :=
  Image (rawdata blank_sky) (rawnan blank_sky) (wcs blank_sky)
        (beam blank_sky) (conf blank_sky)
        (Caches [] [] None (Some masked_rms)
                None None None None None None None)
        [].

End Fixture.

(** The window as the specification words it: the pixels within the
    half-widths of crpix, [|i - crpix_ra| <= dra] and
    [|j - crpix_dec| <= ddec]. *)
Definition spec_window (crpix : Q * Q) (dra ddec i j : Z) : Prop :=
  Qabs (inject_Z i - fst crpix) <= inject_Z dra /\
  Qabs (inject_Z j - snd crpix) <= inject_Z ddec.

(* ------------------------------------------------------------------ *)
(** ** The methods of ImageData *)

Section Engine.

Open Scope py_scope.

(** *** Routines of other modules *)

(** numpy's constants and transcendental functions. *)
Variable np_pi : Q.
Variable np_sqrt : Q -> Q.
Variable np_sin : Q -> Q.
Variable np_arccos : Q -> Q.
Variable np_exp : Q -> Q.
Variable np_log : Q -> Q.

(** [numpy.median] of a map. *)
Variable np_median : marray -> Q.

(** [utils.circular_mask(xdim, ydim, radius)] *)
Variable circular_mask : nat -> nat -> Q -> list (list bool).

(** [stats.sigma_clip(chunk, beam)]: the clipped sample, sigma, the median
    and the number of iterations. *)
Variable sigma_clip : list (Q * bool) -> Q * Q * Q -> list Q * Q * Q * Q.

(** [ndimage.median_filter(grid, size)] *)
Variable ndimage_median_filter : marray -> Z -> marray.

(** [ndimage.map_coordinates(grid, numpy.mgrid[slicex, slicey],
    mode='nearest', order=order)], where the slices run from -0.5 to
    -0.5 + ratio in as many steps as the dimension has pixels; the arguments
    are the grid, the two dimensions, the two ratios and the order. *)
Variable ndimage_map_coordinates :
  marray -> nat -> nat -> Q -> Q -> Z -> list (list Q).

(** [ndimage.label(input, structure)]: the labelled array and the number
    of labels. *)
Variable ndimage_label :
  list (list Z) -> list (list Z) -> list (list Z) * Z.

(** The class [extract.Island]: its constructor, the attributes [chunk]
    and [data], [deblend] (flattened) and [fit]; [fit] gets the fixed
    semi-axes, if any, and returns the measurement and the residual, or
    nothing when the fit failed. *)
Variable island : Type.
Variable mk_island :
  list (list Q) -> marray -> option chunk_t -> Q -> marray -> Q * Q * Q ->
  island.
Variable island_chunk : island -> option chunk_t.
Variable island_data : island -> marray.
Variable island_deblend : island -> list island.
Variable island_fit :
  island -> option (Q * Q) -> option (measurement_t * list (list Q)).

(** [extract.Detection(measurement, imagedata, chunk=chunk)]; the last
    argument is absent when the keyword is not given. *)
Variable mk_detection :
  measurement_t -> ImageData -> option (option chunk_t) -> result Detection.

(** [utils.calculate_correlation_lengths(semimajor, semiminor)] *)
Variable calculate_correlation_lengths : Q -> Q -> Q * Q.

(** [self.wcs.s2p(source)]: the pixel that a sky position falls on. *)
Variable wcs_s2p : wcs_t -> Q * Q -> result (Z * Z).

(** [extract.source_profile_and_errors(fitme, threshold_at_pixel, noise,
    beam, fixed=fixed)]: the measurement and the residuals. *)
Variable source_profile_and_errors :
  marray -> option Q -> Q -> Q * Q * Q -> list (string * Q) ->
  result (measurement_t * list (list Q)).

(** [numpy.radians] *)
Definition np_radians (x : Q) : Q := x * (np_pi / 180).

(** [int(a / b)] for numpy floats: a zero divisor gives an infinity or a
    NaN, which [int] refuses. *)
Definition int_of_quotient (a b : Q) : result Z :=
  if Qeq_bool b 0 then
    if Qeq_bool a 0 then Raise (ValueError "cannot convert float NaN to integer")
    else Raise OverflowError
  else Ok (int_of (a / b)).

Definition ctype_eqb (c d : string * string) : bool :=
  String.eqb (fst c) (fst d) && String.eqb (snd c) (snd d).

Definition SIN : string * string := ("RA---SIN"%string, "DEC--SIN"%string).

(** *** General purpose image handling *)

(** [if not max_degradation: max_degradation = self.max_degradation] *)
Definition effective_degradation (st : ImageData) (arg : option Q) : Q :=
  match arg with
  | Some m => if truthy m then m else max_degradation (conf st)
  | None => max_degradation (conf st)
  end.

(** [numpy.where(limits > 0, limits, 0)] on one limit. *)
Definition clamp0 (l : Q) : Q := if Qgtb l 0 then l else 0.

(** [conv_factor] of [reliable_window], as a function of the degradation. *)
Definition conv_factor (max_degradation : Q) : Q :=
  let max_angle := np_arccos (1 / (1 + max_degradation)) in
  (1 # 2) * np_sqrt 2 * np_sin max_angle.

(** [ImageData.reliable_window]; the result is the mask ([true] = 1). *)
Definition reliable_window (arg : option Q) : M (list (list bool)) :=
  st <- self ;;
  let max_degradation := effective_degradation st arg in
  let mask := full (xdim st) (ydim st) true in
  let wcs := wcs st in
  if truthy max_degradation && ctype_eqb (ctype wcs) SIN then
    if Qeq_bool (1 + max_degradation) 0 then raise ZeroDivisionError
    else
      let conv_factor := conv_factor max_degradation in
      let raincr_rad := np_radians (Qabs (fst (cdelt wcs))) in
      let decincr_rad := np_radians (Qabs (snd (cdelt wcs))) in
      delta_ra_pix <- lift (int_of_quotient conv_factor raincr_rad) ;;
      delta_dec_pix <- lift (int_of_quotient conv_factor decincr_rad) ;;
      let l0 := clamp0 (fst (crpix wcs) - inject_Z delta_ra_pix) in
      let l1 := clamp0 (fst (crpix wcs) - 1 + inject_Z delta_ra_pix) in
      let l2 := clamp0 (snd (crpix wcs) - inject_Z delta_dec_pix) in
      let l3 := clamp0 (snd (crpix wcs) - 1 + inject_Z delta_dec_pix) in
      ret (slice2_assign mask (int_of l0) (int_of l1) (int_of l2) (int_of l3)
             false)
  else if truthy max_degradation then
    log "warn" "Not SIN projection: reliable window not calculated." ;;;
    ret (full (xdim st) (ydim st) false)
  else
    ret (full (xdim st) (ydim st) false).

(** [ImageData._get_data], the body of the memoised property [data]. *)
Definition _get_data_body : M marray :=
  mask <- reliable_window None ;;
  st <- self ;;
  let mask :=
    if negb (margin (conf st) =? 0)%Z then
      let margin_mask :=
        slice2_assign (full (xdim st) (ydim st) true)
          (margin (conf st)) (- margin (conf st))
          (margin (conf st)) (- margin (conf st)) false in
      logical_or mask margin_mask
    else mask in
  let mask :=
    if truthy (radius (conf st)) then
      logical_or mask (circular_mask (xdim st) (ydim st) (radius (conf st)))
    else mask in
  let mask :=
    logical_or mask (map2d (fun x => Qeq_bool x 0) (rawdata st)) in
  let mask := logical_or mask (rawnan st) in
  ret (ma_array (rawdata st) mask).

Definition _get_data : M marray :=
  memoize memo_data set_memo_data _get_data_body.

(** The body of the tile loop of [__grids]: the entries appended to
    [rmsrow] and [bgrow] for one chunk. *)
Definition grid_cell (beam : Q * Q * Q) (chunk : list (Q * bool))
  : cell * cell :=
  if negb (ma_any chunk) then (CFalse, CFalse)
  else
    let '(chunk, sigma, median, num_clip_its) := sigma_clip chunk beam in
    if (length chunk =? 0)%nat || negb (any_nonzero chunk) then
      (CFalse, CFalse)
    else
      let mean := np_mean chunk in
      (CNum sigma,
       if skewed mean median sigma then CNum median
       else CNum ((5 # 2) * median - (3 # 2) * mean)).

(** The chunk of the tile that starts at [(startx, starty)]. *)
Definition tile (useful_data : marray) (back_sizex back_sizey : nat)
  (startx starty : nat) : list (Q * bool) :=
  ravel (slice2 useful_data
           (Z.of_nat startx) (Z.of_nat startx + Z.of_nat back_sizex)
           (Z.of_nat starty) (Z.of_nat starty + Z.of_nat back_sizey)).

(** [ImageData.__grids] as a function of the masked data. *)
Definition grids_of (data : marray) (back_sizex back_sizey : nat)
  (beam : Q * Q * Q) : result grids_t :=
  match find_objects_unmasked (ma_mask data) with
  | [useful_chunk] =>
      let useful_data := ma_slice data useful_chunk in
      let '(my_xdim, my_ydim) := ma_shape useful_data in
      if (back_sizex =? 0)%nat || (back_sizey =? 0)%nat then
        Raise (ValueError "xrange() arg 3 must not be zero")
      else
        let cells :=
          map (fun startx =>
                 map (fun starty =>
                        grid_cell beam
                          (tile useful_data back_sizex back_sizey
                                startx starty))
                     (xrange my_ydim back_sizey))
              (xrange my_xdim back_sizex) in
        Ok (Grids (masked_grid (map2d fst cells))
                  (masked_grid (map2d snd cells)))
  | _ => Raise AssertionError
  end.

Definition __grids : M grids_t :=
  data <- _get_data ;;
  st <- self ;;
  lift (grids_of data (back_sizex (conf st)) (back_sizey (conf st))
          (beam st)).

(** The memoised property [grids]. *)
Definition _grids : M grids_t :=
  memoize memo_grids set_memo_grids __grids.

(** [ImageData._interpolate] *)
Definition _interpolate (grid : marray) (roundup : bool) : M marray :=
  st <- self ;;
  let my_filter := median_filter (conf st) in
  let mf_threshold := mf_threshold (conf st) in
  let interpolate_order := interpolate_order (conf st) in
  data <- _get_data ;;
  match find_objects_unmasked (ma_mask data) with
  | [useful_chunk] =>
      let '(my_xdim, my_ydim) := ma_shape (ma_slice data useful_chunk) in
      let grid :=
        if negb (my_filter =? 0)%Z then
          let f_grid := ndimage_median_filter grid my_filter in
          if truthy mf_threshold then
            of_ndarray
              (zip2d (fun f g => if Qgtb (Qabs (f - g)) mf_threshold
                                 then f else g)
                     (ma_data f_grid) (ma_data grid))
          else f_grid
        else grid in
      if (back_sizex (conf st) =? 0)%nat || (back_sizey (conf st) =? 0)%nat
      then raise ZeroDivisionError
      else
        let xratio :=
          inject_Z (Z.of_nat my_xdim)
          / inject_Z (Z.of_nat (back_sizex (conf st))) in
        let yratio :=
          inject_Z (Z.of_nat my_ydim)
          / inject_Z (Z.of_nat (back_sizey (conf st))) in
        my_map <- lift (block_assign
                          (full (fst (ma_shape data)) (snd (ma_shape data)) 0)
                          useful_chunk
                          (ndimage_map_coordinates grid my_xdim my_ydim
                             xratio yratio interpolate_order)) ;;
        if forallb (fun b : bool => b) (ravel (ma_mask grid)) then
          ret (map2d (fun x => (x, true)) my_map)
        else if roundup then
          let lowest := list_min 0 (ma_compressed grid) in
          ret (of_ndarray
                 (map2d (fun x => if Qgeb x lowest then x else lowest)
                        my_map))
        else ret (of_ndarray my_map)
  | _ => raise AssertionError
  end.

(** [ImageData._backmap], the memoised property [backmap]. *)
Definition _backmap : M marray :=
  memoize memo_backmap set_memo_backmap
    (st <- self ;;
     match user_backmap (cache st) with
     | None => grids <- _grids ;; _interpolate (grid_bg grids) false
     | Some user_backmap => ret user_backmap
     end).

(** [ImageData._get_data_bgsubbed], the memoised property
    [data_bgsubbed]. *)
Definition _get_data_bgsubbed : M marray :=
  memoize memo_data_bgsubbed set_memo_data_bgsubbed
    (data <- _get_data ;;
     backmap <- _backmap ;;
     ret (ma_sub data backmap)).

(** [ImageData._set_backmap], the setter of [backmap]. *)
Definition _set_backmap (bgmap : marray) : M unit :=
  update_cache (set_user_backmap (Some bgmap)) ;;;
  memo_delete set_memo_backmap ;;;
  memo_delete set_memo_data_bgsubbed.

(** [ImageData._get_rm], the memoised property [rmsmap]. *)
Definition _get_rm : M marray :=
  memoize memo_rmsmap set_memo_rmsmap
    (st <- self ;;
     match user_noisemap (cache st) with
     | None => grids <- _grids ;; _interpolate (grid_rms grids) true
     | Some user_noisemap => ret user_noisemap
     end).

(** [ImageData._set_rm], the setter of [rmsmap]. *)
Definition _set_rm (noisemap : marray) : M unit :=
  update_cache (set_user_noisemap (Some noisemap)) ;;;
  memo_delete set_memo_rmsmap.

(** [ImageData.clearcache] *)
Definition clearcache : M unit :=
  update_cache (set_labels []) ;;;
  update_cache (set_clip []) ;;;
  memo_delete set_memo_backmap ;;;
  memo_delete set_memo_rmsmap ;;;
  memo_delete set_memo_data ;;;
  memo_delete set_memo_data_bgsubbed ;;;
  memo_delete set_memo_grids ;;;
  update_cache (set_residuals_from_gauss_fitting None) ;;;
  update_cache (set_residuals_from_deblending None).

(** *** Source extraction *)

Definition RMS_FILTER : Q := 1 # 1000.

(** [numpy.ma.where((data_bgsubbed > analysisthresholdmap) &
    (rmsmap >= RMS_FILTER * numpy.median(rmsmap)), 1, 0).filled(fill_value=0)] *)
Definition clipped_data (data_bgsubbed analysisthresholdmap rmsmap : marray)
  : list (list Z) :=
  let above_anl :=
    zip2d (fun p q : Q * bool => (Qgtb (fst p) (fst q), snd p || snd q))
          data_bgsubbed analysisthresholdmap in
  let floor := RMS_FILTER * np_median rmsmap in
  let above_floor :=
    map2d (fun p : Q * bool => (Qgeb (fst p) floor, snd p)) rmsmap in
  let both :=
    zip2d (fun p q : bool * bool => (fst p && fst q, snd p || snd q))
          above_anl above_floor in
  map2d (fun p : bool * bool =>
           if snd p then 0%Z else if fst p then 1%Z else 0%Z) both.

(** The loop of [label_islands] that sorts the labels by their maximum. *)
Definition split_labels (maximum_values : list Q) : list Z * list Z :=
  fold_left
    (fun (acc : list Z * list Z) (ix : Z * Q) =>
       let '(labels_below_det_thr, labels_above_det_thr) := acc in
       if Qltb (snd ix) 0 then
         (labels_below_det_thr ++ [fst ix], labels_above_det_thr)
       else
         (labels_below_det_thr, labels_above_det_thr ++ [fst ix]))
    (enumerate1 maximum_values) ([], []).

(** [(self.data_bgsubbed - detectionthresholdmap).filled(fill_value=-1)] *)
Definition above_det_thr (data_bgsubbed detectionthresholdmap : marray)
  : list (list Q) :=
  ma_filled (ma_sub data_bgsubbed detectionthresholdmap) (-1).

(** [numpy.where(numpy.in1d(labelled_data.ravel(), labels).reshape(...),
    labelled_data, 0)] *)
Definition keep_labels (labelled_data : list (list Z)) (labels : list Z)
  : list (list Z) :=
  map2d (fun l => if existsb (Z.eqb l) labels then l else 0%Z) labelled_data.

(** [ImageData.label_islands], after its test for an entirely masked RMS
    map, as a function of the maps. *)
Definition label_islands_of (structuring_element : list (list Z))
  (data_bgsubbed rmsmap detectionthresholdmap analysisthresholdmap : marray)
  : result (list Z * list (list Z)) :=
  let '(labelled_data, num_labels) :=
    ndimage_label
      (clipped_data data_bgsubbed analysisthresholdmap rmsmap)
      structuring_element in
  if (0 <? num_labels)%Z then
    let maximum_values :=
      ndimage_maximum
        (above_det_thr data_bgsubbed detectionthresholdmap)
        labelled_data (arange1 num_labels) in
    let '(labels_below_det_thr, labels_above_det_thr) :=
      split_labels maximum_values in
    Ok (labels_above_det_thr, keep_labels labelled_data labels_above_det_thr)
  else
    (* [labels_above_det_thr] has not been assigned *)
    Raise (UnboundLocalError "labels_above_det_thr").

(** [ImageData.label_islands] *)
Definition label_islands (detectionthresholdmap analysisthresholdmap : marray)
  : M (list Z * list (list Z)) :=
  rmsmap <- _get_rm ;;
  if (length (ma_compressed rmsmap) =? 0)%nat then
    log "warning" "RMS map masked; sourcefinding skipped" ;;;
    data_bgsubbed <- _get_data_bgsubbed ;;
    ret ([], full (fst (ma_shape data_bgsubbed))
                  (snd (ma_shape data_bgsubbed)) 0%Z)
  else
    data_bgsubbed <- _get_data_bgsubbed ;;
    st <- self ;;
    lift (label_islands_of (structuring_element (conf st))
            data_bgsubbed rmsmap detectionthresholdmap analysisthresholdmap).

(** The loop of [_pyse] that maps the labels onto islands. *)
Definition islands_of_labels (detectionthresholdmap analysisthresholdmap
                                : marray)
  (labelled_data : list (list Z)) (labels : list Z) : M (list island) :=
  let slices := find_objects labelled_data in
  foldM
    (fun island_list label =>
       match getitem slices (label - 1) with
       | None => raise (IndexError "list index out of range")
       | Some chunk =>
           rmsmap <- _get_rm ;;
           data_bgsubbed <- _get_data_bgsubbed ;;
           st <- self ;;
           let analysis_threshold :=
             list_max 0
               (ma_compressed
                  (ma_true_divide (ma_slice_opt analysisthresholdmap chunk)
                                  (ma_slice_opt rmsmap chunk))) in
           let selected_data :=
             zip2d (fun (l : Z) (p : Q * bool) =>
                      if (l =? label)%Z then fst p else - (99999 # 1))
                   (slice2_opt labelled_data chunk)
                   (ma_slice_opt data_bgsubbed chunk) in
           ret (island_list ++
                [mk_island selected_data (ma_slice_opt rmsmap chunk) chunk
                   analysis_threshold
                   (ma_slice_opt detectionthresholdmap chunk) (beam st)])
       end)
    labels [].

(** The set-up of the residual maps in [_pyse]. *)
Definition setup_residuals (island_list : list island) : M unit :=
  st <- self ;;
  if residuals (conf st) then
    data <- _get_data ;;
    let zeros := full (fst (ma_shape data)) (snd (ma_shape data)) 0 in
    update_cache (set_residuals_from_gauss_fitting (Some zeros)) ;;;
    update_cache
      (set_residuals_from_deblending
         (Some (fold_left
                  (fun acc isl =>
                     block_add acc (island_chunk isl)
                       (ma_filled (island_data isl) 0))
                  island_list zeros)))
  else ret tt.

(** The body of the measuring loop of [_pyse] for one island. *)
Definition measure_island (results : list Detection) (isl : island)
  : M (list Detection) :=
  st <- self ;;
  let fixed :=
    if force_beam (conf st)
    then Some (fst (fst (beam st)), snd (fst (beam st)))
    else None in
  match island_fit isl fixed with
  | None => ret results
  | Some (measurement, residual) =>
      try_except
        (st <- self ;;
         det <- lift (mk_detection measurement st (Some (island_chunk isl))) ;;
         results <-
           (if is_pos_inf (ra_error det) || is_pos_inf (dec_error det) then
              log "warn" "Bad fit from blind extraction - measurement discarded" ;;;
              ret results
            else ret (results ++ [det])) ;;
         (if residuals (conf st) then
            update_cache
              (fun c =>
                 set_residuals_from_deblending
                   (option_map
                      (fun m =>
                         block_add m (island_chunk isl)
                           (map2d Qopp (ma_filled (island_data isl) 0)))
                      (residuals_from_deblending c)) c) ;;;
            update_cache
              (fun c =>
                 set_residuals_from_gauss_fitting
                   (option_map
                      (fun m => block_add m (island_chunk isl) residual)
                      (residuals_from_gauss_fitting c)) c)
          else ret tt) ;;;
         ret results)
        is_RuntimeError
        (fun e => log "warn" "Island not processed; unphysical?" ;;; raise e)
  end.

(** [ImageData._pyse] *)
Definition _pyse (detectionthresholdmap analysisthresholdmap : marray)
  (labelled_data : option (list (list Z))) (labels : option (list Z))
  : M (list Detection) :=
  ll <- match labelled_data with
        | None => label_islands detectionthresholdmap analysisthresholdmap
        | Some labelled_data =>
            match labels with
            | Some labels => ret (labels, labelled_data)
            | None => raise (TypeError "'NoneType' object is not iterable")
            end
        end ;;
  island_list <- islands_of_labels detectionthresholdmap analysisthresholdmap
                   (snd ll) (fst ll) ;;
  setup_residuals island_list ;;;
  st <- self ;;
  let island_list :=
    if deblend_enabled (conf st) then flat_map island_deblend island_list
    else island_list in
  results <- foldM measure_island island_list [] ;;
  data <- _get_data ;;
  ret (filter (is_usable (ma_mask data)) results).

(** The validation of a user-supplied background map in [extract] and
    [fd_extract]; [None] stands for an argument that is neither an ndarray
    nor a MaskedArray. *)
Definition install_bgmap (bgmap : option marray) : M unit :=
  match bgmap with
  | Some bgmap =>
      backmap <- _backmap ;;
      if negb (shape_eqb (ma_shape bgmap) (ma_shape backmap)) then
        raise (IndexError "Background map has wrong shape")
      else _set_backmap bgmap
  | None => ret tt
  end.

(** The validation of a user-supplied noise map in [extract] and
    [fd_extract]. *)
Definition install_noisemap (noisemap : option marray) : M unit :=
  match noisemap with
  | Some noisemap =>
      rmsmap <- _get_rm ;;
      if negb (shape_eqb (ma_shape noisemap) (ma_shape rmsmap)) then
        raise (IndexError "Noisemap has wrong shape")
      else if Qltb (list_min 0 (ma_compressed noisemap)) 0 then
        raise (ValueError "RMS noise cannot be negative")
      else _set_rm noisemap
  | None => ret tt
  end.

(** The warning of [extract] about its thresholds. *)
Definition threshold_warning (det anl : Q) : M unit :=
  if Qgtb anl det then
    log "warn" "Analysis threshold is higher than detection threshold"
  else ret tt.

(** [if det is None: det = self.detection_threshold], and likewise
    [anl]. *)
Definition effective_det (st : ImageData) (det : option Q) : Q :=
  match det with Some d => d | None => detection_threshold (conf st) end.
Definition effective_anl (st : ImageData) (anl : option Q) : Q :=
  match anl with Some a => a | None => analysis_threshold (conf st) end.

(** [ImageData.extract] *)
Definition extract (det anl : option Q) (noisemap bgmap : option marray)
  (labelled_data : option (list (list Z))) (labels : option (list Z))
  : M (list Detection) :=
  st <- self ;;
  let det := effective_det st det in
  let anl := effective_anl st anl in
  threshold_warning det anl ;;;
  install_bgmap bgmap ;;;
  install_noisemap noisemap ;;;
  (match labelled_data with
   | Some labelled_data =>
       data <- _get_data ;;
       if negb (shape_eqb (shape labelled_data) (ma_shape data)) then
         raise (ValueError "Labelled map is wrong shape")
       else ret tt
   | None => ret tt
   end) ;;;
  rmsmap <- _get_rm ;;
  _pyse (ma_scale det rmsmap) (ma_scale anl rmsmap) labelled_data labels.

(** [C_n] of [fd_extract]:
    [(1.0 / numpy.arange(round(0.25 * numpy.pi * corlengthlong *
                               corlengthshort + 1))[1:]).sum()] *)
Definition C_n_of (corlengthlong corlengthshort : Q) : Q :=
  np_sum
    (map (fun k => 1 / inject_Z k)
         (tl (np_arange
                (round ((1 # 4) * np_pi * corlengthlong * corlengthshort
                        + 1))))).

(** [n1] of [fd_extract] *)
Definition n1 : Q := np_sqrt (2 * np_pi).

(** The density [numpy.exp(-0.5 * z**2) / n1] of one normalized value. *)
Definition fdr_density (z : Q) : Q := np_exp (- (1 # 2) * (z * z)) / n1.

(** [prob] of [fd_extract]:
    [numpy.sort(numpy.ravel(numpy.exp(-0.5 * normalized_data**2)/n1))].
    Neither [ravel] nor [sort] drops an entry: [prob] has one entry per
    pixel, the masked ones included (sorted to the end). *)
Definition fdr_prob (normalized_data : marray) : list (Q * bool) :=
  ma_sort
    (ravel (map2d (fun p : Q * bool => (fdr_density (fst p), snd p))
                  normalized_data)).

(** [compare] of [fd_extract] *)
Definition fdr_compare (alpha C_n : Q) (lengthprob : nat) : list Q :=
  map (fun k => (alpha / C_n) * inject_Z k / inject_Z (Z.of_nat lengthprob))
      (tl (np_arange (Z.of_nat lengthprob + 1))).

(** [prob - compare < 0.] for numpy floats: with [C_n] zero, [compare] is
    infinite with the sign of [alpha], or NaN.  A masked entry of [prob]
    gives a masked comparison, which is not an undercrossing. *)
Definition undercrossings (alpha C_n : Q) (prob : list (Q * bool))
  : list bool :=
  if Qeq_bool C_n 0 then
    map (fun p : Q * bool => negb (snd p) && Qgtb alpha 0) prob
  else
    map2 (fun (p : Q * bool) c => negb (snd p) && Qltb (fst p - c) 0) prob
         (fdr_compare alpha C_n (length prob)).

(** [fdr_threshold] of [fd_extract], or nothing when the search for the
    last undercrossing raises ValueError. *)
Definition fdr_threshold_of (alpha C_n : Q) (normalized_data : marray)
  : option Q :=
  let prob := fdr_prob normalized_data in
  match last_true (undercrossings alpha C_n prob) with
  | None => None
  | Some index =>
      Some (np_sqrt (- (2 # 1)
                     * np_log (n1 * fst (nth index prob (0, true)))))
  end.

(** The maps that [fd_extract] normalizes, read after the overrides have
    been validated and installed: [data_bgsubbed] and [rmsmap]. *)
Definition normalized_maps (noisemap bgmap : option marray)
  : M (marray * marray) :=
  install_bgmap bgmap ;;;
  install_noisemap noisemap ;;;
  data_bgsubbed <- _get_data_bgsubbed ;;
  rmsmap <- _get_rm ;;
  ret (data_bgsubbed, rmsmap).

(** [alpha] of [fd_extract]: [if not alpha: alpha = self.fdr_alpha] *)
Definition effective_alpha (st : ImageData) (alpha : option Q) : Q :=
  match alpha with
  | Some a => if truthy a then a else fdr_alpha (conf st)
  | None => fdr_alpha (conf st)
  end.

(** [C_n] of [fd_extract] for the beam of the image. *)
Definition C_n_of_beam (st : ImageData) : Q :=
  let '(corlengthlong, corlengthshort) :=
    calculate_correlation_lengths (fst (fst (beam st))) (snd (fst (beam st)))
  in
  C_n_of corlengthlong corlengthshort.

(** [ImageData.fd_extract] *)
Definition fd_extract (alpha anl : option Q) (noisemap bgmap : option marray)
  : M (list Detection) :=
  st <- self ;;
  let alpha := effective_alpha st alpha in
  let C_n := C_n_of_beam st in
  maps <- normalized_maps noisemap bgmap ;;
  let data_bgsubbed := fst maps in
  let rmsmap := snd maps in
  let normalized_data := ma_true_divide data_bgsubbed rmsmap in
  match fdr_threshold_of alpha C_n normalized_data with
  | None => ret []
  | Some fdr_threshold =>
      let anl :=
        match anl with
        | Some a => if truthy a then a else fdr_threshold
        | None => fdr_threshold
        end in
      _pyse (ma_scale fdr_threshold rmsmap) (ma_scale anl rmsmap)
        None (Some [])
  end.

(** [ImageData.box_slice_about_pixel] *)
Definition box_slice_about_pixel (x y : Z) (box_radius : Q) : chunk_t :=
  let ibr := int_of box_radius in
  Chunk (x - ibr) (x + ibr + 1) (y - ibr) (y + ibr + 1).

(** The default structure of [ndimage.label]. *)
Definition default_structure : list (list Z) :=
  [[0; 1; 0]; [1; 1; 1]; [0; 1; 0]]%Z.

(** [numpy.where(self.data_bgsubbed > threshold * self.rmsmap, 1, 0)]:
    numpy.where reads the values of the comparison. *)
Definition above_threshold (threshold : Q) (data_bgsubbed rmsmap : marray)
  : list (list Z) :=
  zip2d (fun p q : Q * bool =>
           if Qgtb (fst p) (threshold * fst q) then 1%Z else 0%Z)
        data_bgsubbed rmsmap.

(** [self.labels.setdefault(threshold,
       ndimage.label(self.clip.setdefault(threshold, numpy.where(...))))]:
    the labels in force for the threshold and the two dictionaries after
    the call. *)
Definition thresholded_labels (threshold : Q)
  (data_bgsubbed rmsmap : marray) (c : caches)
  : (list (list Z) * Z) * caches :=
  let '(clipped, clip') :=
    setdefault (clip c) threshold
               (above_threshold threshold data_bgsubbed rmsmap) in
  let '(labels_num, labels') :=
    setdefault (labels c) threshold
               (ndimage_label clipped default_structure) in
  (labels_num, set_labels labels' (set_clip clip' c)).

(** The argument [fixed] of [fit_to_point] turned into the dictionary of
    fixed parameters. *)
Definition fixed_parameters (st : ImageData) (boxsize : Q)
  (fixed : option string) : result (list (string * Q)) :=
  match fixed with
  | None => Ok []
  | Some f =>
      if String.eqb f "position" then
        Ok [("xbar"%string, boxsize / 2); ("ybar"%string, boxsize / 2)]
      else if String.eqb f "position+error" then
        Ok [("xbar"%string, boxsize / 2); ("ybar"%string, boxsize / 2);
            ("semimajor"%string, fst (fst (beam st)));
            ("semiminor"%string, snd (fst (beam st)));
            ("theta"%string, snd (beam st))]
      else Raise (TypeError "Unkown fixed parameter")
  end.

(** The part of [fit_to_point] that selects the data to fit. *)
Definition fit_region (x y : Z) (chunk : chunk_t) (threshold : option Q)
  : M marray :=
  match threshold with
  | Some threshold =>
      data_bgsubbed <- _get_data_bgsubbed ;;
      rmsmap <- _get_rm ;;
      st <- self ;;
      let '(labels_num, c) :=
        thresholded_labels threshold data_bgsubbed rmsmap (cache st) in
      update_cache (fun _ => c) ;;;
      let labels := fst labels_num in
      match getitem2 labels x y with
      | None => raise (IndexError "index out of bounds")
      | Some mylabel =>
          if (mylabel =? 0)%Z then
            raise (ValueError
                     "Fit region is below specified threshold, fit aborted.")
          else
            let fitme :=
              zip2d (fun (p : Q * bool) (l : Z) =>
                       (fst p, snd p || negb (l =? mylabel)%Z))
                    (ma_slice data_bgsubbed chunk)
                    (slice2_opt labels (Some chunk)) in
            if (length (ma_compressed fitme) <? 1)%nat then
              raise (IndexError "Fit region too close to edge or too small")
            else ret fitme
      end
  | None =>
      data_bgsubbed <- _get_data_bgsubbed ;;
      let fitme := ma_slice data_bgsubbed chunk in
      if (length (ravel fitme) <? 1)%nat then
        raise (IndexError "Fit region too close to edge or too small")
      else ret fitme
  end.

Definition update_position (m : measurement_t) (dx dy s : Q)
  : measurement_t :=
  Measurement (peak m) (xbar m + dx) (ybar m + dy) (semimajor m)
              (semiminor m) (theta m) s.

(** [ImageData.fit_to_point]; the result is [None] where the method
    returns [None]. *)
Definition fit_to_point (x y : Z) (boxsize : Q) (threshold : option Q)
  (fixed : option string) : M (option Detection) :=
  rmsmap <- _get_rm ;;
  match getitem2 rmsmap x y with
  | None => raise (IndexError "index out of bounds")
  | Some (noise, true) =>
      log "error" "Background is masked: cannot fit" ;;; ret None
  | Some (noise, false) =>
      let chunk := box_slice_about_pixel x y (boxsize / 2) in
      fitme <- fit_region x y chunk threshold ;;
      if (length (ma_compressed fitme) =? 0)%nat then
        log "error" "All data is masked: cannot fit" ;;; ret None
      else
        st <- self ;;
        fixed <- lift (fixed_parameters st boxsize fixed) ;;
        let threshold_at_pixel :=
          match threshold with
          | Some threshold => Some (threshold * noise)
          | None => None
          end in
        fit <- try_except
                 (mr <- lift (source_profile_and_errors fitme
                                threshold_at_pixel noise (beam st) fixed) ;;
                  ret (Some mr))
                 is_ValueError
                 (fun _ => log "error" "Gaussian fit failed" ;;; ret None) ;;
        match fit with
        | None => ret None
        | Some (measurement, residuals) =>
            (if Qltb (Qabs (xbar measurement)) boxsize
                && Qltb (Qabs (ybar measurement)) boxsize
             then ret tt
             else log "warn" "Fit falls outside of box.") ;;;
            let significance :=
              list_max 0
                (ma_compressed
                   (ma_true_divide fitme (ma_slice rmsmap chunk))) in
            let measurement :=
              update_position measurement
                (inject_Z x - boxsize / 2) (inject_Z y - boxsize / 2)
                significance in
            st <- self ;;
            det <- lift (mk_detection measurement st None) ;;
            ret (Some det)
        end
  end.

(** The body of the loop of [fit_fixed_positions] for one source. *)
Definition fit_source (boxsize : Q) (threshold : option Q)
  (fixed : option string) (detections : list Detection) (source : Q * Q)
  : M (list Detection) :=
  st <- self ;;
  match wcs_s2p (wcs st) source with
  | Raise (RuntimeError msg) =>
      if String.prefix "wcsp2s error: 8:" msg
         || String.prefix "wcsp2s error: 9:" msg
      then log "warning" "Input coordinates invalid: " ;;; ret detections
      else raise (RuntimeError msg)
  | Raise e => raise e
  | Ok (x, y) =>
      try_except
        (fit_results <- fit_to_point x y boxsize threshold fixed ;;
         match fit_results with
         | None => ret detections
         | Some fit_results =>
             if is_pos_inf (ra_error fit_results)
                || is_pos_inf (dec_error fit_results)
             then log "warning" "position errors extend outside image" ;;;
                  ret detections
             else ret (detections ++ [fit_results])
         end)
        is_IndexError
        (fun _ =>
           log "warning" "Input pixel coordinates could not be fit" ;;;
           ret detections)
  end.

(** [ImageData.fit_fixed_positions] *)
Definition fit_fixed_positions (sources : list (Q * Q)) (boxsize : Q)
  (threshold : option Q) (fixed : option string) : M (list Detection) :=
  foldM (fit_source boxsize threshold fixed) sources [].

(* ------------------------------------------------------------------ *)
(** ** Properties *)

(** *** Lists and indexing *)

Lemma nth_error_mapi_from :
  forall (A B : Type) (f : Z -> A -> B) (l : list A) (k : Z) (n : nat),
    nth_error (mapi_from f k l) n =
    option_map (f (k + Z.of_nat n)%Z) (nth_error l n).
Proof.
  induction l as [|x l IH]; intros k n.
  - destruct n; reflexivity.
  - destruct n as [|n]; simpl.
    + now rewrite Z.add_0_r.
    + rewrite IH. do 2 f_equal. lia.
Qed.

Lemma length_mapi_from :
  forall (A B : Type) (f : Z -> A -> B) (l : list A) (k : Z),
    length (mapi_from f k l) = length l.
Proof.
  induction l as [|x l IH]; intros k; simpl; [reflexivity|].
  now rewrite IH.
Qed.

Lemma index_inside :
  forall len i : Z, (0 <= i < len)%Z -> index len i = Some i.
Proof.
  intros len i H. unfold index.
  replace (0 <=? i)%Z with true by (symmetry; apply Z.leb_le; lia).
  replace (i <? len)%Z with true by (symmetry; apply Z.ltb_lt; lia).
  reflexivity.
Qed.

Lemma getitem_inside :
  forall (A : Type) (l : list A) (i : Z),
    (0 <= i < Z.of_nat (length l))%Z ->
    getitem l i = nth_error l (Z.to_nat i).
Proof.
  intros A l i H. unfold getitem. now rewrite index_inside.
Qed.

Lemma nth_error_repeat_inside :
  forall (A : Type) (v : A) (m n : nat),
    (n < m)%nat -> nth_error (repeat v m) n = Some v.
Proof.
  induction m as [|m IH]; intros n H; [lia|].
  destruct n as [|n]; simpl; [reflexivity|]. apply IH. lia.
Qed.

Lemma getitem2_full :
  forall (A : Type) (v : A) (n m : nat) (i j : Z),
    (0 <= i < Z.of_nat n)%Z -> (0 <= j < Z.of_nat m)%Z ->
    getitem2 (full n m v) i j = Some v.
Proof.
  intros A v n m i j Hi Hj. unfold getitem2, full.
  rewrite getitem_inside by (rewrite repeat_length; lia).
  rewrite nth_error_repeat_inside by lia.
  rewrite getitem_inside by (rewrite repeat_length; lia).
  apply nth_error_repeat_inside. lia.
Qed.

Lemma getitem2_slice2_assign_full :
  forall (A : Type) (a v : A) (n m : nat) (r0 r1 c0 c1 i j : Z),
    (0 <= i < Z.of_nat n)%Z -> (0 <= j < Z.of_nat m)%Z ->
    getitem2 (slice2_assign (full n m a) r0 r1 c0 c1 v) i j =
    Some (if in_slice (Z.of_nat n) r0 r1 i && in_slice (Z.of_nat m) c0 c1 j
          then v else a).
Proof.
  intros A a v n m r0 r1 c0 c1 i j Hi Hj.
  unfold getitem2, slice2_assign, mapi, full.
  rewrite getitem_inside
    by (rewrite length_mapi_from, repeat_length; lia).
  rewrite nth_error_mapi_from, nth_error_repeat_inside by lia.
  cbn [option_map]. rewrite !repeat_length, Z.add_0_l, Z2Nat.id by lia.
  destruct (in_slice (Z.of_nat n) r0 r1 i); cbn [andb].
  - rewrite getitem_inside
      by (rewrite length_mapi_from, repeat_length; lia).
    rewrite nth_error_mapi_from, nth_error_repeat_inside by lia.
    cbn [option_map]. now rewrite Z.add_0_l, Z2Nat.id by lia.
  - rewrite getitem_inside by (rewrite repeat_length; lia).
    apply nth_error_repeat_inside. lia.
Qed.

(** A slice with non-negative bounds selects, among the indices of the
    dimension, those between its bounds. *)
Lemma in_slice_nonneg :
  forall len start stop i : Z,
    (0 <= start)%Z -> (0 <= stop)%Z -> (0 <= i < len)%Z ->
    in_slice len start stop i = ((start <=? i)%Z && (i <? stop)%Z).
Proof.
  intros len start stop i Hs He Hi. unfold in_slice, slice_bound.
  replace (start <? 0)%Z with false by (symmetry; apply Z.ltb_ge; lia).
  replace (stop <? 0)%Z with false by (symmetry; apply Z.ltb_ge; lia).
  destruct (Z.leb_spec start i), (Z.leb_spec (Z.min start len) i);
    destruct (Z.ltb_spec i stop), (Z.ltb_spec i (Z.min stop len));
    try reflexivity; lia.
Qed.

(** *** Numbers *)

Lemma int_of_nonneg : forall x : Q, 0 <= x -> int_of x = Qfloor x.
Proof.
  intros [n d] H. unfold int_of, Qfloor. cbn [Qnum Qden].
  apply Z.quot_div_nonneg; [|lia].
  unfold Qle in H. cbn in H. lia.
Qed.

Lemma int_of_nonneg_le : forall x : Q, 0 <= x -> (0 <= int_of x)%Z.
Proof.
  intros x H. rewrite int_of_nonneg by assumption.
  rewrite <- (Qfloor_Z 0). now apply Qfloor_resp_le.
Qed.

Lemma Qgtb_true : forall x y : Q, Qgtb x y = true <-> y < x.
Proof.
  intros x y. unfold Qgtb, Qltb. rewrite negb_true_iff.
  split; intro H.
  - apply Qnot_le_lt. intro Hle. apply Qle_bool_iff in Hle. congruence.
  - destruct (Qle_bool x y) eqn:E; [|reflexivity].
    apply Qle_bool_iff in E. apply Qle_not_lt in E. contradiction.
Qed.

Lemma clamp0_nonneg : forall l : Q, 0 <= clamp0 l.
Proof.
  intros l. unfold clamp0. destruct (Qgtb l 0) eqn:E.
  - apply Qgtb_true in E. now apply Qlt_le_weak.
  - apply Qle_refl.
Qed.

Lemma truthy_pos : forall q : Q, 0 < q -> truthy q = true.
Proof.
  intros q H. unfold truthy. apply negb_true_iff.
  destruct (Qeq_bool q 0) eqn:E; [|reflexivity].
  apply Qeq_bool_eq in E. rewrite E in H. now apply Qlt_irrefl in H.
Qed.

Lemma Qfloor_le_iff :
  forall (y : Q) (i : Z), (Qfloor y <= i)%Z <-> y < inject_Z i + 1.
Proof.
  intros y i. split; intro H.
  - apply Qlt_le_trans with (inject_Z (Qfloor y + 1)); [apply Qlt_floor|].
    rewrite inject_Z_plus. apply Qplus_le_l. now rewrite <- Zle_Qle.
  - destruct (Z.le_gt_cases (Qfloor y) i) as [Hle|Hgt]; [assumption|].
    exfalso. assert (Hi : inject_Z (i + 1) <= inject_Z (Qfloor y))
      by (rewrite <- Zle_Qle; lia).
    rewrite inject_Z_plus in Hi. pose proof (Qfloor_le y) as Hy.
    change (inject_Z 1) with 1 in Hi. lra.
Qed.

Lemma Qfloor_gt_iff :
  forall (y : Q) (i : Z), (i < Qfloor y)%Z <-> inject_Z i + 1 <= y.
Proof.
  intros y i. split; intro H.
  - apply Qle_trans with (inject_Z (Qfloor y)); [|apply Qfloor_le].
    assert (Hi : inject_Z (i + 1) <= inject_Z (Qfloor y))
      by (rewrite <- Zle_Qle; lia).
    rewrite inject_Z_plus in Hi. exact Hi.
  - destruct (Z.lt_ge_cases i (Qfloor y)) as [Hlt|Hge]; [assumption|].
    exfalso. apply Qfloor_le_iff in Hge. lra.
Qed.

Lemma clamp0_floor_le_iff :
  forall (x : Q) (i : Z), (0 <= i)%Z ->
    (Qfloor (clamp0 x) <= i)%Z <-> x < inject_Z i + 1.
Proof.
  intros x i Hi. rewrite Qfloor_le_iff.
  assert (H0 : 0 <= inject_Z i) by (change 0 with (inject_Z 0);
                                    now rewrite <- Zle_Qle).
  unfold clamp0. destruct (Qgtb x 0) eqn:E; [reflexivity|].
  assert (Hx : x <= 0).
  { apply Qnot_lt_le. intro Hc. apply Qgtb_true in Hc. congruence. }
  split; intros _; lra.
Qed.

Lemma clamp0_floor_gt_iff :
  forall (x : Q) (i : Z), (0 <= i)%Z ->
    (i < Qfloor (clamp0 x))%Z <-> inject_Z i + 1 <= x.
Proof.
  intros x i Hi. rewrite Qfloor_gt_iff.
  assert (H0 : 0 <= inject_Z i) by (change 0 with (inject_Z 0);
                                    now rewrite <- Zle_Qle).
  unfold clamp0. destruct (Qgtb x 0) eqn:E; [reflexivity|].
  assert (Hx : x <= 0).
  { apply Qnot_lt_le. intro Hc. apply Qgtb_true in Hc. congruence. }
  split; intros H; lra.
Qed.

Lemma int_of_quotient_floor :
  forall a b : Q, 0 <= a -> 0 < b ->
    int_of_quotient a b = Ok (Qfloor (a / b)).
Proof.
  intros a b Ha Hb. unfold int_of_quotient.
  destruct (Qeq_bool b 0) eqn:E.
  - apply Qeq_bool_eq in E. lra.
  - rewrite int_of_nonneg; [reflexivity|].
    apply Qle_shift_div_l; lra.
Qed.

(** *** The reliable window *)

Section ReliableWindow.

(** What the window computation needs to know of numpy's functions. *)
Hypothesis np_pi_pos : 0 < np_pi.
Hypothesis np_sqrt_nonneg : forall x : Q, 0 <= np_sqrt x.
Hypothesis np_sin_arccos_nonneg :
  forall x : Q, 0 <= x -> x <= 1 -> 0 <= np_sin (np_arccos x).

Lemma np_radians_pos : forall x : Q, ~ x == 0 -> 0 < np_radians (Qabs x).
Proof using np_pi_pos.
  intros x Hx. unfold np_radians.
  assert (Ha : 0 < Qabs x).
  { destruct (Qlt_le_dec 0 (Qabs x)) as [H|H]; [assumption|].
    exfalso. apply Hx. pose proof (Qabs_nonneg x) as Hn.
    assert (E : Qabs x == 0) by lra.
    destruct (Qlt_le_dec x 0) as [Hneg|Hpos].
    - rewrite Qabs_neg in E by lra. lra.
    - rewrite Qabs_pos in E by lra. exact E. }
  assert (Hp : 0 < np_pi / 180).
  { apply Qlt_shift_div_l; lra. }
  nra.
Qed.

Lemma conv_factor_nonneg : forall md : Q, 0 < md -> 0 <= conv_factor md.
Proof using np_sqrt_nonneg np_sin_arccos_nonneg.
  intros md Hmd. unfold conv_factor.
  assert (H1 : 0 <= 1 / (1 + md)).
  { apply Qle_shift_div_l; lra. }
  assert (H2 : 1 / (1 + md) <= 1).
  { apply Qle_shift_div_r; lra. }
  pose proof (np_sin_arccos_nonneg H1 H2) as Hs.
  pose proof (np_sqrt_nonneg 2) as Hq.
  nra.
Qed.


(** The rows (or columns) that [limits] leaves unmasked: the indices [i]
    of the dimension with [int(max(c - d, 0)) <= i < int(max(c - 1 + d, 0))],
    where [c] is crpix and [d] the offset in pixels. *)
Lemma limits_select :
  forall (len : nat) (c : Q) (d i : Z),
    (0 <= i < Z.of_nat len)%Z ->
    in_slice (Z.of_nat len) (int_of (clamp0 (c - inject_Z d)))
      (int_of (clamp0 (c - 1 + inject_Z d))) i = true <->
    c - inject_Z d - 1 < inject_Z i /\ inject_Z i <= c + inject_Z d - 2.
Proof.
  intros len c d i Hi.
  rewrite in_slice_nonneg
    by (try apply int_of_nonneg_le; try apply clamp0_nonneg; lia).
  rewrite !int_of_nonneg by apply clamp0_nonneg.
  rewrite andb_true_iff, Z.leb_le, Z.ltb_lt.
  rewrite clamp0_floor_le_iff, clamp0_floor_gt_iff by lia.
  split; intros [H1 H2]; split; lra.
Qed.

(** C3 (as amended).  With a positive degradation: for a SIN projection
    whose increments are not zero, [reliable_window] returns a mask that
    leaves unmasked exactly the pixels [(i, j)] of the image with
    [crpix_ra - dra - 1 < i <= crpix_ra + dra - 2] and
    [crpix_dec - ddec - 1 < j <= crpix_dec + ddec - 2], where
    [dra = floor(c / |cdelt_ra in radians|)], likewise [ddec], and
    [c = 0.5 * sqrt 2 * sin(arccos(1 / (1 + max_degradation)))]; for
    integral crpix this is the half-open window
    [crpix - d <= i < crpix - 1 + d].  For any other projection it logs one
    warning and returns a mask that leaves every pixel unmasked. *)
Theorem reliable_window_limits :
  forall (st : ImageData) (arg : option Q),
    let md := effective_degradation st arg in
    let dra :=
      Qfloor (conv_factor md / np_radians (Qabs (fst (cdelt (wcs st))))) in
    let ddec :=
      Qfloor (conv_factor md / np_radians (Qabs (snd (cdelt (wcs st))))) in
    0 < md ->
    (ctype (wcs st) = SIN ->
     ~ fst (cdelt (wcs st)) == 0 -> ~ snd (cdelt (wcs st)) == 0 ->
     exists mask,
       reliable_window arg st = (Ok mask, st) /\
       forall i j : Z,
         (0 <= i < Z.of_nat (xdim st))%Z ->
         (0 <= j < Z.of_nat (ydim st))%Z ->
         exists b, getitem2 mask i j = Some b /\
           (b = false <->
            (fst (crpix (wcs st)) - inject_Z dra - 1 < inject_Z i /\
             inject_Z i <= fst (crpix (wcs st)) + inject_Z dra - 2) /\
            (snd (crpix (wcs st)) - inject_Z ddec - 1 < inject_Z j /\
             inject_Z j <= snd (crpix (wcs st)) + inject_Z ddec - 2))) /\
    (ctype (wcs st) <> SIN ->
     exists mask,
       reliable_window arg st =
         (Ok mask,
          with_logged
            (("warn"%string,
              "Not SIN projection: reliable window not calculated."%string)
               :: logged st) st) /\
       forall i j : Z,
         (0 <= i < Z.of_nat (xdim st))%Z ->
         (0 <= j < Z.of_nat (ydim st))%Z ->
         getitem2 mask i j = Some false).
Proof using np_pi_pos np_sqrt_nonneg np_sin_arccos_nonneg.
  intros st arg md dra ddec Hmd. split.
  - intros Hsin Hra Hdec.
    unfold reliable_window, bind, self. fold md.
    rewrite (truthy_pos Hmd), Hsin.
    change (ctype_eqb SIN SIN) with true. cbn [andb].
    destruct (Qeq_bool (1 + md) 0) eqn:E.
    { apply Qeq_bool_eq in E. lra. }
    unfold lift.
    rewrite !int_of_quotient_floor
      by (try apply conv_factor_nonneg; try apply np_radians_pos;
          assumption).
    fold dra ddec. unfold ret. eexists. split; [reflexivity|].
    intros i j Hi Hj. eexists. split.
    + apply getitem2_slice2_assign_full; assumption.
    + rewrite <- (@limits_select (xdim st) (fst (crpix (wcs st))) dra i Hi).
      rewrite <- (@limits_select (ydim st) (snd (crpix (wcs st))) ddec j Hj).
      rewrite <- andb_true_iff.
      destruct (_ && _); split; congruence.
  - intros Hns.
    unfold reliable_window, bind, self. fold md.
    rewrite (truthy_pos Hmd). cbn [andb].
    assert (E : ctype_eqb (ctype (wcs st)) SIN = false).
    { destruct (ctype_eqb (ctype (wcs st)) SIN) eqn:E; [|reflexivity].
      exfalso. apply Hns. unfold ctype_eqb in E.
      apply andb_true_iff in E. destruct E as [E1 E2].
      apply String.eqb_eq in E1, E2.
      destruct (ctype (wcs st)) as [a b]. cbn in E1, E2. now subst. }
    rewrite E. unfold log, ret. eexists. split; [reflexivity|].
    intros i j Hi Hj. apply getitem2_full; assumption.
Qed.

End ReliableWindow.

(** *** Island labelling *)

Lemma getitem_map :
  forall (A B : Type) (f : A -> B) (l : list A) (i : Z),
    getitem (map f l) i = option_map f (getitem l i).
Proof.
  intros A B f l i. unfold getitem. rewrite length_map.
  destruct (index (Z.of_nat (length l)) i); [|reflexivity].
  apply nth_error_map.
Qed.

Lemma getitem2_map2d :
  forall (A B : Type) (f : A -> B) (a : list (list A)) (i j : Z),
    getitem2 (map2d f a) i j = option_map f (getitem2 a i j).
Proof.
  intros A B f a i j. unfold getitem2, map2d.
  rewrite getitem_map. destruct (getitem a i); [|reflexivity].
  apply getitem_map.
Qed.

Lemma in_arange1 :
  forall n L : Z, In L (arange1 n) <-> (1 <= L <= n)%Z.
Proof.
  intros n L. unfold arange1. rewrite in_map_iff. split.
  - intros [k [<- Hk]]. apply in_seq in Hk. lia.
  - intros H. exists (Z.to_nat (L - 1)). split; [lia|].
    apply in_seq. lia.
Qed.

Lemma enumerate1_arange1 :
  forall (g : Z -> Q) (n : Z),
    enumerate1 (map g (arange1 n)) = map (fun L => (L, g L)) (arange1 n).
Proof.
  intros g n. unfold enumerate1, mapi, arange1.
  change 0%Z with (Z.of_nat 0). generalize 0%nat as s.
  induction (Z.to_nat n) as [|m IH]; intros s; [reflexivity|].
  cbn [seq map mapi_from]. f_equal.
  replace (Z.of_nat s + 1)%Z with (Z.of_nat (S s)) by lia. apply IH.
Qed.

Lemma split_labels_filter :
  forall l : list (Z * Q),
    forall below above : list Z,
      fold_left
        (fun (acc : list Z * list Z) (ix : Z * Q) =>
           let '(labels_below_det_thr, labels_above_det_thr) := acc in
           if Qltb (snd ix) 0 then
             (labels_below_det_thr ++ [fst ix], labels_above_det_thr)
           else
             (labels_below_det_thr, labels_above_det_thr ++ [fst ix]))
        l (below, above) =
      (below ++ map fst (filter (fun ix => Qltb (snd ix) 0) l),
       above ++ map fst (filter (fun ix => negb (Qltb (snd ix) 0)) l)).
Proof.
  induction l as [|ix l IH]; intros below above; cbn [fold_left].
  - cbn. now rewrite !app_nil_r.
  - cbn [filter]. destruct (Qltb (snd ix) 0); rewrite IH; cbn [negb map];
      now rewrite <- app_assoc.
Qed.

Lemma Qltb_true : forall x y : Q, Qltb x y = true <-> x < y.
Proof. intros x y. exact (Qgtb_true y x). Qed.

Lemma Qltb_false : forall x y : Q, Qltb x y = false <-> y <= x.
Proof.
  intros x y. unfold Qltb. rewrite negb_false_iff. apply Qle_bool_iff.
Qed.

(** The labels that [label_islands] keeps are the labels whose maximum is
    not negative. *)
Lemma in_split_labels_above :
  forall (g : Z -> Q) (n L : Z),
    In L (snd (split_labels (map g (arange1 n)))) <->
    (1 <= L <= n)%Z /\ 0 <= g L.
Proof.
  intros g n L. unfold split_labels.
  rewrite split_labels_filter, enumerate1_arange1. cbn [snd app].
  rewrite in_map_iff. split.
  - intros [[L' x] [E H]]. cbn in E. subst L'.
    apply filter_In in H. destruct H as [H Hx].
    apply in_map_iff in H. destruct H as [L' [E H]].
    injection E as -> <-. apply in_arange1 in H.
    cbn in Hx. apply negb_true_iff, Qltb_false in Hx. now split.
  - intros [H Hx]. exists (L, g L). split; [reflexivity|].
    apply filter_In. split.
    + apply in_map_iff. exists L. split; [reflexivity|].
      now apply in_arange1.
    + cbn. now apply negb_true_iff, Qltb_false.
Qed.

Lemma existsb_Zeqb :
  forall (l : list Z) (x : Z), existsb (Z.eqb x) l = true <-> In x l.
Proof.
  intros l x. rewrite existsb_exists. split.
  - intros [y [H E]]. apply Z.eqb_eq in E. now subst.
  - intros H. exists x. split; [assumption|apply Z.eqb_refl].
Qed.

(** [list_max] of a non-empty list is one of its elements and bounds them
    all. *)
Lemma fold_left_Qmax :
  forall (l : list Q) (x : Q),
    (fold_left Qmax l x = x \/ In (fold_left Qmax l x) l) /\
    x <= fold_left Qmax l x /\
    forall y : Q, In y l -> y <= fold_left Qmax l x.
Proof.
  induction l as [|z l IH]; intros x; cbn [fold_left].
  - split; [now left|]. split; [apply Qle_refl|]. intros y [].
  - destruct (IH (Qmax x z)) as [Hin [Hle Hall]].
    assert (Hx : x <= Qmax x z /\ z <= Qmax x z /\
                 (Qmax x z = x \/ Qmax x z = z)).
    { unfold Qmax. destruct (Qle_bool x z) eqn:E.
      - apply Qle_bool_iff in E. repeat split;
          [assumption | apply Qle_refl | now right].
      - assert (z <= x).
        { apply Qlt_le_weak, Qnot_le_lt. intro H.
          apply Qle_bool_iff in H. congruence. }
        repeat split; [apply Qle_refl | assumption | now left]. }
    destruct Hx as [Hx [Hz Hor]]. split; [|split].
    + destruct Hin as [Hin|Hin].
      * rewrite Hin. destruct Hor as [->| ->]; [now left|right; now left].
      * right. now right.
    + now apply Qle_trans with (Qmax x z).
    + intros y [<-|Hy]; [now apply Qle_trans with (Qmax x z)|].
      now apply Hall.
Qed.

Lemma list_max_is_maximum :
  forall (d : Q) (l : list Q),
    l <> [] ->
    In (list_max d l) l /\ forall y : Q, In y l -> y <= list_max d l.
Proof.
  intros d [|x l] Hne; [congruence|]. cbn [list_max].
  destruct (fold_left_Qmax l x) as [Hin [Hle Hall]]. split.
  - destruct Hin as [->|Hin]; [now left|now right].
  - intros y [<-|Hy]; [assumption|now apply Hall].
Qed.

(** C1 (as amended).  In [label_islands], for every label [L] that
    [ndimage.label] gives to a component of the clipped image, with [peak]
    the maximum over the pixels of [L] of
    [(data_bgsubbed - detectionthresholdmap).filled(-1)]: if [peak < 0]
    then [L] is absent from the returned list and its pixels are zero in
    the returned map; if [peak >= 0] (in particular when it is exactly 0)
    then [L] is in the returned list and its pixels keep the label. *)
Theorem label_islands_keeps_nonnegative_peaks :
  forall (se : list (list Z))
         (data_bgsubbed rmsmap detectionthresholdmap analysisthresholdmap
            : marray)
         (labelled : list (list Z)) (num_labels : Z),
    ndimage_label (clipped_data data_bgsubbed analysisthresholdmap rmsmap) se
      = (labelled, num_labels) ->
    (0 < num_labels)%Z ->
    exists (labels : list Z) (relabelled : list (list Z)),
      label_islands_of se data_bgsubbed rmsmap detectionthresholdmap
        analysisthresholdmap = Ok (labels, relabelled) /\
      forall L : Z,
        (1 <= L <= num_labels)%Z ->
        let peak :=
          list_max 0
            (values_of_label
               (above_det_thr data_bgsubbed detectionthresholdmap)
               labelled L) in
        (peak < 0 ->
         ~ In L labels /\
         forall i j : Z,
           getitem2 labelled i j = Some L ->
           getitem2 relabelled i j = Some 0%Z) /\
        (0 <= peak ->
         In L labels /\
         forall i j : Z,
           getitem2 labelled i j = Some L ->
           getitem2 relabelled i j = Some L).
Proof.
  intros se d rms det anl labelled n Hlab Hn.
  unfold label_islands_of. rewrite Hlab.
  replace (0 <? n)%Z with true by (symmetry; now apply Z.ltb_lt).
  unfold ndimage_maximum.
  set (g := fun label : Z =>
              list_max 0 (values_of_label (above_det_thr d det)
                                          labelled label)).
  pose proof (in_split_labels_above g n) as Hin.
  destruct (split_labels (map g (arange1 n))) as [below above].
  cbn [snd] in Hin.
  exists above, (keep_labels labelled above). split; [reflexivity|].
  intros L HL. cbv zeta.
  change (list_max 0 (values_of_label (above_det_thr d det) labelled L))
    with (g L).
  split.
  - intros Hneg.
    assert (Hout : ~ In L above).
    { intros H. apply Hin in H. destruct H as [_ H]. lra. }
    split; [exact Hout|].
    intros i j Hij. unfold keep_labels.
    rewrite getitem2_map2d, Hij. cbn [option_map].
    destruct (existsb (Z.eqb L) above) eqn:E; [|reflexivity].
    apply existsb_Zeqb in E. contradiction.
  - intros Hpos.
    assert (Hk : In L above) by (apply Hin; now split).
    split; [exact Hk|].
    intros i j Hij. unfold keep_labels.
    rewrite getitem2_map2d, Hij. cbn [option_map].
    apply existsb_Zeqb in Hk. now rewrite Hk.
Qed.

(** *** The tile estimator *)

Lemma nth_error_xrange :
  forall stop step k : nat,
    (0 < step)%nat -> (k * step < stop)%nat ->
    nth_error (xrange stop step) k = Some (k * step)%nat.
Proof.
  intros stop step k Hstep H. unfold xrange.
  assert (Hk : (k < (stop + step - 1) / step)%nat).
  { apply Nat.div_le_lower_bound; [lia|]. nia. }
  rewrite nth_error_map, nth_error_nth' with (d := 0%nat)
    by (rewrite length_seq; exact Hk).
  now rewrite seq_nth.
Qed.

Lemma getitem_nat :
  forall (A : Type) (l : list A) (k : nat) (x : A),
    nth_error l k = Some x -> getitem l (Z.of_nat k) = Some x.
Proof.
  intros A l k x H.
  assert (Hk : (k < length l)%nat) by (apply nth_error_Some; congruence).
  rewrite getitem_inside by lia. now rewrite Nat2Z.id.
Qed.

Lemma getitem2_tiles :
  forall (A : Type) (f : nat -> nat -> A) (xs ys : list nat)
         (ti tj x y : nat),
    nth_error xs ti = Some x -> nth_error ys tj = Some y ->
    getitem2 (map (fun sx => map (fun sy => f sx sy) ys) xs)
      (Z.of_nat ti) (Z.of_nat tj) = Some (f x y).
Proof.
  intros A f xs ys ti tj x y Hx Hy. unfold getitem2.
  rewrite (@getitem_nat _ _ ti (map (fun sy => f x sy) ys))
    by (rewrite nth_error_map, Hx; reflexivity).
  apply getitem_nat. now rewrite nth_error_map, Hy.
Qed.

Lemma In_firstn : forall (A : Type) (n : nat) (l : list A) (x : A),
    In x (firstn n l) -> In x l.
Proof.
  induction n as [|n IH]; intros [|y l] x H; cbn in H; try contradiction.
  destruct H as [->|H]; [now left|right; now apply IH].
Qed.

Lemma In_skipn : forall (A : Type) (n : nat) (l : list A) (x : A),
    In x (skipn n l) -> In x l.
Proof.
  induction n as [|n IH]; intros [|y l] x H; cbn in H; try assumption.
  right. now apply IH.
Qed.

Lemma In_slice : forall (A : Type) (l : list A) (start stop : Z) (x : A),
    In x (slice l start stop) -> In x l.
Proof.
  intros A l start stop x H. unfold slice in H.
  now apply In_firstn, In_skipn in H.
Qed.

(** The pixels of a chunk of an array are pixels of the array. *)
Lemma In_ravel_slice2 :
  forall (A : Type) (a : list (list A)) (r0 r1 c0 c1 : Z) (x : A),
    In x (ravel (slice2 a r0 r1 c0 c1)) -> In x (ravel a).
Proof.
  intros A a r0 r1 c0 c1 x H. unfold ravel, slice2 in *.
  apply in_concat in H. destruct H as [row [Hrow Hx]].
  apply in_map_iff in Hrow. destruct Hrow as [row' [<- Hrow']].
  apply in_concat. exists row'. split.
  - now apply In_slice in Hrow'.
  - now apply In_slice in Hx.
Qed.

Lemma in_compressed :
  forall (l : list (Q * bool)) (x : Q),
    In x (compressed l) <-> In (x, false) l.
Proof.
  intros l x. unfold compressed. rewrite in_flat_map. split.
  - intros [[y m] [Hin Hx]]. cbn in Hx. destruct m; [contradiction|].
    destruct Hx as [->|[]]. exact Hin.
  - intros H. exists (x, false). split; [assumption|now left].
Qed.

Lemma truthy_true : forall q : Q, truthy q = true <-> ~ q == 0.
Proof.
  intros q. unfold truthy. rewrite negb_true_iff. split.
  - intros E H. apply Qeq_eq_bool in H. congruence.
  - intros H. destruct (Qeq_bool q 0) eqn:E; [|reflexivity].
    apply Qeq_bool_eq in E. contradiction.
Qed.

(** The skewness test on a non-zero sigma. *)
Lemma skewed_ratio :
  forall mean median sigma : Q,
    ~ sigma == 0 ->
    skewed mean median sigma = true <->
    (3 # 10) <= Qabs (mean - median) / sigma.
Proof.
  intros mean median sigma Hs. unfold skewed.
  destruct (Qeq_bool sigma 0) eqn:E.
  - apply Qeq_bool_eq in E. contradiction.
  - apply Qle_bool_iff.
Qed.


Lemma zero_masked_row :
  forall (row : list Q) (a n : list bool) (x : Q),
    In (x, false)
       (map2 pair row
             (map2 orb (map2 orb a (map (fun v => Qeq_bool v 0) row)) n)) ->
    ~ x == 0.
Proof.
  induction row as [|r row IH]; intros [|a0 a] [|n0 n] x H; cbn in H;
    try contradiction.
  destruct H as [H|H].
  - injection H as -> H. apply orb_false_iff in H. destruct H as [H _].
    apply orb_false_iff in H. destruct H as [_ H].
    now apply Qeq_bool_neq.
  - now apply IH in H.
Qed.

(** The mask that [_get_data] builds masks every pixel that is zero. *)
Lemma zero_masked_data :
  forall (raw : list (list Q)) (a n : list (list bool)),
    zero_masked
      (ma_array raw
         (logical_or
            (logical_or a (map2d (fun v => Qeq_bool v 0) raw)) n)).
Proof.
  unfold zero_masked, ma_array, logical_or, zip2d, map2d, ravel.
  induction raw as [|row raw IH]; intros [|a0 a] [|n0 n] x H; cbn in H;
    try contradiction.
  apply in_app_or in H. destruct H as [H|H].
  - now apply zero_masked_row in H.
  - now apply IH in H.
Qed.

Lemma _get_data_body_zero_masked :
  forall (st st' : ImageData) (data : marray),
    _get_data_body st = (Ok data, st') -> zero_masked data.
Proof.
  intros st st' data H. unfold _get_data_body, bind in H.
  destruct (reliable_window None st) as [[mask|e] st1]; [|discriminate].
  cbn in H. injection H as <- _. apply zero_masked_data.
Qed.

Section TileEstimator.

(** Modelled from the spec: stats.sigma_clip is not part of this module;
    its loop "keeps only samples within k sigma of the median", so the
    clipped sample is drawn from the unmasked values of the chunk. *)
Hypothesis sigma_clip_sample :
  forall (chunk : list (Q * bool)) (beam : Q * Q * Q) (x : Q),
    In x (fst (fst (fst (sigma_clip chunk beam)))) ->
    In x (compressed chunk).

Lemma any_nonzero_of_member :
  forall (l : list Q) (x : Q),
    In x l -> ~ x == 0 -> any_nonzero l = true.
Proof.
  intros l x Hin Hx. unfold any_nonzero. apply existsb_exists.
  exists x. split; [assumption|]. now apply truthy_true.
Qed.

(** What the tile loop appends for a chunk of zero-masked data whose
    clipped sample is not empty. *)
Lemma grid_cell_of_sample :
  forall (beam : Q * Q * Q) (chunk : list (Q * bool))
         (clipped : list Q) (sigma median its : Q),
    (forall x : Q, In (x, false) chunk -> ~ x == 0) ->
    sigma_clip chunk beam = (clipped, sigma, median, its) ->
    clipped <> [] ->
    grid_cell beam chunk =
    (CNum sigma,
     if skewed (np_mean clipped) median sigma then CNum median
     else CNum ((5 # 2) * median - (3 # 2) * np_mean clipped)).
Proof using sigma_clip_sample.
  intros beam chunk clipped sigma median its Hz Hclip Hne.
  destruct clipped as [|x clipped]; [congruence|].
  assert (Hx : In x (compressed chunk)).
  { apply sigma_clip_sample with (beam := beam). rewrite Hclip. now left. }
  assert (Hnz : forall y : Q, In y (x :: clipped) -> ~ y == 0).
  { intros y Hy. apply Hz, in_compressed.
    apply sigma_clip_sample with (beam := beam). now rewrite Hclip. }
  unfold grid_cell, ma_any.
  rewrite (@any_nonzero_of_member (compressed chunk) x Hx)
    by (apply Hz; now apply in_compressed).
  cbn [negb]. rewrite Hclip.
  rewrite (@any_nonzero_of_member (x :: clipped) x)
    by (try apply Hnz; now left).
  reflexivity.
Qed.

(** C2.  For zero-masked data with at least one unmasked pixel and positive
    tile sizes, [__grids] returns the two grids, and for every tile
    [(ti, tj)] whose sigma-clipped sample is not empty, with [sigma] and
    [median] as returned by [sigma_clip] and [mean] the mean of the sample:
    the RMS grid entry is [sigma]; and, the ratio being defined
    ([sigma] not zero), the background grid entry is [median] if
    [|mean - median| / sigma >= 0.3] and [2.5 * median - 1.5 * mean]
    otherwise. *)
Theorem grids_skewness_rule :
  forall (data : marray) (back_sizex back_sizey : nat) (beam : Q * Q * Q)
         (useful_chunk : chunk_t),
    zero_masked data ->
    find_objects_unmasked (ma_mask data) = [useful_chunk] ->
    (0 < back_sizex)%nat -> (0 < back_sizey)%nat ->
    exists g : grids_t,
      grids_of data back_sizex back_sizey beam = Ok g /\
      forall (ti tj : nat) (clipped : list Q) (sigma median its : Q),
        let useful_data := ma_slice data useful_chunk in
        (ti * back_sizex < fst (ma_shape useful_data))%nat ->
        (tj * back_sizey < snd (ma_shape useful_data))%nat ->
        sigma_clip
          (tile useful_data back_sizex back_sizey
                (ti * back_sizex) (tj * back_sizey)) beam
        = (clipped, sigma, median, its) ->
        clipped <> [] ->
        let mean := np_mean clipped in
        option_map fst (getitem2 (grid_rms g) (Z.of_nat ti) (Z.of_nat tj))
        = Some sigma /\
        (~ sigma == 0 ->
         ((3 # 10) <= Qabs (mean - median) / sigma ->
          option_map fst (getitem2 (grid_bg g) (Z.of_nat ti) (Z.of_nat tj))
          = Some median) /\
         (Qabs (mean - median) / sigma < (3 # 10) ->
          option_map fst (getitem2 (grid_bg g) (Z.of_nat ti) (Z.of_nat tj))
          = Some ((5 # 2) * median - (3 # 2) * mean))).
Proof using sigma_clip_sample.
  intros data bsx bsy beam uc Hzero Hfind Hbx Hby.
  unfold grids_of. rewrite Hfind.
  destruct (ma_shape (ma_slice data uc)) as [mx my] eqn:Hshape.
  replace (bsx =? 0)%nat with false by (symmetry; apply Nat.eqb_neq; lia).
  replace (bsy =? 0)%nat with false by (symmetry; apply Nat.eqb_neq; lia).
  cbn [orb]. eexists. split; [reflexivity|].
  intros ti tj clipped sigma median its Hti Htj Hclip Hne.
  set (mean := np_mean clipped).
  cbn [fst snd] in Hti, Htj. cbn [grid_rms grid_bg].
  unfold masked_grid. rewrite !getitem2_map2d.
  rewrite (@getitem2_tiles _
             (fun sx sy => grid_cell beam (tile (ma_slice data uc)
                                                bsx bsy sx sy))
             (xrange mx bsx) (xrange my bsy) ti tj
             (ti * bsx)%nat (tj * bsy)%nat)
    by (apply nth_error_xrange; assumption).
  cbn [option_map fst].
  rewrite (@grid_cell_of_sample beam _ clipped sigma median its);
    try assumption.
  - cbn [fst snd cell_value]. split; [reflexivity|].
    intros Hs. fold mean. split; intros Hr.
    + apply (skewed_ratio mean median Hs) in Hr. now rewrite Hr.
    + destruct (skewed mean median sigma) eqn:E; [|reflexivity].
      apply (skewed_ratio mean median Hs) in E. lra.
  - intros x Hx. apply Hzero. unfold tile in Hx.
    apply In_ravel_slice2 in Hx. unfold ma_slice in Hx.
    now apply In_ravel_slice2 in Hx.
Qed.

End TileEstimator.

(** *** The FDR threshold *)

Lemma Qfloor_unique :
  forall (q : Q) (z : Z),
    inject_Z z <= q -> q < inject_Z z + 1 -> Qfloor q = z.
Proof.
  intros q z Hle Hlt.
  assert (H1 : (Qfloor q <= z)%Z) by now apply Qfloor_le_iff.
  assert (H2 : (z - 1 < Qfloor q)%Z).
  { apply Qfloor_gt_iff. replace (z - 1)%Z with (z + (-1))%Z by lia.
    rewrite inject_Z_plus. change (inject_Z (-1)) with (-1 # 1). lra. }
  lia.
Qed.

Lemma Qfloor_plus_1 : forall q : Q, Qfloor (q + 1) = (Qfloor q + 1)%Z.
Proof.
  intros q. apply Qfloor_unique.
  - rewrite inject_Z_plus. change (inject_Z 1) with 1.
    pose proof (Qfloor_le q). lra.
  - pose proof (Qlt_floor q) as H. rewrite !inject_Z_plus in *.
    change (inject_Z 1) with 1 in *. lra.
Qed.

(** For a non-negative argument, rounding commutes with adding one. *)
Lemma round_plus_1 :
  forall x : Q, 0 <= x -> round (x + 1) = (round x + 1)%Z.
Proof.
  intros x Hx. unfold round.
  assert (H0 : Qle_bool 0 x = true) by now apply Qle_bool_iff.
  assert (H1 : Qle_bool 0 (x + 1) = true) by (apply Qle_bool_iff; lra).
  rewrite H0, H1. rewrite <- Qfloor_plus_1.
  apply Qfloor_comp. ring.
Qed.

Lemma np_sum_app :
  forall (l : list Q) (x a : Q),
    fold_left Qplus (l ++ [x]) a == fold_left Qplus l a + x.
Proof.
  intros l x a. rewrite fold_left_app. cbn. apply Qeq_refl.
Qed.

Lemma sum_reciprocals :
  forall K : nat,
    np_sum (map (fun k => 1 / inject_Z k) (map Z.of_nat (seq 1 K)))
    == harmonic K.
Proof.
  unfold np_sum. induction K as [|K IH].
  - apply Qeq_refl.
  - rewrite seq_S, !map_app. cbn [map]. rewrite np_sum_app, IH.
    cbn [harmonic plus]. apply Qeq_refl.
Qed.

Lemma tl_np_arange :
  forall n : Z, tl (np_arange n) = map Z.of_nat (seq 1 (Z.to_nat n - 1)).
Proof.
  intros n. unfold np_arange. destruct (Z.to_nat n) as [|m]; [reflexivity|].
  cbn [seq map tl]. replace (S m - 1)%nat with m by lia.
  now rewrite <- seq_shift, map_map.
Qed.

(** C4 (as amended).  The constant [C_n] of [fd_extract] is the sum of
    [1/k] for [k] from 1 to [round(0.25 * pi * corlengthlong *
    corlengthshort + 1) - 1], which for non-negative correlation area is
    [round(0.25 * pi * corlengthlong * corlengthshort)] terms (one term
    fewer than [round(...) + 1]). *)
Theorem C_n_number_of_terms :
  forall corlengthlong corlengthshort : Q,
    let x := (1 # 4) * np_pi * corlengthlong * corlengthshort in
    C_n_of corlengthlong corlengthshort
    == harmonic (Z.to_nat (round (x + 1) - 1)) /\
    (0 <= x -> Z.to_nat (round (x + 1) - 1) = Z.to_nat (round x)).
Proof.
  intros cl cs x. split.
  - unfold C_n_of. fold x. rewrite tl_np_arange.
    rewrite sum_reciprocals.
    replace (Z.to_nat (round (x + 1)) - 1)%nat
      with (Z.to_nat (round (x + 1) - 1)) by lia.
    apply Qeq_refl.
  - intros Hx. rewrite round_plus_1 by assumption. f_equal. lia.
Qed.

Lemma combine_snoc :
  forall (A B : Type) (l : list A) (m : list B) (x : A) (y : B),
    length l = length m ->
    combine (l ++ [x]) (m ++ [y]) = combine l m ++ [(x, y)].
Proof.
  induction l as [|a l IH]; intros [|b m] x y H; cbn in H; try discriminate.
  - reflexivity.
  - cbn. f_equal. apply IH. now injection H.
Qed.

Lemma last_true_snoc :
  forall (l : list bool) (b : bool),
    last_true (l ++ [b]) = if b then Some (length l) else last_true l.
Proof.
  intros l b. unfold last_true.
  rewrite length_app. cbn [length]. rewrite Nat.add_1_r, seq_S.
  rewrite combine_snoc by now rewrite length_seq.
  rewrite fold_left_app. cbn. reflexivity.
Qed.

(** [last_true] finds the last index at which the condition holds. *)
Lemma last_true_spec :
  forall l : list bool,
    match last_true l with
    | None => forall i : nat, nth i l false = false
    | Some k =>
        (k < length l)%nat /\ nth k l false = true /\
        forall j : nat, (k < j)%nat -> nth j l false = false
    end.
Proof.
  induction l as [|b l IH] using rev_ind.
  - cbn. intros [|i]; reflexivity.
  - rewrite last_true_snoc. destruct b.
    + rewrite length_app. cbn [length]. split; [lia|]. split.
      * now rewrite nth_middle.
      * intros j Hj. apply nth_overflow. rewrite length_app. cbn. lia.
    + destruct (last_true l) as [k|].
      * destruct IH as [Hk [Hnth Hafter]]. rewrite length_app.
        split; [lia|]. split.
        -- now rewrite app_nth1.
        -- intros j Hj. destruct (Nat.lt_ge_cases j (length l)).
           ++ rewrite app_nth1 by assumption. now apply Hafter.
           ++ destruct (Nat.eq_dec j (length l)) as [->|Hne].
              ** now rewrite nth_middle.
              ** apply nth_overflow. rewrite length_app. cbn. lia.
      * intros i. destruct (Nat.lt_ge_cases i (length l)).
        -- rewrite app_nth1 by assumption. apply IH.
        -- destruct (Nat.eq_dec i (length l)) as [->|Hne].
           ++ now rewrite nth_middle.
           ++ apply nth_overflow. rewrite length_app. cbn. lia.
Qed.

Lemma nth_map2 :
  forall (A B C : Type) (f : A -> B -> C) (l : list A) (m : list B)
         (i : nat) (da : A) (db : B) (dc : C),
    (i < length l)%nat -> (i < length m)%nat ->
    nth i (map2 f l m) dc = f (nth i l da) (nth i m db).
Proof.
  induction l as [|a l IH]; intros [|b m] i da db dc Hl Hm;
    cbn in Hl, Hm; try lia.
  destruct i as [|i]; cbn; [reflexivity|]. apply IH; lia.
Qed.

Lemma length_fdr_compare :
  forall (alpha C_n : Q) (M : nat), length (fdr_compare alpha C_n M) = M.
Proof.
  intros alpha C_n M. unfold fdr_compare.
  rewrite tl_np_arange, !length_map, length_seq. lia.
Qed.


(** [numpy.sort]: an ascending arrangement of the same values. *)
Lemma insert_sorted_perm :
  forall (x : Q) (l : list Q), Permutation (insert_sorted x l) (x :: l).
Proof.
  intros x. induction l as [|y l IH]; cbn [insert_sorted]; [reflexivity|].
  destruct (Qle_bool x y); [reflexivity|].
  rewrite IH. apply perm_swap.
Qed.

Lemma np_sort_perm : forall l : list Q, Permutation (np_sort l) l.
Proof.
  induction l as [|x l IH]; [reflexivity|].
  unfold np_sort in *. cbn [fold_right].
  rewrite insert_sorted_perm. now constructor.
Qed.

Lemma insert_sorted_sorted :
  forall (x : Q) (l : list Q),
    StronglySorted Qle l -> StronglySorted Qle (insert_sorted x l).
Proof.
  intros x. induction l as [|y l IH]; intros Hs; cbn [insert_sorted].
  - constructor; constructor.
  - apply StronglySorted_inv in Hs. destruct Hs as [Hl Hy].
    destruct (Qle_bool x y) eqn:E.
    + apply Qle_bool_iff in E. constructor.
      * now constructor.
      * constructor; [exact E|].
        apply Forall_forall. intros z Hz. rewrite Forall_forall in Hy.
        apply Qle_trans with y; [exact E|now apply Hy].
    + assert (Hyx : y <= x).
      { apply Qlt_le_weak, Qnot_le_lt. intro H.
        apply Qle_bool_iff in H. congruence. }
      constructor; [now apply IH|].
      apply Forall_forall. intros z Hz.
      apply (Permutation_in _ (insert_sorted_perm x l)) in Hz.
      destruct Hz as [<-|Hz]; [exact Hyx|].
      rewrite Forall_forall in Hy. now apply Hy.
Qed.

Lemma np_sort_sorted : forall l : list Q, StronglySorted Qle (np_sort l).
Proof.
  induction l as [|x l IH]; [constructor|].
  unfold np_sort in *. cbn [fold_right]. now apply insert_sorted_sorted.
Qed.

Lemma length_np_sort : forall l : list Q, length (np_sort l) = length l.
Proof. intros l. apply Permutation_length, np_sort_perm. Qed.

Lemma length_compressed_masked :
  forall l : list (Q * bool),
    (length (compressed l)
     + length (filter (fun p : Q * bool => snd p) l))%nat = length l.
Proof.
  induction l as [|[x m] l IH]; [reflexivity|].
  unfold compressed in *. cbn [flat_map filter snd fst].
  destruct m; cbn [app length]; lia.
Qed.

(** [numpy.sort] of a masked array keeps every entry, the unmasked ones
    first. *)
Lemma ma_sort_spec :
  forall l : list (Q * bool),
    length (ma_sort l) = length l /\
    firstn (length (compressed l)) (ma_sort l) =
    map (fun v => (v, false)) (np_sort (compressed l)) /\
    (forall i : nat,
        (i < length (compressed l))%nat ->
        nth i (ma_sort l) (0, true) = (nth i (np_sort (compressed l)) 0, false))
    /\
    (forall i : nat,
        (length (compressed l) <= i)%nat ->
        snd (nth i (ma_sort l) (0, true)) = true).
Proof.
  intros l. unfold ma_sort.
  assert (Hlen : length (map (fun v : Q => (v, false))
                             (np_sort (compressed l)))
                 = length (compressed l))
    by now rewrite length_map, length_np_sort.
  split; [|split; [|split]].
  - rewrite length_app, Hlen. apply length_compressed_masked.
  - rewrite <- Hlen at 1. rewrite firstn_app, firstn_all, Nat.sub_diag.
    cbn [firstn]. apply app_nil_r.
  - intros i Hi. rewrite app_nth1 by (rewrite Hlen; exact Hi).
    rewrite nth_indep with (d' := (fun v : Q => (v, false)) 0)
      by (rewrite Hlen; exact Hi).
    apply (map_nth (fun v : Q => (v, false))).
  - intros i Hi. rewrite app_nth2 by (rewrite Hlen; exact Hi).
    destruct (Nat.lt_ge_cases (i - length (map (fun v : Q => (v, false))
                                              (np_sort (compressed l))))
                (length (filter (fun p : Q * bool => snd p) l)))
      as [Hin|Hout].
    + apply (@nth_In _ _ _ (0, true)) in Hin.
      now apply filter_In in Hin.
    + now rewrite nth_overflow.
Qed.

Lemma compressed_map_values :
  forall (f : Q -> Q) (l : list (Q * bool)),
    compressed (map (fun p : Q * bool => (f (fst p), snd p)) l) =
    map f (compressed l).
Proof.
  intros f. induction l as [|[x m] l IH]; [reflexivity|].
  unfold compressed in *. cbn [map flat_map fst snd].
  destruct m; cbn [app map]; now rewrite IH.
Qed.

Lemma ravel_map2d :
  forall (A B : Type) (f : A -> B) (a : list (list A)),
    ravel (map2d f a) = map f (ravel a).
Proof. intros A B f a. unfold ravel, map2d. now rewrite concat_map. Qed.

(** [prob] of [fd_extract]: one entry per pixel; its unmasked part is the
    ascending arrangement of the densities of the unmasked pixels, and the
    masked entries follow. *)
Lemma fdr_prob_spec :
  forall normalized_data : marray,
    let p := fdr_prob normalized_data in
    let K := length (ma_compressed normalized_data) in
    length p = length (ravel normalized_data) /\
    Permutation (map fst (firstn K p))
                (map fdr_density (ma_compressed normalized_data)) /\
    StronglySorted Qle (map fst (firstn K p)) /\
    (forall i : nat, (i < K)%nat -> snd (nth i p (0, true)) = false) /\
    (forall i : nat, (K <= i)%nat -> snd (nth i p (0, true)) = true).
Proof.
  intros z p K. subst p K. unfold fdr_prob, ma_compressed.
  rewrite ravel_map2d.
  set (l := map (fun p : Q * bool => (fdr_density (fst p), snd p)) (ravel z)).
  assert (Hc : compressed l = map fdr_density (compressed (ravel z)))
    by apply compressed_map_values.
  assert (HK : length (compressed (ravel z)) = length (compressed l))
    by now rewrite Hc, length_map.
  destruct (ma_sort_spec l) as [Hlen [Hfirst [Hhead Htail]]].
  rewrite HK.
  assert (Hvalues : map fst (firstn (length (compressed l)) (ma_sort l)) =
                    np_sort (compressed l)).
  { rewrite Hfirst, map_map. cbn [fst]. apply map_id. }
  split; [|split; [|split; [|split]]].
  - rewrite Hlen. unfold l. apply length_map.
  - rewrite Hvalues, <- Hc. apply np_sort_perm.
  - rewrite Hvalues. apply np_sort_sorted.
  - intros i Hi. now rewrite Hhead.
  - exact Htail.
Qed.





(** *** What the properties read and leave alone *)

Section Frame.

(** An attribute of the object that neither logging nor the stores of the
    memoised properties touch. *)
Variable B : Type.
Variable proj : ImageData -> B.
Hypothesis proj_logged :
  forall l st, proj (with_logged l st) = proj st.
Hypothesis proj_memo_data :
  forall v st, proj (with_cache (set_memo_data v (cache st)) st) = proj st.
Hypothesis proj_memo_grids :
  forall v st, proj (with_cache (set_memo_grids v (cache st)) st) = proj st.
Hypothesis proj_memo_backmap :
  forall v st,
    proj (with_cache (set_memo_backmap v (cache st)) st) = proj st.
Hypothesis proj_memo_rmsmap :
  forall v st, proj (with_cache (set_memo_rmsmap v (cache st)) st) = proj st.
Hypothesis proj_memo_data_bgsubbed :
  forall v st,
    proj (with_cache (set_memo_data_bgsubbed v (cache st)) st) = proj st.

Local Abbreviation keeps := (keeps proj).

Lemma keeps_ret : forall (A : Type) (a : A), keeps (ret a).
Proof. intros A a st. reflexivity. Qed.

Lemma keeps_raise : forall (A : Type) (e : exn), keeps (raise e : M A).
Proof. intros A e st. reflexivity. Qed.

Lemma keeps_lift : forall (A : Type) (r : result A), keeps (lift r).
Proof. intros A r st. reflexivity. Qed.

Lemma keeps_self : keeps self.
Proof. intros st. reflexivity. Qed.

Lemma keeps_log : forall level msg : string, keeps (log level msg).
Proof using proj_logged. intros level msg st. apply proj_logged. Qed.

Lemma keeps_bind :
  forall (A C : Type) (m : M A) (k : A -> M C),
    keeps m -> (forall a : A, keeps (k a)) -> keeps (bind m k).
Proof.
  intros A C m k Hm Hk st. unfold bind.
  specialize (Hm st). destruct (m st) as [[a|e] st']; cbn [snd] in *.
  - now rewrite Hk.
  - exact Hm.
Qed.

Lemma keeps_memoize :
  forall (A : Type) (load : caches -> option A)
         (store : option A -> caches -> caches) (body : M A),
    (forall v st, proj (with_cache (store v (cache st)) st) = proj st) ->
    keeps body -> keeps (memoize load store body).
Proof.
  intros A load store body Hstore Hbody st. unfold memoize.
  destruct (load (cache st)); [reflexivity|].
  specialize (Hbody st). destruct (body st) as [[v|e] st']; cbn [snd] in *.
  - now rewrite Hstore.
  - exact Hbody.
Qed.

Ltac keeps_step :=
  first
    [ apply keeps_ret | apply keeps_raise | apply keeps_lift
    | apply keeps_self | apply keeps_log
    | apply keeps_bind; [|intros]
    | match goal with
      | |- keeps (if ?b then _ else _) => destruct b
      | |- keeps (match ?x with _ => _ end) => destruct x
      | |- keeps (let '(_, _) := ?x in _) => destruct x
      end ].

Lemma keeps_reliable_window :
  forall arg : option Q, keeps (reliable_window arg).
Proof using proj_logged.
  intros arg. unfold reliable_window. repeat keeps_step.
Qed.

Lemma keeps__get_data : keeps _get_data.
Proof using proj_logged proj_memo_data.
  unfold _get_data. apply keeps_memoize; [exact proj_memo_data|].
  unfold _get_data_body.
  apply keeps_bind; [apply keeps_reliable_window|intros].
  repeat keeps_step.
Qed.

Lemma keeps__grids : keeps _grids.
Proof using proj_logged proj_memo_data proj_memo_grids.
  unfold _grids. apply keeps_memoize; [exact proj_memo_grids|].
  unfold __grids.
  apply keeps_bind; [apply keeps__get_data|intros].
  repeat keeps_step.
Qed.

Lemma keeps__interpolate :
  forall (grid : marray) (roundup : bool), keeps (_interpolate grid roundup).
Proof using proj_logged proj_memo_data.
  intros grid roundup. unfold _interpolate.
  apply keeps_bind; [apply keeps_self|intros].
  apply keeps_bind; [apply keeps__get_data|intros].
  repeat keeps_step.
Qed.

Lemma keeps__backmap : keeps _backmap.
Proof using proj_logged proj_memo_data proj_memo_grids proj_memo_backmap.
  unfold _backmap. apply keeps_memoize; [exact proj_memo_backmap|].
  apply keeps_bind; [apply keeps_self|intros].
  destruct (user_backmap (cache a)); [apply keeps_ret|].
  apply keeps_bind; [apply keeps__grids|intros].
  apply keeps__interpolate.
Qed.

Lemma keeps__get_rm : keeps _get_rm.
Proof using proj_logged proj_memo_data proj_memo_grids proj_memo_rmsmap.
  unfold _get_rm. apply keeps_memoize; [exact proj_memo_rmsmap|].
  apply keeps_bind; [apply keeps_self|intros].
  destruct (user_noisemap (cache a)); [apply keeps_ret|].
  apply keeps_bind; [apply keeps__grids|intros].
  apply keeps__interpolate.
Qed.

Lemma keeps__get_data_bgsubbed : keeps _get_data_bgsubbed.
Proof using proj_logged proj_memo_data proj_memo_grids proj_memo_backmap
  proj_memo_data_bgsubbed.
  unfold _get_data_bgsubbed.
  apply keeps_memoize; [exact proj_memo_data_bgsubbed|].
  apply keeps_bind; [apply keeps__get_data|intros].
  apply keeps_bind; [apply keeps__backmap|intros].
  apply keeps_ret.
Qed.

End Frame.

(** *** The override setters *)

(** C7 (as amended).  Setting the background override stores the map,
    empties the stores of [backmap] and [data_bgsubbed], and leaves the
    dictionaries [labels] and [clip] as they are; setting the RMS override
    stores the map, empties the store of [rmsmap] only, and leaves the
    store of [data_bgsubbed] and the dictionaries [labels] and [clip] as
    they are.  The next read of the overridden property returns the
    override. *)
Theorem setters_invalidate :
  forall (st : ImageData) (bgmap noisemap : marray),
    let sb := snd (_set_backmap bgmap st) in
    let sn := snd (_set_rm noisemap st) in
    (user_backmap (cache sb) = Some bgmap /\
     memo_backmap (cache sb) = None /\
     memo_data_bgsubbed (cache sb) = None /\
     labels (cache sb) = labels (cache st) /\
     clip (cache sb) = clip (cache st) /\
     fst (_backmap sb) = Ok bgmap) /\
    (user_noisemap (cache sn) = Some noisemap /\
     memo_rmsmap (cache sn) = None /\
     memo_data_bgsubbed (cache sn) = memo_data_bgsubbed (cache st) /\
     labels (cache sn) = labels (cache st) /\
     clip (cache sn) = clip (cache st) /\
     fst (_get_rm sn) = Ok noisemap).
Proof.
  intros st bgmap noisemap. cbv zeta.
  destruct st as [raw nan w b s c l]. destruct c.
  split; repeat split; reflexivity.
Qed.

(** *** Validation of the overrides *)

Lemma bind_ok :
  forall (A C : Type) (m : M A) (k : A -> M C) (st st' : ImageData) (a : A),
    m st = (Ok a, st') -> bind m k st = k a st'.
Proof. intros A C m k st st' a H. unfold bind. now rewrite H. Qed.

Lemma bind_raise :
  forall (A C : Type) (m : M A) (k : A -> M C) (st st' : ImageData)
         (e : exn),
    m st = (Raise e, st') -> bind m k st = (Raise e, st').
Proof. intros A C m k st st' e H. unfold bind. now rewrite H. Qed.

Lemma threshold_warning_ok :
  forall (det anl : Q) (st : ImageData),
    threshold_warning det anl st
    = (Ok tt, snd (threshold_warning det anl st)) /\
    cache (snd (threshold_warning det anl st)) = cache st.
Proof.
  intros det anl st. unfold threshold_warning.
  destruct (Qgtb anl det); split; reflexivity.
Qed.

Lemma _backmap_keeps_overrides :
  forall st : ImageData,
    user_backmap (cache (snd (_backmap st))) = user_backmap (cache st) /\
    user_noisemap (cache (snd (_backmap st))) = user_noisemap (cache st).
Proof.
  intros st. split.
  - apply (@keeps__backmap _ (fun st => user_backmap (cache st)));
      intros; reflexivity.
  - apply (@keeps__backmap _ (fun st => user_noisemap (cache st)));
      intros; reflexivity.
Qed.

Lemma _get_rm_keeps_overrides :
  forall st : ImageData,
    user_backmap (cache (snd (_get_rm st))) = user_backmap (cache st) /\
    user_noisemap (cache (snd (_get_rm st))) = user_noisemap (cache st).
Proof.
  intros st. split.
  - apply (@keeps__get_rm _ (fun st => user_backmap (cache st)));
      intros; reflexivity.
  - apply (@keeps__get_rm _ (fun st => user_noisemap (cache st)));
      intros; reflexivity.
Qed.

Lemma install_bgmap_keeps_noisemap :
  forall (bgmap : option marray) (st : ImageData),
    user_noisemap (cache (snd (install_bgmap bgmap st)))
    = user_noisemap (cache st).
Proof.
  intros [bg|] st; [|reflexivity]. unfold install_bgmap, bind.
  destruct (_backmap_keeps_overrides st) as [_ H].
  destruct (_backmap st) as [[backmap|e] st1]; cbn [snd] in *;
    [|exact H].
  destruct (negb (shape_eqb (ma_shape bg) (ma_shape backmap)));
    cbn; exact H.
Qed.

Lemma shape_eqb_neq :
  forall s t : nat * nat, s <> t -> shape_eqb s t = false.
Proof.
  intros [a b] [c d] H. unfold shape_eqb. cbn [fst snd].
  destruct (Nat.eqb_spec a c), (Nat.eqb_spec b d); try reflexivity.
  subst. contradiction.
Qed.

Lemma fold_left_Qmin :
  forall (l : list Q) (x : Q),
    fold_left Qmin l x <= x /\
    forall y : Q, In y l -> fold_left Qmin l x <= y.
Proof.
  induction l as [|z l IH]; intros x; cbn [fold_left].
  - split; [apply Qle_refl|]. intros y [].
  - destruct (IH (Qmin x z)) as [Hle Hall].
    assert (Hx : Qmin x z <= x /\ Qmin x z <= z).
    { unfold Qmin. destruct (Qle_bool x z) eqn:E.
      - apply Qle_bool_iff in E. split; [apply Qle_refl|assumption].
      - split; [|apply Qle_refl].
        apply Qlt_le_weak, Qnot_le_lt. intro H.
        apply Qle_bool_iff in H. congruence. }
    destruct Hx as [Hx Hz]. split.
    + now apply Qle_trans with (Qmin x z).
    + intros y [<-|Hy]; [now apply Qle_trans with (Qmin x z)|].
      now apply Hall.
Qed.

Lemma list_min_negative :
  forall (l : list Q) (x : Q),
    In x l -> x < 0 -> Qltb (list_min 0 l) 0 = true.
Proof.
  intros [|y l] x Hin Hx; [contradiction|]. apply Qltb_true.
  cbn [list_min]. destruct (fold_left_Qmin l y) as [Hle Hall].
  destruct Hin as [<-|Hin].
  - now apply Qle_lt_trans with y.
  - apply Qle_lt_trans with x; [now apply Hall|assumption].
Qed.

Lemma install_bgmap_refuses :
  forall (bg : marray) (st : ImageData),
    (forall (backmap : marray) (st1 : ImageData),
        _backmap st = (Ok backmap, st1) ->
        ma_shape bg <> ma_shape backmap) ->
    refused (install_bgmap (Some bg)) st user_backmap.
Proof.
  intros bg st Hshape. unfold refused, install_bgmap, bind.
  destruct (_backmap_keeps_overrides st) as [Hkeep _].
  destruct (_backmap st) as [[backmap|e] st1] eqn:E; cbn [snd] in Hkeep.
  - rewrite (@shape_eqb_neq _ _ (Hshape backmap st1 eq_refl)). cbn [negb].
    exists (IndexError "Background map has wrong shape"), st1.
    split; [reflexivity|exact Hkeep].
  - exists e, st1. split; [reflexivity|exact Hkeep].
Qed.

Lemma install_noisemap_refuses :
  forall (nm : marray) (st : ImageData),
    (forall (rms : marray) (st1 : ImageData),
        _get_rm st = (Ok rms, st1) ->
        ma_shape nm <> ma_shape rms \/
        exists x : Q, In x (ma_compressed nm) /\ x < 0) ->
    refused (install_noisemap (Some nm)) st user_noisemap.
Proof.
  intros nm st Hbad. unfold refused, install_noisemap, bind.
  destruct (_get_rm_keeps_overrides st) as [_ Hkeep].
  destruct (_get_rm st) as [[rms|e] st1] eqn:E; cbn [snd] in Hkeep.
  - destruct (shape_eqb (ma_shape nm) (ma_shape rms)) eqn:Es; cbn [negb].
    + destruct (Hbad rms st1 eq_refl) as [Hne|[x [Hin Hx]]].
      * rewrite (@shape_eqb_neq _ _ Hne) in Es. discriminate.
      * rewrite (@list_min_negative _ x Hin Hx).
        exists (ValueError "RMS noise cannot be negative"), st1.
        split; [reflexivity|exact Hkeep].
    + exists (IndexError "Noisemap has wrong shape"), st1.
      split; [reflexivity|exact Hkeep].
  - exists e, st1. split; [reflexivity|exact Hkeep].
Qed.

(** A refusal of the noise map after the background map has been dealt
    with. *)
Lemma install_both_refuses :
  forall (bgmap : option marray) (nm : marray) (st : ImageData),
    (forall (st1 : ImageData) (rms : marray) (st2 : ImageData),
        install_bgmap bgmap st = (Ok tt, st1) ->
        _get_rm st1 = (Ok rms, st2) ->
        ma_shape nm <> ma_shape rms \/
        exists x : Q, In x (ma_compressed nm) /\ x < 0) ->
    refused (bind (install_bgmap bgmap)
                  (fun _ => install_noisemap (Some nm))) st user_noisemap.
Proof.
  intros bgmap nm st Hbad.
  pose proof (install_bgmap_keeps_noisemap bgmap st) as Hkeep.
  unfold refused, bind at 1.
  destruct (install_bgmap bgmap st) as [[[]|e] st1] eqn:E; cbn [snd] in Hkeep.
  - destruct (@install_noisemap_refuses nm st1 (fun rms st2 => Hbad st1 rms st2 eq_refl))
      as [e [st' [Hrun Hsame]]].
    exists e, st'. split; [exact Hrun|]. now rewrite Hsame.
  - exists e, st1. split; [reflexivity|exact Hkeep].
Qed.

Lemma refused_bind :
  forall (A C : Type) (m : M A) (k : A -> M C) (st : ImageData)
         (override : caches -> option marray),
    refused m st override -> refused (bind m k) st override.
Proof.
  intros A C m k st override [e [st' [Hrun Hsame]]].
  exists e, st'. split; [|exact Hsame]. now apply bind_raise.
Qed.

(** C8.  [extract] and [fd_extract] raise, and leave the background
    override as it was, when they are given a background map whose shape
    differs from that of the current background map; they raise, and leave
    the noise override as it was, when they are given a noise map whose
    shape differs from that of the current RMS map or which has a negative
    unmasked value.  The current maps are the ones the properties return in
    the state in which the method reads them. *)
Theorem override_validation :
  forall (st : ImageData) (det anl alpha : option Q)
         (noisemap bgmap : option marray)
         (labelled_data : option (list (list Z))) (labels : option (list Z)),
    let st0 :=
      snd (threshold_warning (effective_det st det) (effective_anl st anl)
             st) in
    (forall bg : marray,
        bgmap = Some bg ->
        ((forall (backmap : marray) (st1 : ImageData),
             _backmap st0 = (Ok backmap, st1) ->
             ma_shape bg <> ma_shape backmap) ->
         refused (extract det anl noisemap bgmap labelled_data labels) st
                 user_backmap) /\
        ((forall (backmap : marray) (st1 : ImageData),
             _backmap st = (Ok backmap, st1) ->
             ma_shape bg <> ma_shape backmap) ->
         refused (fd_extract alpha anl noisemap bgmap) st user_backmap)) /\
    (forall nm : marray,
        noisemap = Some nm ->
        ((forall (st1 : ImageData) (rms : marray) (st2 : ImageData),
             install_bgmap bgmap st0 = (Ok tt, st1) ->
             _get_rm st1 = (Ok rms, st2) ->
             ma_shape nm <> ma_shape rms \/
             exists x : Q, In x (ma_compressed nm) /\ x < 0) ->
         refused (extract det anl noisemap bgmap labelled_data labels) st
                 user_noisemap) /\
        ((forall (st1 : ImageData) (rms : marray) (st2 : ImageData),
             install_bgmap bgmap st = (Ok tt, st1) ->
             _get_rm st1 = (Ok rms, st2) ->
             ma_shape nm <> ma_shape rms \/
             exists x : Q, In x (ma_compressed nm) /\ x < 0) ->
         refused (fd_extract alpha anl noisemap bgmap) st user_noisemap)).
Proof.
  intros st det anl alpha noisemap bgmap ld labels st0.
  destruct (threshold_warning_ok (effective_det st det)
              (effective_anl st anl) st) as [Hwarn Hcache].
  fold st0 in Hwarn, Hcache.
  split.
  - intros bg ->. split; intros Hshape.
    + destruct (@install_bgmap_refuses bg st0 Hshape)
        as [e [st' [Hrun Hsame]]].
      exists e, st'. split; [|now rewrite Hsame, Hcache].
      unfold extract, bind at 1, self.
      rewrite (@bind_ok _ _ _ _ _ _ _ Hwarn). now apply bind_raise.
    + destruct (@install_bgmap_refuses bg st Hshape)
        as [e [st' [Hrun Hsame]]].
      exists e, st'. split; [|exact Hsame].
      unfold fd_extract, bind at 1, self.
      apply bind_raise. unfold normalized_maps. now apply bind_raise.
  - intros nm ->. split; intros Hbad.
    + destruct (@install_both_refuses bgmap nm st0 Hbad)
        as [e [st' [Hrun Hsame]]].
      exists e, st'. split; [|now rewrite Hsame, Hcache].
      unfold extract, bind at 1, self.
      rewrite (@bind_ok _ _ _ _ _ _ _ Hwarn).
      unfold bind at 1 in Hrun. unfold bind at 1.
      destruct (install_bgmap bgmap st0) as [[[]|e0] st1].
      * now apply bind_raise.
      * injection Hrun as -> ->. reflexivity.
    + destruct (@install_both_refuses bgmap nm st Hbad)
        as [e [st' [Hrun Hsame]]].
      exists e, st'. split; [|exact Hsame].
      unfold fd_extract, bind at 1, self.
      apply bind_raise. unfold normalized_maps.
      unfold bind at 1 in Hrun. unfold bind at 1.
      destruct (install_bgmap bgmap st) as [[[]|e0] st1].
      * now apply bind_raise.
      * injection Hrun as -> ->. reflexivity.
Qed.

(** *** An entirely masked RMS map *)

Lemma memoize_hit :
  forall (A : Type) (load : caches -> option A)
         (store : option A -> caches -> caches) (body : M A)
         (st : ImageData) (v : A),
    load (cache st) = Some v -> memoize load store body st = (Ok v, st).
Proof. intros A load store body st v H. unfold memoize. now rewrite H. Qed.

Lemma memoize_fills :
  forall (A : Type) (load : caches -> option A)
         (store : option A -> caches -> caches) (body : M A)
         (st st' : ImageData) (v : A),
    (forall (w : option A) (c : caches), load (store w c) = w) ->
    memoize load store body st = (Ok v, st') ->
    load (cache st') = Some v.
Proof.
  intros A load store body st st' v Hlaw H. unfold memoize in H.
  destruct (load (cache st)) as [w|] eqn:E.
  - injection H as -> <-. exact E.
  - destruct (body st) as [[w|e] st1]; [|discriminate].
    injection H as -> <-. destruct st1. cbn. apply Hlaw.
Qed.

Lemma _get_rm_fills :
  forall (st st' : ImageData) (v : marray),
    _get_rm st = (Ok v, st') -> memo_rmsmap (cache st') = Some v.
Proof.
  intros st st' v H. unfold _get_rm in H.
  apply (memoize_fills _ _ _ st) in H; [exact H|].
  intros w []. reflexivity.
Qed.

Lemma _get_data_fills :
  forall (st st' : ImageData) (v : marray),
    _get_data st = (Ok v, st') -> memo_data (cache st') = Some v.
Proof.
  intros st st' v H. unfold _get_data in H.
  apply (memoize_fills _ _ _ st) in H; [exact H|].
  intros w []. reflexivity.
Qed.

Lemma _get_rm_hit :
  forall (st : ImageData) (v : marray),
    memo_rmsmap (cache st) = Some v -> _get_rm st = (Ok v, st).
Proof. intros st v H. unfold _get_rm. now apply memoize_hit. Qed.

Lemma _get_data_hit :
  forall (st : ImageData) (v : marray),
    memo_data (cache st) = Some v -> _get_data st = (Ok v, st).
Proof. intros st v H. unfold _get_data. now apply memoize_hit. Qed.

Lemma compressed_nil :
  forall l : list (Q * bool),
    compressed l = [] <-> forall p : Q * bool, In p l -> snd p = true.
Proof.
  induction l as [|[x m] l IH]; cbn.
  - split; [intros _ p []|reflexivity].
  - destruct m; cbn.
    + rewrite IH. split.
      * intros H p [<-|Hp]; [reflexivity|now apply H].
      * intros H p Hp. apply H. now right.
    + split; [discriminate|]. intros H.
      specialize (H (x, false) (or_introl eq_refl)). discriminate.
Qed.

Lemma In_map2 :
  forall (A B C : Type) (f : A -> B -> C) (l : list A) (m : list B) (z : C),
    In z (map2 f l m) ->
    exists (x : A) (y : B), In x l /\ In y m /\ z = f x y.
Proof.
  induction l as [|a l IH]; intros [|b m] z H; cbn in H; try contradiction.
  destruct H as [<-|H].
  - exists a, b. repeat split; now left.
  - destruct (IH m z H) as [x [y [Hx [Hy E]]]].
    exists x, y. repeat split; [now right|now right|exact E].
Qed.

Lemma In_ravel_zip2d :
  forall (A B C : Type) (f : A -> B -> C) (a : list (list A))
         (b : list (list B)) (z : C),
    In z (ravel (zip2d f a b)) ->
    exists (x : A) (y : B), In y (ravel b) /\ z = f x y.
Proof.
  intros A B C f a b z H. unfold ravel, zip2d in *.
  apply in_concat in H. destruct H as [row [Hrow Hz]].
  apply In_map2 in Hrow. destruct Hrow as [ra [rb [_ [Hrb ->]]]].
  apply In_map2 in Hz. destruct Hz as [x [y [_ [Hy ->]]]].
  exists x, y. split; [|reflexivity].
  apply in_concat. exists rb. now split.
Qed.

(** Normalizing by an entirely masked RMS map leaves no pixel. *)
Lemma normalized_all_masked :
  forall d r : marray,
    ma_compressed r = [] -> ma_compressed (ma_true_divide d r) = [].
Proof.
  intros d r H. unfold ma_compressed in *. apply compressed_nil.
  intros p Hp. unfold ma_true_divide in Hp.
  apply In_ravel_zip2d in Hp. destruct Hp as [x [y [Hy ->]]].
  cbn [snd]. rewrite (proj1 (compressed_nil (ravel r)) H y Hy).
  now rewrite orb_true_r.
Qed.

Lemma bind_ret :
  forall (A C : Type) (a : A) (k : A -> M C) (st : ImageData),
    bind (ret a) k st = k a st.
Proof. reflexivity. Qed.

Lemma bind_self :
  forall (C : Type) (k : ImageData -> M C) (st : ImageData),
    bind self k st = k st st.
Proof. reflexivity. Qed.

Lemma bind_log :
  forall (C : Type) (level msg : string) (k : unit -> M C) (st : ImageData),
    bind (log level msg) k st = k tt (snd (log level msg st)).
Proof. reflexivity. Qed.

Lemma bind_update_cache :
  forall (C : Type) (f : caches -> caches) (k : unit -> M C)
         (st : ImageData),
    bind (update_cache f) k st = k tt (with_cache (f (cache st)) st).
Proof. reflexivity. Qed.

(** With an entirely masked RMS map [label_islands] logs a warning and
    returns no label and a map of zeros. *)
Lemma label_islands_all_masked :
  forall (detectionthresholdmap analysisthresholdmap rms d : marray)
         (st1 st2 : ImageData),
    memo_rmsmap (cache st1) = Some rms ->
    ma_compressed rms = [] ->
    _get_data_bgsubbed
      (snd (log "warning" "RMS map masked; sourcefinding skipped" st1))
    = (Ok d, st2) ->
    label_islands detectionthresholdmap analysisthresholdmap st1
    = (Ok ([], full (fst (ma_shape d)) (snd (ma_shape d)) 0%Z), st2).
Proof.
  intros det anl rms d st1 st2 Hmemo Hmasked Hbg.
  unfold label_islands.
  rewrite (@bind_ok _ _ _ _ _ _ _ (_get_rm_hit _ Hmemo)).
  rewrite Hmasked. cbn [length Nat.eqb].
  rewrite bind_log. now rewrite (@bind_ok _ _ _ _ _ _ _ Hbg).
Qed.

Lemma setup_residuals_nil :
  forall (data : marray) (st2 st3 : ImageData),
    _get_data st2 = (Ok data, st3) ->
    exists st4 st5 : ImageData,
      setup_residuals [] st2 = (Ok tt, st4) /\
      _get_data st4 = (Ok data, st5).
Proof.
  intros data st2 st3 Hdata. unfold setup_residuals. rewrite bind_self.
  pose proof (_get_data_fills _ Hdata) as Hfill.
  destruct (residuals (conf st2)).
  - rewrite (@bind_ok _ _ _ _ _ _ _ Hdata). rewrite bind_update_cache.
    unfold update_cache. eexists. eexists. split; [reflexivity|].
    apply _get_data_hit. destruct st3 as [? ? ? ? ? [] ?].
    cbn in *. exact Hfill.
  - exists st2, st3. split; [reflexivity|exact Hdata].
Qed.

(** The rest of [_pyse] when there is no label. *)
Lemma _pyse_no_labels :
  forall (detectionthresholdmap analysisthresholdmap rms d data : marray)
         (st1 st2 st3 : ImageData),
    memo_rmsmap (cache st1) = Some rms ->
    ma_compressed rms = [] ->
    _get_data_bgsubbed
      (snd (log "warning" "RMS map masked; sourcefinding skipped" st1))
    = (Ok d, st2) ->
    _get_data st2 = (Ok data, st3) ->
    exists st' : ImageData,
      _pyse detectionthresholdmap analysisthresholdmap None None st1
      = (Ok [], st').
Proof.
  intros det anl rms d data st1 st2 st3 Hmemo Hmasked Hbg Hdata.
  unfold _pyse.
  rewrite (@bind_ok _ _ _ _ _ _ _
             (@label_islands_all_masked det anl _ _ _ _ Hmemo Hmasked Hbg)).
  cbn [fst snd]. unfold islands_of_labels. cbn [foldM].
  rewrite bind_ret.
  destruct (@setup_residuals_nil _ _ _ Hdata) as [st4 [st5 [Hres Hdata']]].
  rewrite (@bind_ok _ _ _ _ _ _ _ Hres). rewrite bind_self.
  destruct (deblend_enabled _); cbn [flat_map foldM]; rewrite bind_ret;
    rewrite (@bind_ok _ _ _ _ _ _ _ Hdata'); eexists; reflexivity.
Qed.

(** With every entry of [prob] masked there is no undercrossing. *)
Lemma undercrossings_all_masked :
  forall (alpha C_n : Q) (prob : list (Q * bool)),
    (forall i : nat, snd (nth i prob (0, true)) = true) ->
    last_true (undercrossings alpha C_n prob) = None.
Proof.
  intros alpha C_n prob Hall.
  pose proof (last_true_spec (undercrossings alpha C_n prob)) as Hspec.
  destruct (last_true (undercrossings alpha C_n prob)) as [k|];
    [|reflexivity].
  destruct Hspec as [Hk [Hnth _]]. exfalso.
  unfold undercrossings in Hk, Hnth. destruct (Qeq_bool C_n 0).
  - rewrite length_map in Hk.
    rewrite nth_indep
      with (d' := (fun p : Q * bool => negb (snd p) && Qgtb alpha 0)
                    (0, true)) in Hnth
      by (rewrite length_map; exact Hk).
    rewrite (map_nth (fun p : Q * bool => negb (snd p) && Qgtb alpha 0))
      in Hnth.
    rewrite Hall in Hnth. discriminate.
  - assert (Hlen : forall (l : list (Q * bool)) (m : list Q),
               (length (map2 (fun (p : Q * bool) c =>
                                negb (snd p) && Qltb (fst p - c) 0) l m)
                <= length l)%nat).
    { induction l as [|x l IH]; intros [|y m]; cbn; try lia.
      specialize (IH m). lia. }
    assert (Hkp : (k < length prob)%nat)
      by (eapply Nat.lt_le_trans; [exact Hk|apply Hlen]).
    assert (Hkc : (k < length (fdr_compare alpha C_n (length prob)))%nat)
      by now rewrite length_fdr_compare.
    rewrite (@nth_map2 _ _ _ _ prob _ k (0, true) 0 false Hkp Hkc) in Hnth.
    rewrite Hall in Hnth. discriminate.
Qed.

(** When the RMS map that the property returns has no unmasked pixel and
    the background-subtracted data and the masked data can be read,
    [label_islands] returns the empty list of islands and a label map of
    zeros, and [extract] returns the empty result set; so does
    [fd_extract]. *)
Lemma all_masked_rms_no_detections :
  forall (st : ImageData) (det anl alpha : option Q),
    (forall (rms d data : marray) (st1 st2 st3 : ImageData),
        let d_eff := effective_det st det in
        let a_eff := effective_anl st anl in
        _get_rm (snd (threshold_warning d_eff a_eff st)) = (Ok rms, st1) ->
        ma_compressed rms = [] ->
        _get_data_bgsubbed
          (snd (log "warning" "RMS map masked; sourcefinding skipped" st1))
        = (Ok d, st2) ->
        _get_data st2 = (Ok data, st3) ->
        label_islands (ma_scale d_eff rms) (ma_scale a_eff rms) st1
        = (Ok ([], full (fst (ma_shape d)) (snd (ma_shape d)) 0%Z), st2) /\
        exists st' : ImageData,
          extract det anl None None None None st = (Ok [], st')) /\
    (forall (rms d : marray) (st1 st2 : ImageData),
        _get_data_bgsubbed st = (Ok d, st1) ->
        _get_rm st1 = (Ok rms, st2) ->
        ma_compressed rms = [] ->
        fd_extract alpha anl None None st = (Ok [], st2)).
Proof.
  intros st det anl alpha. split.
  - intros rms d data st1 st2 st3 d_eff a_eff Hrm Hmasked Hbg Hdata.
    pose proof (_get_rm_fills _ Hrm) as Hmemo.
    split.
    + now apply label_islands_all_masked with (rms := rms).
    + destruct (@_pyse_no_labels (ma_scale d_eff rms) (ma_scale a_eff rms)
                  rms d data st1 st2 st3 Hmemo Hmasked Hbg Hdata)
        as [st' Hpyse].
      exists st'. unfold extract. rewrite bind_self.
      fold d_eff a_eff.
      destruct (threshold_warning_ok d_eff a_eff st) as [Hwarn _].
      rewrite (@bind_ok _ _ _ _ _ _ _ Hwarn).
      cbn [install_bgmap install_noisemap]. rewrite !bind_ret.
      rewrite (@bind_ok _ _ _ _ _ _ _ Hrm). exact Hpyse.
  - intros rms d st1 st2 Hbg Hrm Hmasked.
    unfold fd_extract. rewrite bind_self.
    assert (Hmaps : normalized_maps None None st = (Ok (d, rms), st2)).
    { unfold normalized_maps. cbn [install_bgmap install_noisemap].
      rewrite !bind_ret. rewrite (@bind_ok _ _ _ _ _ _ _ Hbg).
      now rewrite (@bind_ok _ _ _ _ _ _ _ Hrm). }
    rewrite (@bind_ok _ _ _ _ _ _ _ Hmaps). cbn [fst snd].
    unfold fdr_threshold_of.
    rewrite undercrossings_all_masked; [reflexivity|].
    destruct (fdr_prob_spec (ma_true_divide d rms)) as [_ [_ [_ [_ Htail]]]].
    rewrite (@normalized_all_masked d rms Hmasked) in Htail.
    intros i. apply Htail. cbn [length]. lia.
Qed.

(** *** Forced fits below the threshold *)

Lemma foldM_raise :
  forall (A C : Type) (f : C -> A -> M C) (pre : list A) (s : A)
         (post : list A) (acc0 acc : C) (st st1 st2 : ImageData) (e : exn),
    foldM f pre acc0 st = (Ok acc, st1) ->
    f acc s st1 = (Raise e, st2) ->
    foldM f (pre ++ s :: post) acc0 st = (Raise e, st2).
Proof.
  intros A C f. induction pre as [|a pre IH];
    intros s post acc0 acc st st1 st2 e Hpre Hs.
  - cbn in Hpre. injection Hpre as -> ->. cbn [app foldM].
    now apply bind_raise.
  - cbn [app foldM] in *. unfold bind in Hpre |- *.
    destruct (f acc0 a st) as [[b|e'] st']; [|discriminate].
    now apply IH with (acc := acc) (st1 := st1).
Qed.

Lemma _get_data_bgsubbed_keeps_rmsmap :
  forall st : ImageData,
    memo_rmsmap (cache (snd (_get_data_bgsubbed st)))
    = memo_rmsmap (cache st).
Proof.
  intros st.
  apply (@keeps__get_data_bgsubbed _ (fun st => memo_rmsmap (cache st)));
    intros; reflexivity.
Qed.

(** [fit_to_point] on a pixel whose noise is not masked and whose label
    for the threshold is 0. *)
Lemma fit_to_point_below_threshold :
  forall (x y : Z) (boxsize t : Q) (fixed : option string)
         (st1 st2 st3 : ImageData) (rms d : marray) (noise : Q),
    _get_rm st1 = (Ok rms, st2) ->
    getitem2 rms x y = Some (noise, false) ->
    _get_data_bgsubbed st2 = (Ok d, st3) ->
    getitem2 (fst (fst (thresholded_labels t d rms (cache st3)))) x y
    = Some 0%Z ->
    fit_to_point x y boxsize (Some t) fixed st1
    = (Raise (ValueError
                "Fit region is below specified threshold, fit aborted."),
       with_cache (snd (thresholded_labels t d rms (cache st3))) st3).
Proof.
  intros x y boxsize t fixed st1 st2 st3 rms d noise Hrm Hnoise Hbg Hlabel.
  unfold fit_to_point. rewrite (@bind_ok _ _ _ _ _ _ _ Hrm). rewrite Hnoise.
  apply bind_raise. unfold fit_region.
  rewrite (@bind_ok _ _ _ _ _ _ _ Hbg).
  assert (Hmemo : memo_rmsmap (cache st3) = Some rms).
  { pose proof (_get_data_bgsubbed_keeps_rmsmap st2) as Hkeep.
    rewrite Hbg in Hkeep. cbn [snd] in Hkeep. rewrite Hkeep.
    now apply _get_rm_fills with (st := st1). }
  rewrite (@bind_ok _ _ _ _ _ _ _ (@_get_rm_hit _ _ Hmemo)).
  rewrite bind_self.
  destruct (thresholded_labels t d rms (cache st3)) as [labels_num c].
  cbn [fst snd] in *. rewrite bind_update_cache. rewrite Hlabel.
  reflexivity.
Qed.

(** C10.  When [fit_fixed_positions] is called with a threshold and the
    sources before [s] have been processed, [s] falls on pixel [(x, y)],
    the noise at that pixel is not masked, and the label of the pixel in
    the label map for the threshold is 0: [fit_to_point] raises ValueError,
    the handler for IndexError does not catch it, and the call of
    [fit_fixed_positions] raises that ValueError. *)
Theorem fit_fixed_positions_propagates_ValueError :
  forall (boxsize t : Q) (fixed : option string)
         (pre post : list (Q * Q)) (s : Q * Q) (acc : list Detection)
         (st st1 st2 st3 : ImageData) (x y : Z) (rms d : marray) (noise : Q),
    foldM (fit_source boxsize (Some t) fixed) pre [] st = (Ok acc, st1) ->
    wcs_s2p (wcs st1) s = Ok (x, y) ->
    _get_rm st1 = (Ok rms, st2) ->
    getitem2 rms x y = Some (noise, false) ->
    _get_data_bgsubbed st2 = (Ok d, st3) ->
    getitem2 (fst (fst (thresholded_labels t d rms (cache st3)))) x y
    = Some 0%Z ->
    exists st' : ImageData,
      fit_to_point x y boxsize (Some t) fixed st1
      = (Raise (ValueError
                  "Fit region is below specified threshold, fit aborted."),
         st') /\
      fit_fixed_positions (pre ++ s :: post) boxsize (Some t) fixed st
      = (Raise (ValueError
                  "Fit region is below specified threshold, fit aborted."),
         st').
Proof.
  intros boxsize t fixed pre post s acc st st1 st2 st3 x y rms d noise
         Hpre Hs2p Hrm Hnoise Hbg Hlabel.
  pose proof (@fit_to_point_below_threshold x y boxsize t fixed st1 st2 st3
                rms d noise Hrm Hnoise Hbg Hlabel) as Hfit.
  eexists. split; [exact Hfit|].
  unfold fit_fixed_positions. apply foldM_raise with (acc := acc) (st1 := st1);
    [exact Hpre|].
  unfold fit_source. rewrite bind_self, Hs2p.
  unfold try_except. rewrite (@bind_raise _ _ _ _ _ _ _ Hfit).
  reflexivity.
Qed.

(** *** The test of the ends of the axes *)

Lemma getitem_wrap :
  forall (A : Type) (l : list A) (k : Z),
    (- Z.of_nat (length l) <= k < 0)%Z ->
    getitem l k = getitem l (Z.of_nat (length l) + k).
Proof.
  intros A l k Hk. unfold getitem, index.
  replace (0 <=? k)%Z with false by (symmetry; apply Z.leb_gt; lia).
  replace (- Z.of_nat (length l) <=? k)%Z with true
    by (symmetry; apply Z.leb_le; lia).
  replace (k <? 0)%Z with true by (symmetry; apply Z.ltb_lt; lia).
  replace (0 <=? Z.of_nat (length l) + k)%Z with true
    by (symmetry; apply Z.leb_le; lia).
  replace (Z.of_nat (length l) + k <? Z.of_nat (length l))%Z with true
    by (symmetry; apply Z.ltb_lt; lia).
  reflexivity.
Qed.

(** A point whose first coordinate is a negative integer, up to the number
    of rows, is tested on the row counted from the end of the image: it is
    not reported as outside the image. *)
Lemma check_point_wraps :
  forall (mask : list (list bool)) (k : Z) (y : Q),
    (- Z.of_nat (length mask) <= k < 0)%Z ->
    check_point mask (inject_Z k) y =
    check_point mask (inject_Z (Z.of_nat (length mask) + k)) y.
Proof.
  intros mask k y Hk. unfold check_point.
  rewrite !Qfloor_Z, !Qceiling_Z.
  cbn [list_prod map app forallb fst snd]. unfold getitem2.
  now rewrite (getitem_wrap mask Hk).
Qed.

(** *** Reading the memoised properties *)

(** X1.  Reading [data], [grids], [backmap], [rmsmap] or [data_bgsubbed],
    or interpolating a grid, never changes the constructor arguments, the
    dictionaries [labels] and [clip] or the user overrides, whether the
    read returns or raises. *)
Theorem property_reads_keep_inputs :
  keeps inputs_of _get_data /\ keeps inputs_of _grids /\
  keeps inputs_of _backmap /\ keeps inputs_of _get_rm /\
  keeps inputs_of _get_data_bgsubbed /\
  forall (grid : marray) (roundup : bool),
    keeps inputs_of (_interpolate grid roundup).
Proof.
  repeat split.
  - apply keeps__get_data; intros; reflexivity.
  - apply keeps__grids; intros; reflexivity.
  - apply keeps__backmap; intros; reflexivity.
  - apply keeps__get_rm; intros; reflexivity.
  - apply keeps__get_data_bgsubbed; intros; reflexivity.
  - intros grid roundup. apply keeps__interpolate; intros; reflexivity.
Qed.

Lemma _grids_fills :
  forall (st st' : ImageData) (v : grids_t),
    _grids st = (Ok v, st') -> memo_grids (cache st') = Some v.
Proof.
  intros st st' v H. unfold _grids in H.
  apply (memoize_fills _ _ _ st) in H; [exact H|].
  intros w []. reflexivity.
Qed.

Lemma _backmap_fills :
  forall (st st' : ImageData) (v : marray),
    _backmap st = (Ok v, st') -> memo_backmap (cache st') = Some v.
Proof.
  intros st st' v H. unfold _backmap in H.
  apply (memoize_fills _ _ _ st) in H; [exact H|].
  intros w []. reflexivity.
Qed.

Lemma _get_data_bgsubbed_fills :
  forall (st st' : ImageData) (v : marray),
    _get_data_bgsubbed st = (Ok v, st') ->
    memo_data_bgsubbed (cache st') = Some v.
Proof.
  intros st st' v H. unfold _get_data_bgsubbed in H.
  apply (memoize_fills _ _ _ st) in H; [exact H|].
  intros w []. reflexivity.
Qed.

(** X2.  A memoised property is computed once: after a read that
    returned, the next read returns the same value and leaves the object
    as it is. *)
Theorem property_reads_are_cached :
  forall st st' : ImageData,
    (forall v, _get_data st = (Ok v, st') -> _get_data st' = (Ok v, st')) /\
    (forall v, _grids st = (Ok v, st') -> _grids st' = (Ok v, st')) /\
    (forall v, _backmap st = (Ok v, st') -> _backmap st' = (Ok v, st')) /\
    (forall v, _get_rm st = (Ok v, st') -> _get_rm st' = (Ok v, st')) /\
    (forall v, _get_data_bgsubbed st = (Ok v, st') ->
               _get_data_bgsubbed st' = (Ok v, st')).
Proof.
  intros st st'. repeat split; intros v H.
  - apply _get_data_hit. now apply _get_data_fills with (st := st).
  - unfold _grids at 1. apply memoize_hit.
    now apply _grids_fills with (st := st).
  - unfold _backmap at 1. apply memoize_hit.
    now apply _backmap_fills with (st := st).
  - apply _get_rm_hit. now apply _get_rm_fills with (st := st).
  - unfold _get_data_bgsubbed at 1. apply memoize_hit.
    now apply _get_data_bgsubbed_fills with (st := st).
Qed.

Lemma clearcache_run :
  forall st : ImageData,
    clearcache st =
    (Ok tt,
     with_cache
       (Caches [] [] (user_backmap (cache st)) (user_noisemap (cache st))
               None None None None None None None) st).
Proof.
  intros [raw nan w b s c l]. destruct c. reflexivity.
Qed.

Lemma _backmap_override :
  forall (st : ImageData) (bg : marray),
    memo_backmap (cache st) = None ->
    user_backmap (cache st) = Some bg ->
    _backmap st =
    (Ok bg, with_cache (set_memo_backmap (Some bg) (cache st)) st).
Proof.
  intros st bg Hm Hu. unfold _backmap, memoize. rewrite Hm.
  unfold bind, self. rewrite Hu. reflexivity.
Qed.

Lemma _get_rm_override :
  forall (st : ImageData) (nm : marray),
    memo_rmsmap (cache st) = None ->
    user_noisemap (cache st) = Some nm ->
    _get_rm st =
    (Ok nm, with_cache (set_memo_rmsmap (Some nm) (cache st)) st).
Proof.
  intros st nm Hm Hu. unfold _get_rm, memoize. rewrite Hm.
  unfold bind, self. rewrite Hu. reflexivity.
Qed.

(** X3.  [clearcache] returns, empties the two dictionaries, the five
    stores and the residual maps, and keeps the user overrides: the next
    read of [backmap] or [rmsmap] returns the override that was set
    before. *)
Theorem clearcache_keeps_overrides :
  forall st : ImageData,
    fst (clearcache st) = Ok tt /\
    cache (snd (clearcache st)) =
    Caches [] [] (user_backmap (cache st)) (user_noisemap (cache st))
           None None None None None None None /\
    (forall bg : marray,
        user_backmap (cache st) = Some bg ->
        fst (_backmap (snd (clearcache st))) = Ok bg) /\
    (forall nm : marray,
        user_noisemap (cache st) = Some nm ->
        fst (_get_rm (snd (clearcache st))) = Ok nm).
Proof.
  intros st. rewrite clearcache_run. cbn [fst snd].
  assert (Hc : cache
            (with_cache
               (Caches [] [] (user_backmap (cache st))
                  (user_noisemap (cache st))
                  None None None None None None None) st) =
          Caches [] [] (user_backmap (cache st)) (user_noisemap (cache st))
            None None None None None None None)
    by (destruct st; reflexivity).
  split; [reflexivity|]. split; [exact Hc|]. split.
  - intros bg Hu. rewrite (@_backmap_override _ bg); [reflexivity| |].
    + rewrite Hc. reflexivity.
    + rewrite Hc. exact Hu.
  - intros nm Hu. rewrite (@_get_rm_override _ nm); [reflexivity| |].
    + rewrite Hc. reflexivity.
    + rewrite Hc. exact Hu.
Qed.

(** *** Pixels of elementwise results *)

Lemma nth_error_map2 :
  forall (A B C : Type) (f : A -> B -> C) (l : list A) (m : list B)
         (i : nat),
    nth_error (map2 f l m) i =
    match nth_error l i, nth_error m i with
    | Some x, Some y => Some (f x y)
    | _, _ => None
    end.
Proof.
  induction l as [|x l IH]; intros [|y m] [|i]; cbn; try reflexivity.
  - now destruct (nth_error l i).
  - apply IH.
Qed.

Lemma pixel_zip2d :
  forall (A B C : Type) (f : A -> B -> C) (a : list (list A))
         (b : list (list B)) (i j : nat),
    pixel (zip2d f a b) i j =
    match pixel a i j, pixel b i j with
    | Some x, Some y => Some (f x y)
    | _, _ => None
    end.
Proof.
  intros A B C f a b i j. unfold pixel, zip2d.
  rewrite nth_error_map2.
  destruct (nth_error a i) as [ra|], (nth_error b i) as [rb|];
    try reflexivity.
  - apply nth_error_map2.
  - now destruct (nth_error ra j).
Qed.

Lemma pixel_map2d :
  forall (A B : Type) (f : A -> B) (a : list (list A)) (i j : nat),
    pixel (map2d f a) i j = option_map f (pixel a i j).
Proof.
  intros A B f a i j. unfold pixel, map2d. rewrite nth_error_map.
  destruct (nth_error a i) as [row|]; cbn; [|reflexivity].
  apply nth_error_map.
Qed.

Lemma pixel_full :
  forall (A : Type) (v x : A) (n m i j : nat),
    pixel (full n m v) i j = Some x ->
    x = v /\ (i < n)%nat /\ (j < m)%nat.
Proof.
  intros A v x n m i j H. unfold pixel, full in H.
  destruct (nth_error (repeat (repeat v m) n) i) as [row|] eqn:Er;
    [|discriminate].
  assert (Hi : (i < n)%nat).
  { rewrite <- (repeat_length (repeat v m) n). apply nth_error_Some.
    now rewrite Er. }
  apply nth_error_In, repeat_spec in Er. subst row.
  assert (Hj : (j < m)%nat).
  { rewrite <- (repeat_length v m). apply nth_error_Some. now rewrite H. }
  apply nth_error_In, repeat_spec in H. now subst x.
Qed.

Lemma pixel_full_inside :
  forall (A : Type) (v : A) (n m i j : nat),
    (i < n)%nat -> (j < m)%nat -> pixel (full n m v) i j = Some v.
Proof.
  intros A v n m i j Hi Hj. unfold pixel, full.
  rewrite nth_error_repeat_inside by assumption.
  now apply nth_error_repeat_inside.
Qed.

Lemma pixel_slice2_assign :
  forall (A : Type) (a : list (list A)) (r0 r1 c0 c1 : Z) (v : A)
         (i j : nat),
    pixel (slice2_assign a r0 r1 c0 c1 v) i j =
    match nth_error a i with
    | Some row =>
        option_map
          (fun x =>
             if in_slice (Z.of_nat (length a)) r0 r1 (Z.of_nat i) &&
                in_slice (Z.of_nat (length row)) c0 c1 (Z.of_nat j)
             then v else x)
          (nth_error row j)
    | None => None
    end.
Proof.
  intros A a r0 r1 c0 c1 v i j. unfold pixel, slice2_assign, mapi.
  rewrite nth_error_mapi_from, Z.add_0_l.
  destruct (nth_error a i) as [row|]; cbn [option_map]; [|reflexivity].
  destruct (in_slice (Z.of_nat (length a)) r0 r1 (Z.of_nat i)); cbn [andb].
  - now rewrite nth_error_mapi_from, Z.add_0_l.
  - now destruct (nth_error row j).
Qed.

Lemma pixel_logical_or :
  forall (a b : list (list bool)) (i j : nat) (m : bool),
    pixel (logical_or a b) i j = Some m ->
    exists x y : bool,
      pixel a i j = Some x /\ pixel b i j = Some y /\ m = x || y.
Proof.
  intros a b i j m H. unfold logical_or in H. rewrite pixel_zip2d in H.
  destruct (pixel a i j) as [x|]; [|discriminate].
  destruct (pixel b i j) as [y|]; [|discriminate].
  injection H as <-. now exists x, y.
Qed.

Lemma pixel_getitem2 :
  forall (A : Type) (a : list (list A)) (i j : nat) (x : A),
    pixel a i j = Some x ->
    getitem2 a (Z.of_nat i) (Z.of_nat j) = Some x.
Proof.
  intros A a i j x H. unfold pixel in H. unfold getitem2.
  destruct (nth_error a i) as [row|] eqn:Er; [|discriminate].
  rewrite (getitem_nat _ _ Er). now apply getitem_nat.
Qed.

Lemma pixel_In_ravel :
  forall (A : Type) (a : list (list A)) (i j : nat) (x : A),
    pixel a i j = Some x -> In x (ravel a).
Proof.
  intros A a i j x H. unfold pixel in H. unfold ravel.
  destruct (nth_error a i) as [row|] eqn:Er; [|discriminate].
  apply in_concat. exists row. split; eapply nth_error_In; eassumption.
Qed.

Lemma In_ravel_pixel :
  forall (A : Type) (a : list (list A)) (x : A),
    In x (ravel a) -> exists i j : nat, pixel a i j = Some x.
Proof.
  intros A a x H. unfold ravel in H. apply in_concat in H.
  destruct H as [row [Hr Hx]].
  apply In_nth_error in Hr. destruct Hr as [i Hi].
  apply In_nth_error in Hx. destruct Hx as [j Hj].
  exists i, j. unfold pixel. now rewrite Hi.
Qed.

(** *** The mask of [data] *)

Lemma reliable_window_keeps_inputs :
  forall (arg : option Q) (st st1 : ImageData) (r : result (list (list bool))),
    reliable_window arg st = (r, st1) ->
    rawdata st1 = rawdata st /\ rawnan st1 = rawnan st /\
    conf st1 = conf st.
Proof.
  intros arg st st1 r H.
  pose proof (@keeps_reliable_window _
                (fun s => (rawdata s, rawnan s, conf s))
                (fun l s => eq_refl) arg st) as K.
  rewrite H in K. cbn [snd] in K. injection K as -> -> ->. now repeat split.
Qed.

Lemma in_slice_margin :
  forall len m i : Z,
    (0 < m)%Z -> (0 <= i < len)%Z ->
    in_slice len m (- m) i = ((m <=? i)%Z && (i <? len - m)%Z).
Proof.
  intros len m i Hm Hi. unfold in_slice, slice_bound.
  destruct (Z.ltb_spec m 0); [lia|].
  destruct (Z.ltb_spec (- m) 0); [|lia].
  destruct (Z.leb_spec (Z.min m len) i), (Z.leb_spec m i);
    destruct (Z.ltb_spec i (Z.max (- m + len) 0)),
             (Z.ltb_spec i (len - m)); cbn; try reflexivity; lia.
Qed.

(** X4.  The mask that [_get_data] builds: a pixel of [data] carries the
    raw value, and it is masked exactly when the reliable window masks it,
    or the margin or the radius is set and excludes it, or its value is
    zero, or it is a NaN.  With a positive [margin] every pixel less than
    [margin] from an edge is masked. *)
Theorem _get_data_mask :
  forall (st st' : ImageData) (data : marray) (i j : nat) (v : Q)
         (m : bool),
    _get_data_body st = (Ok data, st') ->
    pixel data i j = Some (v, m) ->
    exists (w : list (list bool)) (bw bn : bool),
      reliable_window None st = (Ok w, st') /\
      pixel (rawdata st) i j = Some v /\
      pixel w i j = Some bw /\
      pixel (rawnan st) i j = Some bn /\
      (m = true <->
       bw = true \/
       (margin (conf st) <> 0%Z /\
        in_slice (Z.of_nat (xdim st)) (margin (conf st))
                 (- margin (conf st)) (Z.of_nat i) &&
        in_slice (Z.of_nat (ydim st)) (margin (conf st))
                 (- margin (conf st)) (Z.of_nat j) = false) \/
       (truthy (radius (conf st)) = true /\
        pixel (circular_mask (xdim st) (ydim st) (radius (conf st))) i j =
        Some true) \/
       v == 0 \/ bn = true) /\
      ((0 < margin (conf st))%Z ->
       (Z.of_nat i < margin (conf st) \/
        Z.of_nat (xdim st) - margin (conf st) <= Z.of_nat i \/
        Z.of_nat j < margin (conf st) \/
        Z.of_nat (ydim st) - margin (conf st) <= Z.of_nat j)%Z ->
       m = true).
Proof.
  intros st st' data i j v m H Hp. unfold _get_data_body, bind in H.
  destruct (reliable_window None st) as [[w|e] st1] eqn:Ew; [|discriminate].
  destruct (reliable_window_keeps_inputs _ _ Ew) as [Hraw [Hnan Hconf]].
  cbn [self] in H. injection H as <- <-.
  unfold xdim, ydim in Hp. rewrite Hraw, Hnan, Hconf in Hp.
  fold (xdim st) in Hp. fold (ydim st) in Hp.
  unfold ma_array in Hp. rewrite pixel_zip2d in Hp.
  destruct (pixel (rawdata st) i j) as [v'|] eqn:Ev; [|discriminate].
  match type of Hp with
  | match pixel ?M _ _ with _ => _ end = _ =>
      destruct (pixel M i j) as [m'|] eqn:Em; [|discriminate]
  end.
  injection Hp as -> ->.
  apply pixel_logical_or in Em. destruct Em as [m4 [bn [Em4 [Ebn ->]]]].
  apply pixel_logical_or in Em4. destruct Em4 as [m3 [bz [Em3 [Ebz ->]]]].
  rewrite pixel_map2d, Ev in Ebz. cbn in Ebz. injection Ebz as <-.
  (* the margin, as the slice assignment leaves it *)
  assert (Hmargin :
            forall b : bool,
              pixel (slice2_assign (full (xdim st) (ydim st) true)
                       (margin (conf st)) (- margin (conf st))
                       (margin (conf st)) (- margin (conf st)) false) i j =
              Some b ->
              b = negb (in_slice (Z.of_nat (xdim st)) (margin (conf st))
                          (- margin (conf st)) (Z.of_nat i) &&
                        in_slice (Z.of_nat (ydim st)) (margin (conf st))
                          (- margin (conf st)) (Z.of_nat j)) /\
              (i < xdim st)%nat /\ (j < ydim st)%nat).
  { intros b Hb. rewrite pixel_slice2_assign in Hb. unfold full in Hb.
    destruct (nth_error (repeat (repeat true (ydim st)) (xdim st)) i)
      as [row|] eqn:Er; [|discriminate].
    assert (Hi : (i < xdim st)%nat).
    { rewrite <- (repeat_length (repeat true (ydim st)) (xdim st)).
      apply nth_error_Some. now rewrite Er. }
    apply nth_error_In, repeat_spec in Er. subst row.
    rewrite !repeat_length in Hb.
    destruct (nth_error (repeat true (ydim st)) j) as [x|] eqn:Ex;
      [|discriminate].
    assert (Hj : (j < ydim st)%nat).
    { rewrite <- (repeat_length true (ydim st)).
      apply nth_error_Some. now rewrite Ex. }
    apply nth_error_In, repeat_spec in Ex. subst x.
    cbn in Hb. injection Hb as <-.
    split; [now destruct (_ && _)|now split]. }
  (* the window, the margin and the radius *)
  assert (Hm3 :
            exists bw : bool,
              pixel w i j = Some bw /\
              (m3 = true <->
               bw = true \/
               (margin (conf st) <> 0%Z /\
                in_slice (Z.of_nat (xdim st)) (margin (conf st))
                         (- margin (conf st)) (Z.of_nat i) &&
                in_slice (Z.of_nat (ydim st)) (margin (conf st))
                         (- margin (conf st)) (Z.of_nat j) = false) \/
               (truthy (radius (conf st)) = true /\
                pixel (circular_mask (xdim st) (ydim st) (radius (conf st)))
                      i j = Some true)) /\
              (margin (conf st) <> 0%Z ->
               (i < xdim st)%nat /\ (j < ydim st)%nat)).
  { destruct (truthy (radius (conf st))) eqn:Er;
      destruct (Z.eqb_spec (margin (conf st)) 0) as [Hz|Hz]; cbn [negb] in Em3.
    - apply pixel_logical_or in Em3. destruct Em3 as [bw [bc [Hw [Hc ->]]]].
      exists bw. split; [exact Hw|]. split; [|contradiction].
      rewrite orb_true_iff. split.
      + intros [->| ->]; [now left|right; right; now split].
      + intros [->|[[Hn _]|[_ Hc']]]; [now left|contradiction|].
        rewrite Hc in Hc'. injection Hc' as ->. now right.
    - apply pixel_logical_or in Em3. destruct Em3 as [m2 [bc [Hm2 [Hc ->]]]].
      apply pixel_logical_or in Hm2. destruct Hm2 as [bw [bm [Hw [Hb ->]]]].
      apply Hmargin in Hb. destruct Hb as [Hb Hin].
      exists bw. split; [exact Hw|]. split; [|intros _; exact Hin].
      rewrite !orb_true_iff. split.
      + intros [[->|Hbm]| ->]; [now left| |right; right; now split].
        right; left. split; [exact Hz|]. subst bm.
        now apply negb_true_iff.
      + intros [->|[[_ Hs]|[_ Hc']]]; [now left; left| |].
        * left; right. subst bm. now apply negb_true_iff.
        * rewrite Hc in Hc'. injection Hc' as ->. now right.
    - exists m3. split; [exact Em3|]. split; [|contradiction]. split.
      + now left.
      + intros [->|[[Hn _]|[Hr _]]];
          [reflexivity|contradiction|discriminate].
    - apply pixel_logical_or in Em3. destruct Em3 as [bw [bm [Hw [Hb ->]]]].
      apply Hmargin in Hb. destruct Hb as [Hb Hin].
      exists bw. split; [exact Hw|]. split; [|intros _; exact Hin].
      rewrite orb_true_iff. split.
      + intros [->|Hbm]; [now left|].
        right; left. split; [exact Hz|]. subst bm.
        now apply negb_true_iff.
      + intros [->|[[_ Hs]|[Hr _]]]; [now left| |discriminate].
        right. subst bm. now apply negb_true_iff. }
  destruct Hm3 as [bw [Hw [Hm3 Hin]]].
  assert (Hiff :
            (m3 || Qeq_bool v 0) || bn = true <->
            bw = true \/
            (margin (conf st) <> 0%Z /\
             in_slice (Z.of_nat (xdim st)) (margin (conf st))
                      (- margin (conf st)) (Z.of_nat i) &&
             in_slice (Z.of_nat (ydim st)) (margin (conf st))
                      (- margin (conf st)) (Z.of_nat j) = false) \/
            (truthy (radius (conf st)) = true /\
             pixel (circular_mask (xdim st) (ydim st) (radius (conf st)))
                   i j = Some true) \/
            v == 0 \/ bn = true).
  { rewrite !orb_true_iff, Hm3, Qeq_bool_iff. split.
    - intros [[[H|[H|H]]|H]|H]; auto.
    - intros [H|[H|[H|[H|H]]]]; auto. }
  exists w, bw, bn. repeat split; try assumption; try apply Hiff.
  intros Hpos Hedge. apply Hiff. right; left.
  assert (Hz : margin (conf st) <> 0%Z) by lia.
  split; [exact Hz|]. destruct (Hin Hz) as [Hi Hj].
  rewrite !in_slice_margin by lia.
  destruct Hedge as [He|[He|[He|He]]].
  - destruct (Z.leb_spec (margin (conf st)) (Z.of_nat i)); [lia|reflexivity].
  - destruct (Z.ltb_spec (Z.of_nat i)
                (Z.of_nat (xdim st) - margin (conf st))); [lia|].
    now rewrite andb_false_r.
  - destruct (Z.leb_spec (margin (conf st)) (Z.of_nat j)); [lia|].
    now rewrite andb_false_r.
  - destruct (Z.ltb_spec (Z.of_nat j)
                (Z.of_nat (ydim st) - margin (conf st))); [lia|].
    now rewrite !andb_false_r.
Qed.


(** *** What [label_islands] labels and returns *)

(** X5.  The image that [label_islands] hands to [ndimage.label] holds
    only 0 and 1, and a pixel is 1 exactly when it is masked in none of
    the background-subtracted data, the analysis threshold map and the RMS
    map, lies above the analysis threshold and has an RMS of at least
    [RMS_FILTER] times the median RMS: a masked pixel is never part of an
    island. *)
Theorem clipped_data_pixel :
  forall (data_bgsubbed analysisthresholdmap rmsmap : marray) (i j : nat)
         (c : Z),
    pixel (clipped_data data_bgsubbed analysisthresholdmap rmsmap) i j =
    Some c ->
    exists (x y z : Q) (mx my mz : bool),
      pixel data_bgsubbed i j = Some (x, mx) /\
      pixel analysisthresholdmap i j = Some (y, my) /\
      pixel rmsmap i j = Some (z, mz) /\
      (c = 0 \/ c = 1)%Z /\
      (c = 1%Z <->
       mx = false /\ my = false /\ mz = false /\
       y < x /\ RMS_FILTER * np_median rmsmap <= z).
Proof.
  intros d a r i j c H. unfold clipped_data in H.
  rewrite pixel_map2d, !pixel_zip2d, pixel_map2d in H.
  destruct (pixel d i j) as [[x mx]|]; [|discriminate].
  destruct (pixel a i j) as [[y my]|]; [|discriminate].
  destruct (pixel r i j) as [[z mz]|]; [|discriminate].
  cbn in H. injection H as <-.
  exists x, y, z, mx, my, mz. repeat split; try reflexivity.
  - destruct (_ || _); [now left|]. destruct (_ && _); [now right|now left].
  - destruct mx; [cbn in H; discriminate|reflexivity].
  - destruct mx, my; try reflexivity; cbn in H; discriminate.
  - destruct mx, my, mz; try reflexivity; cbn in H; discriminate.
  - destruct mx, my, mz; cbn in H; try discriminate.
    destruct (Qgtb x y) eqn:E; [now apply Qgtb_true|].
    cbn in H. discriminate.
  - destruct mx, my, mz; cbn in H; try discriminate.
    destruct (Qgtb x y); [|cbn in H; discriminate].
    destruct (Qgeb z (RMS_FILTER * np_median r)) eqn:E;
      [now apply Qle_bool_iff|cbn in H; discriminate].
  - intros [-> [-> [-> [Hx Hz]]]]. cbn.
    apply Qgtb_true in Hx. rewrite Hx.
    apply Qle_bool_iff in Hz. unfold Qgeb. now rewrite Hz.
Qed.

Lemma map_fst_filter_pairs :
  forall (A B : Type) (g : A -> B) (q : A * B -> bool) (l : list A),
    map fst (filter q (map (fun x => (x, g x)) l)) =
    filter (fun x => q (x, g x)) l.
Proof.
  intros A B g q. induction l as [|x l IH]; [reflexivity|].
  cbn [map filter]. destruct (q (x, g x)); cbn [map fst]; now rewrite IH.
Qed.

Lemma StronglySorted_filter :
  forall (A : Type) (R : A -> A -> Prop) (q : A -> bool) (l : list A),
    StronglySorted R l -> StronglySorted R (filter q l).
Proof.
  intros A R q. induction l as [|x l IH]; intros H; [constructor|].
  apply StronglySorted_inv in H. destruct H as [Hs Hx].
  cbn [filter]. destruct (q x); [|now apply IH].
  constructor; [now apply IH|].
  apply Forall_forall. intros y Hy. apply filter_In in Hy.
  rewrite Forall_forall in Hx. now apply Hx.
Qed.

Lemma StronglySorted_arange1 :
  forall n : Z, StronglySorted Z.lt (arange1 n).
Proof.
  intros n. unfold arange1. generalize 0%nat as s.
  induction (Z.to_nat n) as [|m IH]; intros s; [constructor|].
  cbn [seq map]. constructor; [apply IH|].
  apply Forall_forall. intros y Hy. apply in_map_iff in Hy.
  destruct Hy as [k [<- Hk]]. apply in_seq in Hk. lia.
Qed.

(** X6.  What [label_islands] returns once the components are labelled:
    the list of labels is strictly increasing and lies within 1 ..
    [num_labels]; the returned map has a pixel wherever the labelled map
    has one, and that pixel is the original label if the label is in the
    list and 0 otherwise, so no pixel carries a label that was left out. *)
Theorem label_islands_labels_and_map :
  forall (se : list (list Z))
         (data_bgsubbed rmsmap detectionthresholdmap analysisthresholdmap
            : marray)
         (labelled relabelled : list (list Z)) (num_labels : Z)
         (labels : list Z),
    ndimage_label (clipped_data data_bgsubbed analysisthresholdmap rmsmap) se
      = (labelled, num_labels) ->
    label_islands_of se data_bgsubbed rmsmap detectionthresholdmap
      analysisthresholdmap = Ok (labels, relabelled) ->
    StronglySorted Z.lt labels /\
    (forall L : Z, In L labels -> (1 <= L <= num_labels)%Z) /\
    shape relabelled = shape labelled /\
    forall (i j : nat) (L : Z),
      pixel labelled i j = Some L ->
      (In L labels -> pixel relabelled i j = Some L) /\
      (~ In L labels -> pixel relabelled i j = Some 0%Z).
Proof.
  intros se d rms det anl labelled relabelled n labels Hlab H.
  unfold label_islands_of in H. rewrite Hlab in H.
  destruct (0 <? n)%Z; [|discriminate].
  unfold ndimage_maximum in H.
  set (g := fun label : Z =>
              list_max 0 (values_of_label (above_det_thr d det)
                                          labelled label)) in H.
  pose proof (in_split_labels_above g n) as Hin.
  assert (Hsorted : StronglySorted Z.lt
                      (snd (split_labels (map g (arange1 n))))).
  { unfold split_labels.
    rewrite split_labels_filter, enumerate1_arange1. cbn [snd app].
    rewrite map_fst_filter_pairs.
    apply StronglySorted_filter, StronglySorted_arange1. }
  destruct (split_labels (map g (arange1 n))) as [below above].
  cbn [snd] in Hin, Hsorted. injection H as <- <-.
  split; [exact Hsorted|]. split; [intros L HL; now apply Hin|]. split.
  - unfold keep_labels, map2d, shape. rewrite length_map.
    destruct labelled as [|row rows]; [reflexivity|].
    cbn [map]. now rewrite length_map.
  - intros i j L HL. unfold keep_labels. rewrite pixel_map2d, HL.
    cbn [option_map]. split; intros HinL.
    + apply existsb_Zeqb in HinL. now rewrite HinL.
    + destruct (existsb (Z.eqb L) above) eqn:E; [|reflexivity].
      apply existsb_Zeqb in E. contradiction.
Qed.

(** X7.  When the RMS map has an unmasked pixel and [ndimage.label] finds
    no component (no pixel above the analysis threshold),
    [label_islands] does not return an empty result: the list of labels
    was never assigned and UnboundLocalError is raised. *)
Theorem label_islands_nothing_labelled :
  forall (detectionthresholdmap analysisthresholdmap rmsmap data_bgsubbed
            : marray)
         (st st1 st2 : ImageData) (labelled : list (list Z))
         (num_labels : Z),
    _get_rm st = (Ok rmsmap, st1) ->
    ma_compressed rmsmap <> [] ->
    _get_data_bgsubbed st1 = (Ok data_bgsubbed, st2) ->
    ndimage_label
      (clipped_data data_bgsubbed analysisthresholdmap rmsmap)
      (structuring_element (conf st2)) = (labelled, num_labels) ->
    (num_labels <= 0)%Z ->
    label_islands detectionthresholdmap analysisthresholdmap st =
    (Raise (UnboundLocalError "labels_above_det_thr"), st2).
Proof.
  intros det anl rms d st st1 st2 labelled n Hrms Hne Hd Hlab Hn.
  unfold label_islands. rewrite (@bind_ok _ _ _ _ _ _ _ Hrms).
  destruct (ma_compressed rms) as [|x l] eqn:E; [congruence|].
  cbn [length Nat.eqb]. rewrite (@bind_ok _ _ _ _ _ _ _ Hd), bind_self.
  unfold lift, label_islands_of. rewrite Hlab.
  destruct (Z.ltb_spec 0 n); [lia|reflexivity].
Qed.

(** *** Images without usable pixels *)

Lemma In_mapi_from :
  forall (A B : Type) (f : Z -> A -> B) (l : list A) (k : Z) (y : B),
    In y (mapi_from f k l) <->
    exists (n : nat) (x : A),
      nth_error l n = Some x /\ y = f (k + Z.of_nat n)%Z x.
Proof.
  intros A B f l k y. split.
  - intros H. apply In_nth_error in H. destruct H as [n Hn].
    rewrite nth_error_mapi_from in Hn.
    destruct (nth_error l n) as [x|] eqn:E; [|discriminate].
    injection Hn as <-. now exists n, x.
  - intros [n [x [Hn ->]]]. apply nth_error_In with (n := n).
    now rewrite nth_error_mapi_from, Hn.
Qed.

Lemma coords_where_nil :
  forall (A : Type) (p : A -> bool) (a : list (list A)),
    coords_where p a = [] <->
    forall x : A, In x (ravel a) -> p x = false.
Proof.
  intros A p a. unfold coords_where, mapi. rewrite concat_nil_Forall.
  rewrite Forall_forall. split.
  - intros H x Hx. apply In_ravel_pixel in Hx. destruct Hx as [i [j Hx]].
    unfold pixel in Hx.
    destruct (nth_error a i) as [row|] eqn:Er; [|discriminate].
    specialize (H (concat (mapi_from
                             (fun j x => if p x then [(0 + Z.of_nat i, j)%Z]
                                         else []) 0 row))).
    assert (Hin : In (concat (mapi_from
                                (fun j x =>
                                   if p x then [(0 + Z.of_nat i, j)%Z]
                                   else []) 0 row))
                     (mapi_from
                        (fun i row =>
                           concat (mapi_from
                                     (fun j x => if p x then [(i, j)] else [])
                                     0 row)) 0 a)).
    { apply In_mapi_from. now exists i, row. }
    apply H in Hin. rewrite concat_nil_Forall, Forall_forall in Hin.
    destruct (p x) eqn:Ep; [|reflexivity].
    specialize (Hin [(0 + Z.of_nat i, 0 + Z.of_nat j)%Z]).
    assert (Hc : [(0 + Z.of_nat i, 0 + Z.of_nat j)%Z] = []);
      [|discriminate].
    apply Hin. apply In_mapi_from. exists j, x. now rewrite Ep.
  - intros H cs Hcs. apply In_mapi_from in Hcs.
    destruct Hcs as [i [row [Hr ->]]].
    apply concat_nil_Forall, Forall_forall. intros c Hc.
    apply In_mapi_from in Hc. destruct Hc as [j [x [Hx ->]]].
    rewrite (H x); [reflexivity|].
    apply (@pixel_In_ravel _ a i j). unfold pixel. now rewrite Hr.
Qed.

Lemma find_objects_unmasked_cases :
  forall mask : list (list bool),
    (find_objects_unmasked mask = [] /\
     forall b : bool, In b (ravel mask) -> b = true) \/
    (exists c : chunk_t,
        find_objects_unmasked mask = [c] /\
        exists b : bool, In b (ravel mask) /\ b = false).
Proof.
  intros mask. unfold find_objects_unmasked.
  destruct (coords_where negb mask) as [|[i j] rest] eqn:E.
  - left. split; [reflexivity|]. intros b Hb.
    apply coords_where_nil with (x := b) in E; [|exact Hb].
    now apply negb_false_iff.
  - right. cbn [bounding_box]. eexists. split; [reflexivity|].
    destruct (existsb negb (ravel mask)) eqn:Ex.
    + apply existsb_exists in Ex. destruct Ex as [b [Hb Hn]].
      exists b. split; [exact Hb|now apply negb_true_iff].
    + assert (Hnil : coords_where negb mask = []).
      { apply coords_where_nil. intros x Hx.
        destruct (negb x) eqn:En; [|reflexivity].
        assert (existsb negb (ravel mask) = true)
          by (apply existsb_exists; now exists x).
        congruence. }
      congruence.
Qed.

Lemma In_ravel_ma_mask :
  forall (data : marray) (b : bool),
    In b (ravel (ma_mask data)) <->
    exists x : Q, In (x, b) (ravel data).
Proof.
  intros data b. unfold ma_mask, map2d, ravel.
  rewrite <- concat_map, in_map_iff. split.
  - intros [[x m] [E H]]. cbn in E. subst m. now exists x.
  - intros [x H]. now exists (x, b).
Qed.

(** X8.  [__grids] on the masked data: AssertionError is raised exactly
    when every pixel of the data is masked; with an unmasked pixel the
    only other failure is a tile size of zero. *)
Theorem grids_of_all_masked :
  forall (data : marray) (back_sizex back_sizey : nat) (beam : Q * Q * Q),
    (grids_of data back_sizex back_sizey beam = Raise AssertionError <->
     forall p : Q * bool, In p (ravel data) -> snd p = true) /\
    ((exists p : Q * bool, In p (ravel data) /\ snd p = false) ->
     back_sizex <> 0%nat -> back_sizey <> 0%nat ->
     exists g : grids_t, grids_of data back_sizex back_sizey beam = Ok g).
Proof.
  intros data bsx bsy beam. unfold grids_of.
  destruct (find_objects_unmasked_cases (ma_mask data))
    as [[-> Hall]|[c [-> [b [Hb ->]]]]].
  - split.
    + split; [|reflexivity]. intros _ [x m] Hp. cbn.
      apply Hall, In_ravel_ma_mask. now exists x.
    + intros [[x m] [Hp Hm]]. cbn in Hm. subst m.
      assert (false = true); [|discriminate].
      apply Hall, In_ravel_ma_mask. now exists x.
  - apply In_ravel_ma_mask in Hb. destruct Hb as [x Hx].
    destruct (ma_shape (ma_slice data c)) as [mx my]. split.
    + split.
      * destruct ((bsx =? 0)%nat || (bsy =? 0)%nat); discriminate.
      * intros H. apply H in Hx. discriminate.
    + intros _ Hbx Hby.
      apply Nat.eqb_neq in Hbx, Hby. rewrite Hbx, Hby. cbn [orb].
      eexists. reflexivity.
Qed.

Lemma _get_data_miss :
  forall (st st1 : ImageData) (data : marray),
    memo_data (cache st) = None ->
    _get_data st = (Ok data, st1) ->
    exists st0 : ImageData, _get_data_body st = (Ok data, st0).
Proof.
  intros st st1 data Hm H. unfold _get_data, memoize in H.
  rewrite Hm in H.
  destruct (_get_data_body st) as [[v|e] st0]; [|discriminate].
  injection H as -> _. now exists st0.
Qed.

Lemma _get_data_body_values :
  forall (st st' : ImageData) (data : marray) (v : Q) (m : bool),
    _get_data_body st = (Ok data, st') ->
    In (v, m) (ravel data) -> In v (ravel (rawdata st)).
Proof.
  intros st st' data v m H Hin. unfold _get_data_body, bind in H.
  destruct (reliable_window None st) as [[w|e] st1] eqn:Ew; [|discriminate].
  destruct (reliable_window_keeps_inputs _ _ Ew) as [Hraw _].
  cbn [self] in H. injection H as <- _. rewrite Hraw in Hin.
  apply In_ravel_pixel in Hin. destruct Hin as [i [j Hp]].
  unfold ma_array in Hp. rewrite pixel_zip2d in Hp.
  destruct (pixel (rawdata st) i j) as [x|] eqn:Ex; [|discriminate].
  match type of Hp with
  | match pixel ?M _ _ with _ => _ end = _ =>
      destruct (pixel M i j) as [y|]; [|discriminate]
  end.
  injection Hp as -> _. now apply pixel_In_ravel in Ex.
Qed.

Lemma grids_of_no_data :
  forall (data : marray) (back_sizex back_sizey : nat) (beam : Q * Q * Q),
    (forall p : Q * bool, In p (ravel data) -> snd p = true) ->
    grids_of data back_sizex back_sizey beam = Raise AssertionError.
Proof.
  intros data bsx bsy beam Hall. unfold grids_of.
  destruct (find_objects_unmasked_cases (ma_mask data))
    as [[-> _]|[c [_ [b [Hb ->]]]]]; [reflexivity|].
  apply In_ravel_ma_mask in Hb. destruct Hb as [x Hx].
  apply Hall in Hx. discriminate.
Qed.

(** X9.  An image whose pixels are all zero has no usable data: with
    nothing cached, and whenever [data] itself can be read, reading
    [grids] raises AssertionError, and so does reading [rmsmap] or
    [backmap] when the user has not set that map. *)
Theorem blank_image_has_no_grids :
  forall (st st1 : ImageData) (data : marray),
    (forall x : Q, In x (ravel (rawdata st)) -> x == 0) ->
    memo_data (cache st) = None ->
    memo_grids (cache st) = None ->
    _get_data st = (Ok data, st1) ->
    _grids st = (Raise AssertionError, st1) /\
    (memo_rmsmap (cache st) = None -> user_noisemap (cache st) = None ->
     _get_rm st = (Raise AssertionError, st1)) /\
    (memo_backmap (cache st) = None -> user_backmap (cache st) = None ->
     _backmap st = (Raise AssertionError, st1)).
Proof.
  intros st st1 data Hzero Hmd Hmg Hdata.
  assert (Hmasked : forall p : Q * bool, In p (ravel data) -> snd p = true).
  { destruct (_get_data_miss _ Hmd Hdata) as [st0 Hbody].
    intros [v m] Hp. cbn [snd]. destruct m; [reflexivity|].
    exfalso. apply (@_get_data_body_zero_masked _ _ _ Hbody v Hp).
    apply Hzero. exact (@_get_data_body_values _ _ _ _ _ Hbody Hp). }
  assert (Hgrids : _grids st = (Raise AssertionError, st1)).
  { unfold _grids, memoize. rewrite Hmg. unfold __grids.
    rewrite (@bind_ok _ _ _ _ _ _ _ Hdata), bind_self. unfold lift.
    now rewrite (@grids_of_no_data data _ _ _ Hmasked). }
  split; [exact Hgrids|]. split.
  - intros Hm Hu. unfold _get_rm, memoize. rewrite Hm, bind_self, Hu.
    now rewrite (@bind_raise _ _ _ _ _ _ _ Hgrids).
  - intros Hm Hu. unfold _backmap, memoize. rewrite Hm, bind_self, Hu.
    now rewrite (@bind_raise _ _ _ _ _ _ _ Hgrids).
Qed.

(** *** The shape of the grids *)

Lemma length_xrange :
  forall stop step : nat,
    length (xrange stop step) = ((stop + step - 1) / step)%nat.
Proof. intros stop step. unfold xrange. now rewrite length_map, length_seq. Qed.

Lemma pixel_tiles :
  forall (A : Type) (f : nat -> nat -> A) (xs ys : list nat)
         (ti tj x y : nat),
    nth_error xs ti = Some x -> nth_error ys tj = Some y ->
    pixel (map (fun sx => map (fun sy => f sx sy) ys) xs) ti tj =
    Some (f x y).
Proof.
  intros A f xs ys ti tj x y Hx Hy. unfold pixel.
  rewrite nth_error_map, Hx. cbn [option_map].
  now rewrite nth_error_map, Hy.
Qed.

(** X10.  When [__grids] returns, the data has an unmasked pixel and both
    tile sizes are non-zero; each grid has ceil(rows / back_sizex) rows of
    ceil(columns / back_sizey) entries, counted on the bounding box of the
    unmasked pixels; an entry is masked exactly when its value is zero;
    and a tile without a non-zero unmasked pixel gives a masked zero in
    both grids. *)
Theorem grids_shape_and_mask :
  forall (data : marray) (back_sizex back_sizey : nat) (beam : Q * Q * Q)
         (g : grids_t),
    grids_of data back_sizex back_sizey beam = Ok g ->
    exists useful_chunk : chunk_t,
      find_objects_unmasked (ma_mask data) = [useful_chunk] /\
      back_sizex <> 0%nat /\ back_sizey <> 0%nat /\
      let useful_data := ma_slice data useful_chunk in
      let my_xdim := fst (ma_shape useful_data) in
      let my_ydim := snd (ma_shape useful_data) in
      let nx := ((my_xdim + back_sizex - 1) / back_sizex)%nat in
      let ny := ((my_ydim + back_sizey - 1) / back_sizey)%nat in
      length (grid_rms g) = nx /\ length (grid_bg g) = nx /\
      (forall row : list (Q * bool),
          In row (grid_rms g) \/ In row (grid_bg g) -> length row = ny) /\
      (forall p : Q * bool,
          In p (ravel (grid_rms g)) \/ In p (ravel (grid_bg g)) ->
          (snd p = true <-> fst p == 0)) /\
      (forall ti tj : nat,
          (ti * back_sizex < my_xdim)%nat ->
          (tj * back_sizey < my_ydim)%nat ->
          ma_any (tile useful_data back_sizex back_sizey
                       (ti * back_sizex) (tj * back_sizey)) = false ->
          pixel (grid_rms g) ti tj = Some (0, true) /\
          pixel (grid_bg g) ti tj = Some (0, true)).
Proof.
  intros data bsx bsy beam g H. unfold grids_of in H.
  destruct (find_objects_unmasked (ma_mask data)) as [|uc [|c' l]];
    try discriminate.
  exists uc. split; [reflexivity|]. cbv zeta.
  destruct (ma_shape (ma_slice data uc)) as [mx my] eqn:Hshape.
  destruct (Nat.eqb_spec bsx 0) as [Hx|Hx]; [discriminate|].
  destruct (Nat.eqb_spec bsy 0) as [Hy|Hy]; [discriminate|].
  cbn [orb] in H. injection H as <-.
  split; [exact Hx|]. split; [exact Hy|].
  cbn [fst snd grid_rms grid_bg]. unfold masked_grid, map2d.
  rewrite !length_map, length_xrange.
  split; [reflexivity|]. split; [reflexivity|]. split; [|split].
  - intros row [Hr|Hr];
      repeat (apply in_map_iff in Hr; destruct Hr as [? [<- Hr]]);
      now rewrite !length_map, length_xrange.
  - assert (Hcell : forall c : cell,
               snd (cell_value c, Qeq_bool (cell_value c) 0) = true <->
               fst (cell_value c, Qeq_bool (cell_value c) 0) == 0)
      by (intros c; cbn [fst snd]; apply Qeq_bool_iff).
    intros p [Hp|Hp]; unfold ravel in Hp; apply in_concat in Hp;
      destruct Hp as [row [Hr Hp]];
      apply in_map_iff in Hr; destruct Hr as [cells [<- Hr]];
      apply in_map_iff in Hp; destruct Hp as [c [<- Hc]]; apply Hcell.
  - intros ti tj Hti Htj Hany.
    assert (Hcells :
              pixel (map (fun startx =>
                            map (fun starty =>
                                   grid_cell beam
                                     (tile (ma_slice data uc) bsx bsy
                                           startx starty))
                                (xrange my bsy)) (xrange mx bsx)) ti tj =
              Some (CFalse, CFalse)).
    { rewrite (@pixel_tiles _
                 (fun sx sy => grid_cell beam (tile (ma_slice data uc)
                                                    bsx bsy sx sy))
                 (xrange mx bsx) (xrange my bsy) ti tj
                 (ti * bsx)%nat (tj * bsy)%nat)
        by (apply nth_error_xrange; lia).
      unfold grid_cell. now rewrite Hany. }
    fold (map2d (@fst cell cell)
            (map (fun startx =>
                    map (fun starty =>
                           grid_cell beam
                             (tile (ma_slice data uc) bsx bsy startx starty))
                        (xrange my bsy)) (xrange mx bsx))).
    fold (map2d (@snd cell cell)
            (map (fun startx =>
                    map (fun starty =>
                           grid_cell beam
                             (tile (ma_slice data uc) bsx bsy startx starty))
                        (xrange my bsy)) (xrange mx bsx))).
    fold (map2d (fun c => (cell_value c, Qeq_bool (cell_value c) 0))
            (map2d (@fst cell cell)
               (map (fun startx =>
                       map (fun starty =>
                              grid_cell beam
                                (tile (ma_slice data uc) bsx bsy
                                      startx starty))
                           (xrange my bsy)) (xrange mx bsx)))).
    fold (map2d (fun c => (cell_value c, Qeq_bool (cell_value c) 0))
            (map2d (@snd cell cell)
               (map (fun startx =>
                       map (fun starty =>
                              grid_cell beam
                                (tile (ma_slice data uc) bsx bsy
                                      startx starty))
                           (xrange my bsy)) (xrange mx bsx)))).
    rewrite !pixel_map2d, Hcells. split; reflexivity.
Qed.

(** *** The interpolated maps *)

Lemma shape_map2d :
  forall (A B : Type) (f : A -> B) (a : list (list A)),
    shape (map2d f a) = shape a.
Proof.
  intros A B f [|row rows]; [reflexivity|].
  unfold shape, map2d. cbn [map length]. now rewrite !length_map.
Qed.

Lemma shape_full_shape :
  forall (A B : Type) (a : list (list A)) (v : B),
    shape (full (fst (shape a)) (snd (shape a)) v) = shape a.
Proof.
  intros A B [|row rows] v; [reflexivity|].
  unfold shape, full. cbn [fst snd length repeat].
  now rewrite !repeat_length.
Qed.

Lemma shape_block_assign :
  forall (a b r : list (list Q)) (c : chunk_t),
    block_assign a c b = Ok r -> shape r = shape a.
Proof.
  intros a b r c H. unfold block_assign in H.
  destruct (_ && _); [|discriminate]. injection H as <-.
  unfold shape, mapi. rewrite length_mapi_from.
  destruct a as [|row rows]; [reflexivity|]. cbn [mapi_from].
  destruct (in_slice _ _ _ 0); [|reflexivity].
  now rewrite length_mapi_from.
Qed.

Lemma all_masked_forallb :
  forall grid : marray,
    forallb (fun b : bool => b) (ravel (ma_mask grid)) = true <->
    forall p : Q * bool, In p (ravel grid) -> snd p = true.
Proof.
  intros grid. rewrite forallb_forall. split.
  - intros H [x m] Hp. cbn. apply H, In_ravel_ma_mask. now exists x.
  - intros H b Hb. apply In_ravel_ma_mask in Hb. destruct Hb as [x Hx].
    exact (H _ Hx).
Qed.

Lemma In_ravel_map2d :
  forall (A B : Type) (f : A -> B) (a : list (list A)) (y : B),
    In y (ravel (map2d f a)) -> exists x : A, In x (ravel a) /\ y = f x.
Proof.
  intros A B f a y H. unfold ravel, map2d in H.
  rewrite <- concat_map in H. apply in_map_iff in H.
  destruct H as [x [<- Hx]]. now exists x.
Qed.

(** X11.  The map that [_interpolate] returns (median filter off, the
    default) has the shape of the data and leaves the object as the read
    of [data] left it.  If every entry of the grid is masked, every pixel
    of the map is masked.  Otherwise no pixel is masked, and with
    [roundup] no value lies below the smallest unmasked entry of the
    grid. *)
Theorem _interpolate_map :
  forall (grid : marray) (roundup : bool) (st st1 st' : ImageData)
         (data m : marray),
    median_filter (conf st) = 0%Z ->
    _get_data st = (Ok data, st1) ->
    _interpolate grid roundup st = (Ok m, st') ->
    st' = st1 /\
    ma_shape m = ma_shape data /\
    ((forall p : Q * bool, In p (ravel grid) -> snd p = true) ->
     forall q : Q * bool, In q (ravel m) -> snd q = true) /\
    ((exists p : Q * bool, In p (ravel grid) /\ snd p = false) ->
     (forall q : Q * bool, In q (ravel m) -> snd q = false) /\
     (roundup = true ->
      forall q : Q * bool,
        In q (ravel m) -> list_min 0 (ma_compressed grid) <= fst q)).
Proof.
  intros grid roundup st st1 st' data m Hf Hdata H.
  unfold _interpolate in H.
  rewrite bind_self, (@bind_ok _ _ _ _ _ _ _ Hdata) in H.
  destruct (find_objects_unmasked (ma_mask data)) as [|uc [|c' l]];
    try discriminate.
  destruct (ma_shape (ma_slice data uc)) as [mx my].
  rewrite Hf in H. cbn [Z.eqb negb] in H.
  destruct ((back_sizex (conf st) =? 0)%nat || (back_sizey (conf st) =? 0)%nat);
    [discriminate|].
  unfold bind, lift in H.
  destruct (block_assign _ uc _) as [my_map|e] eqn:Eb; [|discriminate].
  apply shape_block_assign in Eb. unfold ma_shape in Eb.
  rewrite shape_full_shape in Eb. fold (ma_shape data) in Eb.
  destruct (forallb (fun b : bool => b) (ravel (ma_mask grid))) eqn:Eall.
  - injection H as <- <-. split; [reflexivity|]. split.
    { unfold ma_shape. now rewrite shape_map2d. }
    split.
    + intros _ q Hq. apply In_ravel_map2d in Hq.
      destruct Hq as [x [_ ->]]. reflexivity.
    + intros [p [Hp Hm]].
      rewrite (proj1 (all_masked_forallb grid) Eall p Hp) in Hm.
      discriminate.
  - assert (Hsome : ~ forall p : Q * bool, In p (ravel grid) -> snd p = true).
    { intros Hall. apply (proj2 (all_masked_forallb grid)) in Hall.
      congruence. }
    destruct roundup.
    + injection H as <- <-. split; [reflexivity|]. split.
      { unfold ma_shape, of_ndarray. now rewrite !shape_map2d. }
      split; [intros Hall; contradiction|]. intros _. split.
      * intros q Hq. unfold of_ndarray in Hq. apply In_ravel_map2d in Hq.
        destruct Hq as [x [_ ->]]. reflexivity.
      * intros _ q Hq. unfold of_ndarray in Hq. apply In_ravel_map2d in Hq.
        destruct Hq as [x [Hx ->]]. cbn [fst].
        apply In_ravel_map2d in Hx. destruct Hx as [y [_ ->]].
        unfold Qgeb. destruct (Qle_bool _ y) eqn:E.
        -- now apply Qle_bool_iff.
        -- apply Qle_refl.
    + injection H as <- <-. split; [reflexivity|]. split.
      { unfold ma_shape, of_ndarray. now rewrite shape_map2d. }
      split; [intros Hall; contradiction|]. intros _. split.
      * intros q Hq. unfold of_ndarray in Hq. apply In_ravel_map2d in Hq.
        destruct Hq as [x [_ ->]]. reflexivity.
      * discriminate.
Qed.

(** *** Maps supplied to [extract] *)

Lemma shape_eqb_refl : forall s : nat * nat, shape_eqb s s = true.
Proof. intros [a b]. unfold shape_eqb. cbn. now rewrite !Nat.eqb_refl. Qed.

Lemma fold_left_Qmin_mem :
  forall (l : list Q) (x : Q),
    fold_left Qmin l x = x \/ In (fold_left Qmin l x) l.
Proof.
  induction l as [|z l IH]; intros x; cbn [fold_left]; [now left|].
  destruct (IH (Qmin x z)) as [H|H]; [|right; now right].
  rewrite H. unfold Qmin. destruct (Qle_bool x z); [now left|right; now left].
Qed.

Lemma list_min_nonneg :
  forall l : list Q,
    (forall x : Q, In x l -> 0 <= x) -> Qltb (list_min 0 l) 0 = false.
Proof.
  intros [|y l] H; apply Qltb_false; cbn [list_min]; [apply Qle_refl|].
  destruct (fold_left_Qmin_mem l y) as [->|Hin]; apply H;
    [now left|now right].
Qed.

Lemma _set_backmap_run :
  forall (bg : marray) (st : ImageData),
    _set_backmap bg st = (Ok tt, snd (_set_backmap bg st)) /\
    user_backmap (cache (snd (_set_backmap bg st))) = Some bg /\
    memo_backmap (cache (snd (_set_backmap bg st))) = None /\
    memo_data_bgsubbed (cache (snd (_set_backmap bg st))) = None.
Proof.
  intros bg [raw nan w b s c l]. destruct c. repeat split.
Qed.

Lemma _set_rm_run :
  forall (nm : marray) (st : ImageData),
    _set_rm nm st = (Ok tt, snd (_set_rm nm st)) /\
    user_noisemap (cache (snd (_set_rm nm st))) = Some nm /\
    memo_rmsmap (cache (snd (_set_rm nm st))) = None /\
    user_backmap (cache (snd (_set_rm nm st))) = user_backmap (cache st).
Proof.
  intros nm [raw nan w b s c l]. destruct c. repeat split.
Qed.

Lemma install_bgmap_accepts :
  forall (bg backmap : marray) (st st1 : ImageData),
    _backmap st = (Ok backmap, st1) ->
    ma_shape bg = ma_shape backmap ->
    install_bgmap (Some bg) st = (Ok tt, snd (_set_backmap bg st1)).
Proof.
  intros bg backmap st st1 Hb Hs. unfold install_bgmap.
  rewrite (@bind_ok _ _ _ _ _ _ _ Hb), Hs, shape_eqb_refl. cbn [negb].
  apply _set_backmap_run.
Qed.

Lemma install_noisemap_accepts :
  forall (nm rms : marray) (st st1 : ImageData),
    _get_rm st = (Ok rms, st1) ->
    ma_shape nm = ma_shape rms ->
    (forall x : Q, In x (ma_compressed nm) -> 0 <= x) ->
    install_noisemap (Some nm) st = (Ok tt, snd (_set_rm nm st1)).
Proof.
  intros nm rms st st1 Hr Hs Hpos. unfold install_noisemap.
  rewrite (@bind_ok _ _ _ _ _ _ _ Hr), Hs, shape_eqb_refl. cbn [negb].
  rewrite (list_min_nonneg _ Hpos). apply _set_rm_run.
Qed.

(** X12.  A map that passes the checks of [extract] is installed: a
    background map with the shape of the current one replaces it, and
    [backmap] then reads it, with [data_bgsubbed] to be computed afresh; a
    noise map with the shape of the current RMS map and no negative
    unmasked value replaces that, and [rmsmap] then reads it. *)
Theorem valid_override_is_installed :
  forall (m current : marray) (st st1 : ImageData),
    ma_shape m = ma_shape current ->
    (_backmap st = (Ok current, st1) ->
     exists st2 : ImageData,
       install_bgmap (Some m) st = (Ok tt, st2) /\
       fst (_backmap st2) = Ok m /\
       memo_data_bgsubbed (cache st2) = None) /\
    (_get_rm st = (Ok current, st1) ->
     (forall x : Q, In x (ma_compressed m) -> 0 <= x) ->
     exists st2 : ImageData,
       install_noisemap (Some m) st = (Ok tt, st2) /\
       fst (_get_rm st2) = Ok m).
Proof.
  intros m current st st1 Hs. split.
  - intros Hb. exists (snd (_set_backmap m st1)).
    destruct (_set_backmap_run m st1) as [_ [Hu [Hm Hd]]].
    split; [now apply install_bgmap_accepts with (backmap := current)|].
    split; [|exact Hd].
    now rewrite (@_backmap_override _ m Hm Hu).
  - intros Hr Hpos. exists (snd (_set_rm m st1)).
    destruct (_set_rm_run m st1) as [_ [Hu [Hm _]]].
    split; [now apply install_noisemap_accepts with (rms := current)|].
    now rewrite (@_get_rm_override _ m Hm Hu).
Qed.

Lemma install_bgmap_installed :
  forall (bg : marray) (st st1 : ImageData),
    install_bgmap (Some bg) st = (Ok tt, st1) ->
    user_backmap (cache st1) = Some bg.
Proof.
  intros bg st st1 H. unfold install_bgmap, bind in H.
  destruct (_backmap st) as [[backmap|e] st0]; [|discriminate].
  destruct (negb _); [discriminate|].
  destruct (_set_backmap_run bg st0) as [Hrun [Hu _]].
  rewrite Hrun in H. injection H as <-. exact Hu.
Qed.

(** X13.  The maps are checked and installed one after the other: when
    [extract] accepts the background map and then rejects the noise map,
    it raises, and the object keeps the new background map. *)
Theorem extract_keeps_accepted_bgmap :
  forall (st st1 : ImageData) (det anl : option Q) (nm bg : marray)
         (labelled_data : option (list (list Z))) (labels : option (list Z)),
    install_bgmap (Some bg)
      (snd (threshold_warning (effective_det st det) (effective_anl st anl)
              st)) = (Ok tt, st1) ->
    (forall (rms : marray) (st2 : ImageData),
        _get_rm st1 = (Ok rms, st2) ->
        ma_shape nm <> ma_shape rms \/
        exists x : Q, In x (ma_compressed nm) /\ x < 0) ->
    exists (e : exn) (st' : ImageData),
      extract det anl (Some nm) (Some bg) labelled_data labels st =
      (Raise e, st') /\
      user_backmap (cache st') = Some bg /\
      user_noisemap (cache st') = user_noisemap (cache st).
Proof.
  intros st st1 det anl nm bg ld labels Hbg Hbad.
  destruct (@install_noisemap_refuses nm st1 Hbad) as [e [st' [Hrun Hsame]]].
  exists e, st'. split; [|split].
  - unfold extract. rewrite bind_self.
    destruct (threshold_warning_ok (effective_det st det)
                (effective_anl st anl) st) as [Hwarn _].
    rewrite (@bind_ok _ _ _ _ _ _ _ Hwarn).
    rewrite (@bind_ok _ _ _ _ _ _ _ Hbg).
    now rewrite (@bind_raise _ _ _ _ _ _ _ Hrun).
  - assert (Hkeep : user_backmap (cache st') = user_backmap (cache st1)).
    { unfold install_noisemap, bind in Hrun.
      destruct (_get_rm_keeps_overrides st1) as [Hk _].
      destruct (_get_rm st1) as [[rms|e'] st2]; cbn [snd] in Hk.
      - destruct (negb _); [injection Hrun as _ <-; exact Hk|].
        destruct (Qltb _ 0); [injection Hrun as _ <-; exact Hk|].
        destruct (_set_rm_run nm st2) as [Hok _]. rewrite Hok in Hrun.
        discriminate.
      - injection Hrun as _ <-. exact Hk. }
    rewrite Hkeep. now apply install_bgmap_installed with (st := snd
      (threshold_warning (effective_det st det) (effective_anl st anl) st)).
  - rewrite Hsame.
    pose proof (install_bgmap_keeps_noisemap (Some bg)
                  (snd (threshold_warning (effective_det st det)
                          (effective_anl st anl) st))) as Hk.
    rewrite Hbg in Hk. cbn [snd] in Hk. rewrite Hk.
    destruct (threshold_warning_ok (effective_det st det)
                (effective_anl st anl) st) as [_ Hc].
    now rewrite Hc.
Qed.

(** *** Results of the fitting loops *)

Lemma bind_inv_ok :
  forall (A C : Type) (m : M A) (k : A -> M C) (st st' : ImageData) (c : C),
    bind m k st = (Ok c, st') ->
    exists (a : A) (st1 : ImageData),
      m st = (Ok a, st1) /\ k a st1 = (Ok c, st').
Proof.
  intros A C m k st st' c H. unfold bind in H.
  destruct (m st) as [[a|e] st1]; [|discriminate]. now exists a, st1.
Qed.

Lemma foldM_appends :
  forall (A D : Type) (P : D -> Prop) (f : list D -> A -> M (list D)),
    (forall (acc : list D) (x : A) (st : ImageData) (acc' : list D)
            (st' : ImageData),
        f acc x st = (Ok acc', st') ->
        exists new : list D,
          acc' = acc ++ new /\ (length new <= 1)%nat /\ Forall P new) ->
    forall (l : list A) (acc : list D) (st : ImageData) (acc' : list D)
           (st' : ImageData),
      foldM f l acc st = (Ok acc', st') ->
      exists new : list D,
        acc' = acc ++ new /\ (length new <= length l)%nat /\ Forall P new.
Proof.
  intros A D P f Hstep. induction l as [|x l IH]; intros acc st acc' st' H.
  - cbn in H. injection H as <- _. exists []. rewrite app_nil_r.
    repeat split; [apply Nat.le_refl|constructor].
  - cbn [foldM] in H. apply bind_inv_ok in H.
    destruct H as [acc1 [st1 [H1 H2]]].
    apply Hstep in H1. destruct H1 as [new1 [-> [Hl1 HP1]]].
    apply IH in H2. destruct H2 as [new2 [-> [Hl2 HP2]]].
    exists (new1 ++ new2). rewrite app_assoc. split; [reflexivity|]. split.
    + rewrite length_app. cbn [length]. lia.
    + apply Forall_app. now split.
Qed.

(** A detection whose position errors are not infinite. *)
Lemma fit_source_appends :
  forall (boxsize : Q) (threshold : option Q) (fixed : option string)
         (detections : list Detection) (source : Q * Q)
         (st st' : ImageData) (detections' : list Detection),
    fit_source boxsize threshold fixed detections source st =
    (Ok detections', st') ->
    exists new : list Detection,
      detections' = detections ++ new /\ (length new <= 1)%nat /\
      Forall (fun d => is_pos_inf (ra_error d) = false /\
                       is_pos_inf (dec_error d) = false) new.
Proof.
  intros boxsize threshold fixed dets source st st' dets' H.
  assert (Hsame : forall s1 s2 : ImageData,
             (Ok dets, s1) = (Ok dets', s2) ->
             exists new : list Detection,
               dets' = dets ++ new /\ (length new <= 1)%nat /\
               Forall (fun d => is_pos_inf (ra_error d) = false /\
                                is_pos_inf (dec_error d) = false) new).
  { intros s1 s2 E. injection E as <- _. exists []. rewrite app_nil_r.
    repeat split; [cbn [length]; lia|constructor]. }
  unfold fit_source in H. rewrite bind_self in H.
  destruct (wcs_s2p (wcs st) source) as [[x y]|e].
  - unfold try_except, bind in H.
    destruct (fit_to_point x y boxsize threshold fixed st)
      as [[[d|]|e] st1].
    + destruct (is_pos_inf (ra_error d) || is_pos_inf (dec_error d)) eqn:E.
      * cbn in H. now apply Hsame in H.
      * cbn in H. injection H as <- _. exists [d].
        apply orb_false_iff in E. repeat split; [cbn [length]; lia|].
        constructor; [exact E|constructor].
    + cbn in H. now apply Hsame in H.
    + destruct (is_IndexError e); [|discriminate].
      cbn in H. now apply Hsame in H.
  - destruct e; try discriminate.
    destruct (_ || _); [|discriminate]. cbn in H. now apply Hsame in H.
Qed.

(** X14.  [fit_fixed_positions], when it returns, gives at most one
    detection per source, and none whose right ascension or declination
    error is infinite. *)
Theorem fit_fixed_positions_results :
  forall (sources : list (Q * Q)) (boxsize : Q) (threshold : option Q)
         (fixed : option string) (st st' : ImageData)
         (detections : list Detection),
    fit_fixed_positions sources boxsize threshold fixed st =
    (Ok detections, st') ->
    (length detections <= length sources)%nat /\
    Forall (fun d => is_pos_inf (ra_error d) = false /\
                     is_pos_inf (dec_error d) = false) detections.
Proof.
  intros sources boxsize threshold fixed st st' dets H.
  unfold fit_fixed_positions in H.
  apply (@foldM_appends _ _
           (fun d => is_pos_inf (ra_error d) = false /\
                     is_pos_inf (dec_error d) = false)
           (fit_source boxsize threshold fixed)) in H.
  - destruct H as [new [-> [Hlen HP]]]. now split.
  - intros acc x s acc' s' Hs. now apply fit_source_appends in Hs.
Qed.

Lemma measure_island_appends :
  forall (results : list Detection) (isl : island) (st st' : ImageData)
         (results' : list Detection),
    measure_island results isl st = (Ok results', st') ->
    exists new : list Detection,
      results' = results ++ new /\ (length new <= 1)%nat /\
      Forall (fun d => is_pos_inf (ra_error d) = false /\
                       is_pos_inf (dec_error d) = false) new.
Proof.
  intros results isl st st' results' H.
  assert (Hsame : forall s1 s2 : ImageData,
             (Ok results, s1) = (Ok results', s2) ->
             exists new : list Detection,
               results' = results ++ new /\ (length new <= 1)%nat /\
               Forall (fun d => is_pos_inf (ra_error d) = false /\
                                is_pos_inf (dec_error d) = false) new).
  { intros s1 s2 E. injection E as <- _. exists []. rewrite app_nil_r.
    repeat split; [cbn [length]; lia|constructor]. }
  unfold measure_island in H. rewrite bind_self in H.
  destruct (island_fit isl _) as [[measurement residual]|];
    [|now apply Hsame in H].
  unfold try_except in H. rewrite bind_self in H. unfold bind at 1, lift in H.
  destruct (mk_detection measurement st (Some (island_chunk isl)))
    as [d|e].
  - destruct (is_pos_inf (ra_error d) || is_pos_inf (dec_error d)) eqn:E.
    + destruct (residuals (conf st)); cbn in H; now apply Hsame in H.
    + assert (Hd : exists new : list Detection,
                 results ++ [d] = results ++ new /\ (length new <= 1)%nat /\
                 Forall (fun d => is_pos_inf (ra_error d) = false /\
                                  is_pos_inf (dec_error d) = false) new).
      { exists [d]. apply orb_false_iff in E.
        repeat split; [cbn [length]; lia|].
        constructor; [exact E|constructor]. }
      destruct (residuals (conf st)); cbn in H; injection H as <- _;
        exact Hd.
  - destruct (is_RuntimeError e); cbn in H; discriminate.
Qed.

(** X15.  When [_pyse] returns, every detection of the result has passed
    [is_usable] against the mask of [data], which is then cached, and none
    has an infinite right ascension or declination error. *)
Theorem _pyse_results :
  forall (detectionthresholdmap analysisthresholdmap : marray)
         (labelled_data : option (list (list Z))) (labels : option (list Z))
         (st st' : ImageData) (detections : list Detection),
    _pyse detectionthresholdmap analysisthresholdmap labelled_data labels st
    = (Ok detections, st') ->
    exists data : marray,
      memo_data (cache st') = Some data /\
      Forall (fun d => is_usable (ma_mask data) d = true /\
                       is_pos_inf (ra_error d) = false /\
                       is_pos_inf (dec_error d) = false) detections.
Proof.
  intros det anl ld labels st st' dets H. unfold _pyse in H.
  apply bind_inv_ok in H. destruct H as [ll [s1 [_ H]]].
  apply bind_inv_ok in H. destruct H as [island_list [s2 [_ H]]].
  apply bind_inv_ok in H. destruct H as [[] [s3 [_ H]]].
  rewrite bind_self in H.
  apply bind_inv_ok in H. destruct H as [results [s4 [Hloop H]]].
  apply bind_inv_ok in H. destruct H as [data [s5 [Hdata H]]].
  injection H as <- <-. exists data.
  split; [now apply _get_data_fills with (st := s4)|].
  apply (@foldM_appends _ _
           (fun d => is_pos_inf (ra_error d) = false /\
                     is_pos_inf (dec_error d) = false)
           measure_island) in Hloop;
    [|intros acc x s acc' s' Hs; now apply measure_island_appends in Hs].
  destruct Hloop as [new [-> [_ HP]]]. cbn [app].
  apply Forall_forall. intros d Hd. apply filter_In in Hd.
  destruct Hd as [Hin Hu]. split; [exact Hu|].
  rewrite Forall_forall in HP. now apply HP.
Qed.

(** *** Sources that [fit_fixed_positions] skips *)

(** X16.  A source whose sky position the WCS rejects with a
    RuntimeError that starts with "wcsp2s error: 8:" or "wcsp2s error: 9:"
    is skipped with one warning; a list of such sources gives no detection
    and touches nothing but the log.  Any other RuntimeError of the
    conversion ends the call. *)
Theorem fit_fixed_positions_invalid_coordinates :
  forall (sources : list (Q * Q)) (boxsize : Q) (threshold : option Q)
         (fixed : option string) (st : ImageData),
    (forall source : Q * Q,
        In source sources ->
        exists msg : string,
          wcs_s2p (wcs st) source = Raise (RuntimeError msg) /\
          String.prefix "wcsp2s error: 8:" msg
          || String.prefix "wcsp2s error: 9:" msg = true) ->
    fit_fixed_positions sources boxsize threshold fixed st =
    (Ok [],
     with_logged
       (repeat ("warning", "Input coordinates invalid: ")%string
               (length sources) ++ logged st) st) /\
    forall (source : Q * Q) (msg : string),
      wcs_s2p (wcs st) source = Raise (RuntimeError msg) ->
      String.prefix "wcsp2s error: 8:" msg
      || String.prefix "wcsp2s error: 9:" msg = false ->
      forall more : list (Q * Q),
        fst (fit_fixed_positions (sources ++ source :: more) boxsize
               threshold fixed st) = Raise (RuntimeError msg).
Proof.
  intros sources boxsize threshold fixed st Hbad.
  unfold fit_fixed_positions.
  assert (Hrun :
            forall (acc : list Detection) (l : list (Q * Q))
                   (s : ImageData),
              wcs s = wcs st ->
              (forall source : Q * Q, In source l -> In source sources) ->
              foldM (fit_source boxsize threshold fixed) l acc s =
              (Ok acc,
               with_logged
                 (repeat ("warning", "Input coordinates invalid: ")%string
                         (length l) ++ logged s) s)).
  { intros acc. induction l as [|x l IH]; intros s Hw Hin.
    - cbn. now destruct s.
    - cbn [foldM]. unfold bind at 1. unfold fit_source at 1.
      rewrite bind_self, Hw.
      destruct (Hbad x (Hin x (or_introl eq_refl))) as [msg [-> ->]].
      cbn [bind log ret fst snd].
      unfold bind, log, ret.
      rewrite IH; [|exact Hw|intros y Hy; apply Hin; now right].
      cbn [logged with_logged length repeat].
      f_equal. unfold with_logged.
      cbn [rawdata rawnan wcs beam conf cache logged]. f_equal.
      rewrite (repeat_cons (length l)
                 ("warning"%string, "Input coordinates invalid: "%string)).
      now rewrite <- app_assoc. }
  split; [apply Hrun; [reflexivity|now intros]|].
  intros source msg Hs Hp more.
  assert (Happ :
            forall (A B : Type) (f : B -> A -> M B) (l1 l2 : list A) (b : B)
                   (s : ImageData),
              foldM f (l1 ++ l2) b s = bind (foldM f l1 b) (foldM f l2) s).
  { intros A B f. induction l1 as [|x l1 IH]; intros l2 b s.
    - reflexivity.
    - cbn [app foldM]. unfold bind.
      destruct (f b x s) as [[b1|e] s1]; [|reflexivity].
      rewrite IH. reflexivity. }
  rewrite Happ.
  rewrite (@bind_ok _ _ _ _ _ _ _ (Hrun [] sources st eq_refl
                                      (fun s H => H))).
  cbn [foldM]. unfold bind at 1. unfold fit_source at 1.
  rewrite bind_self. unfold with_logged at 1. cbn [wcs].
  rewrite Hs, Hp. reflexivity.
Qed.

(** X17.  A source that falls on a pixel outside the RMS map is skipped:
    the IndexError of [fit_to_point] is caught, a warning is logged and no
    detection is added.  A source on a pixel whose RMS is masked is
    skipped too, with the error message of [fit_to_point]. *)
Theorem fit_fixed_positions_skips_unusable_pixel :
  forall (source : Q * Q) (boxsize : Q) (threshold : option Q)
         (fixed : option string) (st st1 : ImageData) (x y : Z)
         (rms : marray),
    wcs_s2p (wcs st) source = Ok (x, y) ->
    _get_rm st = (Ok rms, st1) ->
    (getitem2 rms x y = None ->
     fit_fixed_positions [source] boxsize threshold fixed st =
     (Ok [],
      snd (log "warning" "Input pixel coordinates could not be fit" st1))) /\
    (forall noise : Q,
        getitem2 rms x y = Some (noise, true) ->
        fit_fixed_positions [source] boxsize threshold fixed st =
        (Ok [], snd (log "error" "Background is masked: cannot fit" st1))).
Proof.
  intros source boxsize threshold fixed st st1 x y rms Hs Hrm.
  split.
  - intros Hout.
    unfold fit_fixed_positions. cbn [foldM]. unfold bind at 1.
    unfold fit_source. rewrite bind_self, Hs. unfold try_except.
    assert (Hfit : fit_to_point x y boxsize threshold fixed st =
                   (Raise (IndexError "index out of bounds"), st1)).
    { unfold fit_to_point. rewrite (@bind_ok _ _ _ _ _ _ _ Hrm).
      now rewrite Hout. }
    unfold bind at 1. rewrite Hfit. reflexivity.
  - intros noise Hmasked.
    unfold fit_fixed_positions. cbn [foldM]. unfold bind at 1.
    unfold fit_source. rewrite bind_self, Hs. unfold try_except.
    assert (Hfit : fit_to_point x y boxsize threshold fixed st =
                   (Ok None,
                    snd (log "error" "Background is masked: cannot fit"
                             st1))).
    { unfold fit_to_point. rewrite (@bind_ok _ _ _ _ _ _ _ Hrm).
      now rewrite Hmasked. }
    unfold bind at 1. rewrite Hfit. reflexivity.
Qed.

(** *** The box of a forced fit *)

Lemma length_slice :
  forall (A : Type) (l : list A) (start stop : Z),
    Z.of_nat (length (slice l start stop)) =
    Z.max 0 (slice_bound (Z.of_nat (length l)) stop
             - slice_bound (Z.of_nat (length l)) start).
Proof.
  intros A l start stop. unfold slice. cbv zeta.
  assert (Hs : (0 <= slice_bound (Z.of_nat (length l)) start
                <= Z.of_nat (length l))%Z)
    by (unfold slice_bound; destruct (Z.ltb_spec start 0); lia).
  assert (He : (0 <= slice_bound (Z.of_nat (length l)) stop
                <= Z.of_nat (length l))%Z)
    by (unfold slice_bound; destruct (Z.ltb_spec stop 0); lia).
  rewrite length_firstn, length_skipn. lia.
Qed.

(** X18.  The rows that the box of [box_slice_about_pixel] selects from an
    array, for a pixel row [x] of the array and a radius that is not
    negative: the full 2 * int(radius) + 1 rows when the box lies inside;
    the rows from [x - int(radius)] to the last one when the box runs past
    the last row; and no row at all when the box starts before row 0 and
    the array has at least 2 * int(radius) + 1 rows, because the negative
    start counts from the end. *)
Theorem box_slice_about_pixel_rows :
  forall (a : marray) (x y : Z) (box_radius : Q),
    let ibr := int_of box_radius in
    let rows := Z.of_nat (length a) in
    let box := ma_slice a (box_slice_about_pixel x y box_radius) in
    (0 <= ibr)%Z -> (0 <= x < rows)%Z ->
    ((ibr <= x)%Z -> (x + ibr < rows)%Z ->
     Z.of_nat (length box) = (2 * ibr + 1)%Z) /\
    ((ibr <= x)%Z -> (rows <= x + ibr)%Z ->
     Z.of_nat (length box) = (rows - (x - ibr))%Z) /\
    ((x < ibr)%Z -> (2 * ibr + 1 <= rows)%Z -> box = []).
Proof.
  intros a x y r ibr rows box Hr Hx. subst box.
  unfold ma_slice, box_slice_about_pixel, slice2. fold ibr.
  cbn [ch_r0 ch_r1 ch_c0 ch_c1].
  assert (Hlen : Z.of_nat (length (map (fun row : list (Q * bool) =>
                                          slice row (y - ibr) (y + ibr + 1))
                                       (slice a (x - ibr) (x + ibr + 1)))) =
                 Z.max 0 (slice_bound rows (x + ibr + 1)
                          - slice_bound rows (x - ibr)))
    by (rewrite length_map; apply length_slice).
  unfold slice_bound in Hlen. repeat split.
  - intros H1 H2. rewrite Hlen.
    destruct (Z.ltb_spec (x + ibr + 1) 0), (Z.ltb_spec (x - ibr) 0); lia.
  - intros H1 H2. rewrite Hlen.
    destruct (Z.ltb_spec (x + ibr + 1) 0), (Z.ltb_spec (x - ibr) 0); lia.
  - intros H1 H2. apply length_zero_iff_nil.
    destruct (Z.ltb_spec (x + ibr + 1) 0), (Z.ltb_spec (x - ibr) 0); lia.
Qed.

Lemma box_slice_before_first_row :
  forall (a : marray) (x y : Z) (box_radius : Q),
    (0 <= x < int_of box_radius)%Z ->
    (2 * int_of box_radius + 1 <= Z.of_nat (length a))%Z ->
    ma_slice a (box_slice_about_pixel x y box_radius) = [].
Proof.
  intros a x y r Hx Hrows.
  unfold ma_slice, box_slice_about_pixel, slice2.
  cbn [ch_r0 ch_r1 ch_c0 ch_c1].
  apply length_zero_iff_nil. rewrite length_map.
  pose proof (length_slice a (x - int_of r) (x + int_of r + 1)) as Hlen.
  unfold slice_bound in Hlen.
  destruct (Z.ltb_spec (x + int_of r + 1) 0),
           (Z.ltb_spec (x - int_of r) 0); lia.
Qed.

(** X19.  A forced fit without a threshold at a pixel whose row is less
    than int(boxsize / 2), in an image of at least 2 * int(boxsize / 2) + 1
    rows: the box selects no data, [fit_to_point] raises IndexError, and
    [fit_fixed_positions] logs a warning and leaves the source out. *)
Theorem fit_fixed_positions_skips_low_edge :
  forall (source : Q * Q) (boxsize : Q) (fixed : option string)
         (st st1 st2 : ImageData) (x y : Z) (rms d : marray) (noise : Q),
    wcs_s2p (wcs st) source = Ok (x, y) ->
    _get_rm st = (Ok rms, st1) ->
    getitem2 rms x y = Some (noise, false) ->
    _get_data_bgsubbed st1 = (Ok d, st2) ->
    (0 <= x < int_of (boxsize / 2))%Z ->
    (2 * int_of (boxsize / 2) + 1 <= Z.of_nat (length d))%Z ->
    fit_to_point x y boxsize None fixed st =
    (Raise (IndexError "Fit region too close to edge or too small"), st2) /\
    fit_fixed_positions [source] boxsize None fixed st =
    (Ok [],
     snd (log "warning" "Input pixel coordinates could not be fit" st2)).
Proof.
  intros source boxsize fixed st st1 st2 x y rms d noise
         Hs Hrm Hnoise Hd Hx Hrows.
  assert (Hfit : fit_to_point x y boxsize None fixed st =
                 (Raise (IndexError
                           "Fit region too close to edge or too small"),
                  st2)).
  { unfold fit_to_point. rewrite (@bind_ok _ _ _ _ _ _ _ Hrm), Hnoise.
    apply bind_raise. unfold fit_region.
    rewrite (@bind_ok _ _ _ _ _ _ _ Hd).
    rewrite (@box_slice_before_first_row d x y (boxsize / 2) Hx Hrows).
    reflexivity. }
  split; [exact Hfit|].
  unfold fit_fixed_positions. cbn [foldM]. unfold bind at 1.
  unfold fit_source. rewrite bind_self, Hs. unfold try_except.
  unfold bind at 1. rewrite Hfit. reflexivity.
Qed.

(** *** The dictionaries of [fit_to_point] *)

Lemma lookup_setdefault :
  forall (A : Type) (d : list (Q * A)) (key : Q) (value : A),
    lookup (snd (setdefault d key value)) key =
    Some (fst (setdefault d key value)).
Proof.
  intros A d key value. unfold setdefault.
  destruct (lookup d key) as [v|] eqn:E; cbn [fst snd]; [exact E|].
  cbn [lookup]. now rewrite Qeq_bool_refl.
Qed.

Lemma setdefault_hit :
  forall (A : Type) (d : list (Q * A)) (key : Q) (v value : A),
    lookup d key = Some v -> setdefault d key value = (v, d).
Proof. intros A d key v value H. unfold setdefault. now rewrite H. Qed.

(** X20.  The label map that [fit_to_point] uses for a threshold is
    computed once: after a first call for a threshold, a call for the same
    threshold returns the stored labels and leaves both dictionaries as
    they are, whatever the background-subtracted data and the RMS map are
    by then. *)
Theorem thresholded_labels_are_reused :
  forall (threshold : Q) (data_bgsubbed rmsmap data_bgsubbed' rmsmap' : marray)
         (c : caches),
    thresholded_labels threshold data_bgsubbed' rmsmap'
      (snd (thresholded_labels threshold data_bgsubbed rmsmap c)) =
    thresholded_labels threshold data_bgsubbed rmsmap c.
Proof.
  intros t d r d' r' c. unfold thresholded_labels.
  pose proof (lookup_setdefault (clip c) t (above_threshold t d r)) as Hc.
  destruct (setdefault (clip c) t (above_threshold t d r))
    as [clipped clip'].
  pose proof (lookup_setdefault (labels c) t
                (ndimage_label clipped default_structure)) as Hl.
  destruct (setdefault (labels c) t (ndimage_label clipped default_structure))
    as [labels_num labels'].
  cbn [fst snd] in *. destruct c. cbn [clip labels set_clip set_labels] in *.
  rewrite (setdefault_hit _ _ (above_threshold t d' r') Hc).
  rewrite (setdefault_hit _ _ (ndimage_label clipped default_structure) Hl).
  reflexivity.
Qed.

(** *** The constant of the false detection rate *)

Lemma harmonic_ge_1 : forall K : nat, 1 <= harmonic (S K).
Proof.
  induction K as [|K IH].
  - cbn. unfold Qle. cbn. lia.
  - change (harmonic (S (S K)))
      with (harmonic (S K) + 1 / inject_Z (Z.of_nat (S (S K)))).
    assert (0 <= 1 / inject_Z (Z.of_nat (S (S K)))).
    { apply Qle_shift_div_l.
      - change 0 with (inject_Z 0). rewrite <- Zlt_Qlt. lia.
      - rewrite Qmult_0_l. discriminate. }
    lra.
Qed.

(** X21.  [C_n] of [fd_extract] is zero when the correlation area
    0.25 * pi * corlengthlong * corlengthshort is below one half (the
    sum has no term), and at least 1 otherwise. *)
Theorem C_n_small_beam :
  forall corlengthlong corlengthshort : Q,
    let x := (1 # 4) * np_pi * corlengthlong * corlengthshort in
    (x < 1 # 2 -> C_n_of corlengthlong corlengthshort == 0) /\
    ((1 # 2) <= x -> 1 <= C_n_of corlengthlong corlengthshort).
Proof.
  intros cl cs x.
  assert (Hsum : C_n_of cl cs == harmonic (Z.to_nat (round (x + 1)) - 1)).
  { unfold C_n_of. fold x. rewrite tl_np_arange. apply sum_reciprocals. }
  split; intros Hx; rewrite Hsum.
  - assert (Hr : (round (x + 1) <= 1)%Z).
    { unfold round. destruct (Qle_bool 0 (x + 1)) eqn:E.
      - apply Qfloor_le_iff. change (inject_Z 1) with 1. lra.
      - assert (Hneg : x + 1 < 0).
        { apply Qnot_le_lt. intro H. apply Qle_bool_iff in H. congruence. }
        assert (Hc : (Qceiling (x + 1 - (1 # 2)) <= 0)%Z).
        { unfold Qceiling.
          assert ((0 <= Qfloor (- (x + 1 - (1 # 2))))%Z); [|lia].
          assert ((-1 < Qfloor (- (x + 1 - (1 # 2))))%Z); [|lia].
          apply Qfloor_gt_iff. change (inject_Z (-1)) with (-1). lra. }
        lia. }
    replace (Z.to_nat (round (x + 1)) - 1)%nat with 0%nat by lia.
    apply Qeq_refl.
  - assert (Hr : (1 < round (x + 1))%Z).
    { unfold round.
      assert (E : Qle_bool 0 (x + 1) = true) by (apply Qle_bool_iff; lra).
      rewrite E. apply Qfloor_gt_iff. change (inject_Z 1) with 1. lra. }
    destruct (Z.to_nat (round (x + 1)) - 1)%nat as [|K] eqn:E; [lia|].
    apply harmonic_ge_1.
Qed.

(** *** Detections that [is_usable] rejects *)

Lemma getitem_beyond :
  forall (A : Type) (l : list A) (i : Z),
    (Z.of_nat (length l) <= i)%Z -> getitem l i = None.
Proof.
  intros A l i H. unfold getitem, index.
  destruct (Z.leb_spec 0 i), (Z.ltb_spec i (Z.of_nat (length l)));
    cbn [andb]; try lia.
  destruct (Z.leb_spec (- Z.of_nat (length l)) i), (Z.ltb_spec i 0);
    cbn [andb]; try lia; reflexivity.
Qed.

Lemma getitem_below :
  forall (A : Type) (l : list A) (i : Z),
    (i < - Z.of_nat (length l))%Z -> getitem l i = None.
Proof.
  intros A l i H. unfold getitem, index.
  destruct (Z.leb_spec 0 i), (Z.ltb_spec i (Z.of_nat (length l)));
    cbn [andb]; try lia.
  destruct (Z.leb_spec (- Z.of_nat (length l)) i), (Z.ltb_spec i 0);
    cbn [andb]; try lia; reflexivity.
Qed.

Lemma getitem_nonneg :
  forall (A : Type) (l : list A) (i : Z),
    (0 <= i)%Z -> getitem l i = nth_error l (Z.to_nat i).
Proof.
  intros A l i Hi.
  destruct (Z.lt_ge_cases i (Z.of_nat (length l))) as [Hlt|Hge].
  - apply getitem_inside. lia.
  - rewrite getitem_beyond by exact Hge. symmetry.
    apply nth_error_None. lia.
Qed.

Lemma getitem2_pixel :
  forall (A : Type) (a : list (list A)) (i j : Z),
    (0 <= i)%Z -> (0 <= j)%Z ->
    getitem2 a i j = pixel a (Z.to_nat i) (Z.to_nat j).
Proof.
  intros A a i j Hi Hj. unfold getitem2, pixel.
  rewrite getitem_nonneg by exact Hi.
  destruct (nth_error a (Z.to_nat i)); [|reflexivity].
  now apply getitem_nonneg.
Qed.

Lemma Qfloor_Qceiling_nonneg :
  forall x : Q, 0 <= x -> (0 <= Qfloor x)%Z /\ (0 <= Qceiling x)%Z.
Proof.
  intros x Hx. split.
  - assert ((-1 < Qfloor x)%Z); [|lia].
    apply Qfloor_gt_iff. change (inject_Z (-1)) with (-1). lra.
  - unfold Qceiling. assert ((Qfloor (- x) <= 0)%Z); [|lia].
    apply Qfloor_le_iff. change (inject_Z 0) with 0. lra.
Qed.

(** [is_usable] in terms of the positions that [check_point] reads. *)
Lemma is_usable_positions :
  forall (mask : list (list bool)) (det : Detection),
    is_usable mask det = true <->
    forall point : Q * Q,
      In point (axis_ends det) ->
      forall i j : Z,
        In i [Qfloor (fst point); Qceiling (fst point)] ->
        In j [Qfloor (snd point); Qceiling (snd point)] ->
        getitem2 mask i j = Some false.
Proof.
  intros mask det. unfold is_usable. fold (axis_ends det).
  rewrite forallb_forall. split.
  - intros H point Hp i j Hi Hj. apply H in Hp. unfold check_point in Hp.
    rewrite forallb_forall in Hp.
    specialize (Hp (i, j)). cbn [fst snd] in Hp.
    destruct (getitem2 mask i j) as [[|]|]; try reflexivity;
      (assert (false = true); [|discriminate]);
      apply Hp, in_prod; assumption.
  - intros H point Hp. unfold check_point. apply forallb_forall.
    intros [i j] Hij. apply in_prod_iff in Hij. destruct Hij as [Hi Hj].
    cbn [fst snd]. now rewrite (H point Hp i j Hi Hj).
Qed.

(** X22.  [is_usable] on the pixels of the image (rows and columns counted
    from 0).  It accepts a detection when every end of its two axes has
    non-negative coordinates and the four positions around it are
    unmasked pixels of the image.  It rejects a detection that has an end
    whose first coordinate, rounded up, reaches the number of rows, or,
    rounded down, lies below minus the number of rows, or that has an end
    with non-negative coordinates and a masked pixel around it.  (An end
    with a coordinate between minus the number of rows and 0 is read from
    the far side of the image; nothing is said about it here.) *)
Theorem is_usable_axis_ends :
  forall (mask : list (list bool)) (det : Detection),
    ((forall point : Q * Q,
         In point (axis_ends det) ->
         0 <= fst point /\ 0 <= snd point /\
         forall i j : Z,
           In i [Qfloor (fst point); Qceiling (fst point)] ->
           In j [Qfloor (snd point); Qceiling (snd point)] ->
           pixel mask (Z.to_nat i) (Z.to_nat j) = Some false) ->
     is_usable mask det = true) /\
    (forall point : Q * Q,
        In point (axis_ends det) ->
        (Z.of_nat (length mask) <= Qceiling (fst point))%Z \/
        (Qfloor (fst point) < - Z.of_nat (length mask))%Z \/
        (0 <= fst point /\ 0 <= snd point /\
         exists i j : Z,
           In i [Qfloor (fst point); Qceiling (fst point)] /\
           In j [Qfloor (snd point); Qceiling (snd point)] /\
           pixel mask (Z.to_nat i) (Z.to_nat j) = Some true) ->
        is_usable mask det = false).
Proof.
  intros mask det.
  assert (Hnonneg :
            forall (point : Q * Q) (i j : Z),
              0 <= fst point -> 0 <= snd point ->
              In i [Qfloor (fst point); Qceiling (fst point)] ->
              In j [Qfloor (snd point); Qceiling (snd point)] ->
              (0 <= i)%Z /\ (0 <= j)%Z).
  { intros point i j Hx Hy Hi Hj.
    destruct (Qfloor_Qceiling_nonneg Hx) as [Hfx Hcx].
    destruct (Qfloor_Qceiling_nonneg Hy) as [Hfy Hcy].
    destruct Hi as [<-|[<-|[]]]; destruct Hj as [<-|[<-|[]]]; now split. }
  split.
  - intros Hall. apply is_usable_positions. intros point Hp i j Hi Hj.
    destruct (Hall point Hp) as [Hx [Hy Hpix]].
    destruct (Hnonneg point i j Hx Hy Hi Hj) as [Hi0 Hj0].
    rewrite getitem2_pixel by assumption. now apply Hpix.
  - intros point Hp Hbad.
    destruct (is_usable mask det) eqn:E; [|reflexivity].
    pose proof (proj1 (is_usable_positions mask det) E point Hp) as Hpos.
    destruct Hbad as [Hrows|[Hlow|[Hx [Hy [i [j [Hi [Hj Hpix]]]]]]]].
    + specialize (Hpos (Qceiling (fst point)) (Qfloor (snd point))
                       (or_intror (or_introl eq_refl)) (or_introl eq_refl)).
      unfold getitem2 in Hpos. rewrite getitem_beyond in Hpos by exact Hrows.
      discriminate.
    + specialize (Hpos (Qfloor (fst point)) (Qfloor (snd point))
                       (or_introl eq_refl) (or_introl eq_refl)).
      unfold getitem2 in Hpos. rewrite getitem_below in Hpos by exact Hlow.
      discriminate.
    + destruct (Hnonneg point i j Hx Hy Hi Hj) as [Hi0 Hj0].
      specialize (Hpos i j Hi Hj).
      rewrite getitem2_pixel in Hpos by assumption.
      rewrite Hpix in Hpos. discriminate.
Qed.

(** X23.  [extract] with a labelled map whose shape is not that of the
    data, and no map to install, raises ValueError before anything is
    fitted; only [data] has been read by then. *)
Theorem extract_rejects_labelled_map :
  forall (st st1 : ImageData) (det anl : option Q)
         (labelled_data : list (list Z)) (labels : option (list Z))
         (data : marray),
    _get_data
      (snd (threshold_warning (effective_det st det) (effective_anl st anl)
              st)) = (Ok data, st1) ->
    shape labelled_data <> ma_shape data ->
    extract det anl None None (Some labelled_data) labels st =
    (Raise (ValueError "Labelled map is wrong shape"), st1).
Proof.
  intros st st1 det anl ld labels data Hdata Hshape.
  unfold extract. rewrite bind_self.
  destruct (threshold_warning_ok (effective_det st det)
              (effective_anl st anl) st) as [Hwarn _].
  rewrite (@bind_ok _ _ _ _ _ _ _ Hwarn).
  unfold install_bgmap, install_noisemap. rewrite !bind_ret.
  apply bind_raise. rewrite (@bind_ok _ _ _ _ _ _ _ Hdata).
  now rewrite (@shape_eqb_neq _ _ Hshape).
Qed.

(** *** Arguments that are zero or missing *)

(** X24.  [fd_extract] tests its arguments for truth, not for None: an
    [alpha] of zero is replaced by the [fdr_alpha] of the image, and an
    [anl] of zero by the FDR threshold, so both calls behave as the call
    without the argument. *)
Theorem fd_extract_zero_arguments :
  forall (a : Q) (alpha anl : option Q) (noisemap bgmap : option marray)
         (st : ImageData),
    a == 0 ->
    fd_extract (Some a) anl noisemap bgmap st =
    fd_extract None anl noisemap bgmap st /\
    fd_extract alpha (Some a) noisemap bgmap st =
    fd_extract alpha None noisemap bgmap st.
Proof.
  intros a alpha anl noisemap bgmap st Ha.
  assert (Hf : truthy a = false).
  { unfold truthy. apply negb_false_iff. now apply Qeq_bool_iff. }
  split.
  - unfold fd_extract. rewrite !bind_self. unfold effective_alpha.
    now rewrite Hf.
  - unfold fd_extract. rewrite !bind_self. now rewrite Hf.
Qed.

Lemma ctype_eqb_neq :
  forall c d : string * string, c <> d -> ctype_eqb c d = false.
Proof.
  intros [c1 c2] [d1 d2] H. unfold ctype_eqb. cbn [fst snd].
  destruct (String.eqb_spec c1 d1), (String.eqb_spec c2 d2);
    try reflexivity.
  subst. contradiction.
Qed.

Lemma shape_slice2_assign :
  forall (A : Type) (a : list (list A)) (r0 r1 c0 c1 : Z) (v : A),
    shape (slice2_assign a r0 r1 c0 c1 v) = shape a.
Proof.
  intros A a r0 r1 c0 c1 v. unfold shape, slice2_assign, mapi.
  rewrite length_mapi_from. destruct a as [|row rows]; [reflexivity|].
  cbn [mapi_from]. destruct (in_slice _ r0 r1 0); [|reflexivity].
  now rewrite length_mapi_from.
Qed.

(** X25.  [reliable_window] without a window: when the degradation in
    force is zero nothing is masked and the object is untouched; when it
    is not zero and the projection is not SIN nothing is masked and one
    warning is logged.  Whenever the method returns, the mask has the
    shape of the raw data. *)
Theorem reliable_window_without_window :
  forall (arg : option Q) (st : ImageData),
    (effective_degradation st arg == 0 ->
     reliable_window arg st = (Ok (full (xdim st) (ydim st) false), st)) /\
    (~ effective_degradation st arg == 0 ->
     ctype (wcs st) <> SIN ->
     reliable_window arg st =
     (Ok (full (xdim st) (ydim st) false),
      with_logged
        (("warn", "Not SIN projection: reliable window not calculated.")%string
           :: logged st) st)) /\
    (forall (mask : list (list bool)) (st' : ImageData),
        reliable_window arg st = (Ok mask, st') ->
        shape mask = shape (rawdata st)).
Proof.
  intros arg st. split; [|split].
  - intros H0. unfold reliable_window. rewrite bind_self.
    assert (Hf : truthy (effective_degradation st arg) = false).
    { unfold truthy. apply negb_false_iff. now apply Qeq_bool_iff. }
    rewrite Hf. reflexivity.
  - intros Hn Hc. unfold reliable_window. rewrite bind_self.
    rewrite (proj2 (truthy_true _) Hn), (ctype_eqb_neq Hc). reflexivity.
  - intros mask st' H. unfold reliable_window in H. rewrite bind_self in H.
    assert (Hfull : forall v : bool,
               shape (full (xdim st) (ydim st) v) = shape (rawdata st))
      by (intros v; unfold xdim, ydim; apply shape_full_shape).
    destruct (truthy (effective_degradation st arg) &&
              ctype_eqb (ctype (wcs st)) SIN).
    + destruct (Qeq_bool _ 0); [discriminate|].
      unfold bind, lift in H.
      destruct (int_of_quotient _ _) as [dra|e]; [|discriminate].
      destruct (int_of_quotient _ _) as [ddec|e]; [|discriminate].
      injection H as <- _. rewrite shape_slice2_assign. apply Hfull.
    + destruct (truthy (effective_degradation st arg)).
      * injection H as <- _. apply Hfull.
      * injection H as <- _. apply Hfull.
Qed.

(** X26.  [extract] passes its [labels] argument on as it is: with a
    labelled map of the right shape and no list of labels, [_pyse] iterates
    over None and the call raises TypeError, after [data] and [rmsmap]
    have been read. *)
Theorem extract_labelled_map_needs_labels :
  forall (st st1 st2 : ImageData) (det anl : option Q)
         (labelled_data : list (list Z)) (data rmsmap : marray),
    _get_data
      (snd (threshold_warning (effective_det st det) (effective_anl st anl)
              st)) = (Ok data, st1) ->
    shape labelled_data = ma_shape data ->
    _get_rm st1 = (Ok rmsmap, st2) ->
    extract det anl None None (Some labelled_data) None st =
    (Raise (TypeError "'NoneType' object is not iterable"), st2).
Proof.
  intros st st1 st2 det anl ld data rms Hdata Hshape Hrm.
  unfold extract. rewrite bind_self.
  destruct (threshold_warning_ok (effective_det st det)
              (effective_anl st anl) st) as [Hwarn _].
  rewrite (@bind_ok _ _ _ _ _ _ _ Hwarn).
  unfold install_bgmap, install_noisemap. rewrite !bind_ret.
  assert (Hcheck :
            (data <- _get_data ;;
             if negb (shape_eqb (shape ld) (ma_shape data))
             then raise (ValueError "Labelled map is wrong shape")
             else ret tt)%py
              (snd (threshold_warning (effective_det st det)
                      (effective_anl st anl) st)) = (Ok tt, st1)).
  { rewrite (@bind_ok _ _ _ _ _ _ _ Hdata), Hshape, shape_eqb_refl.
    reflexivity. }
  rewrite (@bind_ok _ _ _ _ _ _ _ Hcheck).
  rewrite (@bind_ok _ _ _ _ _ _ _ Hrm).
  unfold _pyse. apply bind_raise. reflexivity.
Qed.

End Engine.

(* ------------------------------------------------------------------ *)
(** ** The properties on concrete images *)

Lemma fixture_pi_pos : 0 < Fixture.pi.
Proof. reflexivity. Qed.

Lemma fixture_sqrt_nonneg : forall x : Q, 0 <= Fixture.sqrt x.
Proof.
  intros x. unfold Fixture.sqrt. destruct (Qle_bool x 0).
  - apply Qle_refl.
  - apply Qabs_nonneg.
Qed.

Lemma fixture_sin_arccos_nonneg :
  forall x : Q, 0 <= x -> x <= 1 -> 0 <= Fixture.sin (Fixture.arccos x).
Proof. intros x _ _. apply fixture_sqrt_nonneg. Qed.

(** On the 10 x 10 all-sky image the offsets are 2 pixels and the window is
    rows and columns 3, 4, 5; under the other projection nothing is masked
    and a warning is logged. *)
Lemma reliable_window_limits_witness :
  (exists mask,
     reliable_window Fixture.pi Fixture.sqrt Fixture.sin Fixture.arccos None
       Fixture.allsky = (Ok mask, Fixture.allsky) /\
     getitem2 mask 3 5 = Some false /\ getitem2 mask 6 5 = Some true) /\
  (exists mask,
     fst (reliable_window Fixture.pi Fixture.sqrt Fixture.sin Fixture.arccos
            None Fixture.allsky_tan) = Ok mask /\
     getitem2 mask 0 9 = Some false).
Proof.
  assert (Hmd : 0 < effective_degradation Fixture.allsky None)
    by reflexivity.
  assert (Hmd' : 0 < effective_degradation Fixture.allsky_tan None)
    by reflexivity.
  split.
  - destruct (@reliable_window_limits Fixture.pi Fixture.sqrt Fixture.sin
                Fixture.arccos fixture_pi_pos fixture_sqrt_nonneg
                fixture_sin_arccos_nonneg Fixture.allsky None Hmd)
      as [Hsin _].
    destruct Hsin as [mask [Hrun Hmask]];
      [reflexivity | discriminate | discriminate |].
    exists mask. split; [exact Hrun|].
    vm_compute in Hrun. injection Hrun as <-. split; reflexivity.
  - destruct (@reliable_window_limits Fixture.pi Fixture.sqrt Fixture.sin
                Fixture.arccos fixture_pi_pos fixture_sqrt_nonneg
                fixture_sin_arccos_nonneg Fixture.allsky_tan None Hmd')
      as [_ Htan].
    destruct Htan as [mask [Hrun Hmask]]; [discriminate|].
    exists mask. split; [now rewrite Hrun|].
    apply Hmask; cbn; lia.
Defined.

(** C3, counterexample.  On the 10 x 10 all-sky image (crpix (5, 5),
    offsets 2 and 2) pixel (6, 5) lies one pixel from crpix, strictly inside
    the rectangle of half-widths 2 centred on crpix, and is masked. *)
Lemma reliable_window_masks_inside_spec_window :
  let st := Fixture.allsky in
  let c := conv_factor Fixture.sqrt Fixture.sin Fixture.arccos (2 # 10) in
  let dra := Qfloor (c / np_radians Fixture.pi (Qabs (fst (cdelt (wcs st))))) in
  let ddec := Qfloor (c / np_radians Fixture.pi (Qabs (snd (cdelt (wcs st))))) in
  dra = 2%Z /\ ddec = 2%Z /\
  exists mask,
    reliable_window Fixture.pi Fixture.sqrt Fixture.sin Fixture.arccos None st
      = (Ok mask, st) /\
    spec_window (crpix (wcs st)) dra ddec 6 5 /\
    getitem2 mask 6 5 = Some true.
Proof.
  cbv zeta. split; [reflexivity|]. split; [reflexivity|].
  eexists. split; [vm_compute; reflexivity|]. split.
  - split; vm_compute; discriminate.
  - reflexivity.
Qed.

(** On the three-pixel image the labels are 1 (peak -1), 2 (peak 4) and
    3 (peak 0); labels 2 and 3 are kept. *)
Lemma label_islands_keeps_nonnegative_peaks_witness :
  exists (labels : list Z) (relabelled : list (list Z)),
    label_islands_of Fixture.median Fixture.label Fixture.cross
      Fixture.three_pixels Fixture.unit_noise
      (ma_scale 5 Fixture.unit_noise) (ma_scale 3 Fixture.unit_noise)
    = Ok (labels, relabelled) /\
    ~ In 1%Z labels /\ In 2%Z labels /\ In 3%Z labels.
Proof.
  destruct (@label_islands_keeps_nonnegative_peaks Fixture.median
              Fixture.label Fixture.cross
              Fixture.three_pixels Fixture.unit_noise
              (ma_scale 5 Fixture.unit_noise) (ma_scale 3 Fixture.unit_noise)
              [[1; 0; 0; 0; 2]; [0; 0; 3; 0; 0]]%Z 3%Z)
    as [labels [relabelled [Hrun Hall]]];
    [vm_compute; reflexivity | reflexivity |].
  exists labels, relabelled. split; [exact Hrun|].
  split; [|split].
  - apply (Hall 1%Z); [lia | vm_compute; reflexivity].
  - apply (Hall 2%Z); [lia | vm_compute; discriminate].
  - apply (Hall 3%Z); [lia | vm_compute; discriminate].
Defined.

(** C1, counterexample.  On the three-pixel image the island of the pixel
    of value 5 has the maximum of (bg_subtracted - detection_map) equal to
    0, which is <= 0, and it is retained: its label 3 is in the returned
    list and on the returned map. *)
Lemma label_islands_retains_zero_peak :
  let det := ma_scale 5 Fixture.unit_noise in
  let anl := ma_scale 3 Fixture.unit_noise in
  let labelled :=
    fst (Fixture.label
           (clipped_data Fixture.median Fixture.three_pixels anl
              Fixture.unit_noise) Fixture.cross) in
  let peak :=
    list_max 0
      (values_of_label (above_det_thr Fixture.three_pixels det) labelled 3) in
  getitem2 labelled 1 2 = Some 3%Z /\
  peak <= 0 /\
  label_islands_of Fixture.median Fixture.label Fixture.cross
    Fixture.three_pixels Fixture.unit_noise det anl
  = Ok ([2; 3]%Z, [[0; 0; 0; 0; 2]; [0; 0; 3; 0; 0]]%Z).
Proof.
  cbv zeta. split; [reflexivity|]. split.
  - vm_compute. discriminate.
  - reflexivity.
Qed.

Lemma fixture_sigma_clip_sample :
  forall (chunk : list (Q * bool)) (beam : Q * Q * Q) (x : Q),
    In x (fst (fst (fst (Fixture.sigma_clip chunk beam)))) ->
    In x (compressed chunk).
Proof.
  intros chunk beam x H. unfold Fixture.sigma_clip in H. cbn [fst] in H.
  now apply filter_In in H.
Qed.

Lemma two_tiles_zero_masked : zero_masked Fixture.two_tiles.
Proof.
  intros x H. cbn in H.
  repeat (destruct H as [H|H];
          [injection H as <-; vm_compute; discriminate|]).
  contradiction.
Qed.

(** On the image of two tiles: the sample [1, 1, 2] of the second tile has
    median 1, mean 4/3 and sigma about 0.47, a ratio of about 0.71, and the
    background entry is the median; the sample [1, 2, 3] of the first tile
    has ratio 0 and the entry is [2.5 * 2 - 1.5 * 2]. *)
Lemma grids_skewness_rule_witness :
  exists g : grids_t,
    grids_of Fixture.sigma_clip Fixture.two_tiles 2 2 (2, 2, 0) = Ok g /\
    option_map fst (getitem2 (grid_bg g) 0 1) = Some 1 /\
    option_map fst (getitem2 (grid_bg g) 0 0)
    = Some ((5 # 2) * 2 - (3 # 2) * np_mean [1; 2; 3]).
Proof.
  destruct (@grids_skewness_rule Fixture.sigma_clip fixture_sigma_clip_sample
              Fixture.two_tiles 2 2 (2, 2, 0) (Chunk 0 2 0 4)
              two_tiles_zero_masked)
    as [g [Hrun Hall]]; [reflexivity | lia | lia |].
  exists g. split; [exact Hrun|]. split.
  - destruct (Fixture.sigma_clip
                (tile (ma_slice Fixture.two_tiles (Chunk 0 2 0 4)) 2 2
                      (0 * 2) (1 * 2)) (2, 2, 0))
      as [[[clipped sigma] median] its] eqn:E.
    destruct (Hall 0%nat 1%nat clipped sigma median its) as [_ Hbg];
      [vm_compute; lia | vm_compute; lia | exact E | |];
      vm_compute in E; injection E as <- <- <- <-; [discriminate|].
    destruct Hbg as [Hskew _]; [vm_compute; discriminate|].
    apply Hskew. vm_compute. discriminate.
  - destruct (Fixture.sigma_clip
                (tile (ma_slice Fixture.two_tiles (Chunk 0 2 0 4)) 2 2
                      (0 * 2) (0 * 2)) (2, 2, 0))
      as [[[clipped sigma] median] its] eqn:E.
    destruct (Hall 0%nat 0%nat clipped sigma median its) as [_ Hbg];
      [vm_compute; lia | vm_compute; lia | exact E | |];
      vm_compute in E; injection E as <- <- <- <-; [discriminate|].
    destruct Hbg as [_ Hflat]; [vm_compute; discriminate|].
    apply Hflat. vm_compute. reflexivity.
Defined.

(** With correlation lengths 2 and 2 the area is about 3.14: the sum has
    the three terms 1 + 1/2 + 1/3. *)
Lemma C_n_number_of_terms_witness :
  C_n_of Fixture.pi 2 2 == harmonic 3 /\
  Z.to_nat (round ((1 # 4) * Fixture.pi * 2 * 2 + 1) - 1)
  = Z.to_nat (round ((1 # 4) * Fixture.pi * 2 * 2)).
Proof.
  destruct (C_n_number_of_terms Fixture.pi 2 2) as [Hsum Hterms].
  split.
  - exact Hsum.
  - apply Hterms. vm_compute. discriminate.
Defined.

(** C4, counterexample.  With correlation lengths 2 and 2,
    [round(0.25 * pi * 2 * 2) + 1] is 4, and the sum of the four terms
    1 + 1/2 + 1/3 + 1/4 = 25/12 is not the constant 11/6 that [fd_extract]
    uses. *)
Lemma C_n_is_not_round_plus_1_terms :
  let K := Z.to_nat (round ((1 # 4) * Fixture.pi * 2 * 2) + 1) in
  K = 4%nat /\
  harmonic K == 25 # 12 /\
  C_n_of Fixture.pi 2 2 == 11 # 6 /\
  ~ C_n_of Fixture.pi 2 2 == harmonic K.
Proof.
  cbv zeta. split; [reflexivity|]. split; [reflexivity|].
  split; [reflexivity|]. vm_compute. discriminate.
Qed.

(** The methods with the routines of the other modules replaced by their
    stand-ins. *)
Local Abbreviation fx_backmap :=
  (_backmap Fixture.pi Fixture.sqrt Fixture.sin Fixture.arccos
     Fixture.circular_mask Fixture.sigma_clip Fixture.median_filter1
     Fixture.map_coordinates).
Local Abbreviation fx_get_rm :=
  (_get_rm Fixture.pi Fixture.sqrt Fixture.sin Fixture.arccos
     Fixture.circular_mask Fixture.sigma_clip Fixture.median_filter1
     Fixture.map_coordinates).
Local Abbreviation fx_get_data_bgsubbed :=
  (_get_data_bgsubbed Fixture.pi Fixture.sqrt Fixture.sin Fixture.arccos
     Fixture.circular_mask Fixture.sigma_clip Fixture.median_filter1
     Fixture.map_coordinates).
Local Abbreviation fx_extract :=
  (@extract Fixture.pi Fixture.sqrt Fixture.sin Fixture.arccos
     Fixture.median Fixture.circular_mask Fixture.sigma_clip
     Fixture.median_filter1 Fixture.map_coordinates Fixture.label
     Fixture.island Fixture.Island Fixture.isl_chunk Fixture.island_data
     Fixture.deblend Fixture.fit Fixture.detection).
Local Abbreviation fx_fd_extract :=
  (@fd_extract Fixture.pi Fixture.sqrt Fixture.sin Fixture.arccos
     Fixture.exp Fixture.log
     Fixture.median Fixture.circular_mask Fixture.sigma_clip
     Fixture.median_filter1 Fixture.map_coordinates Fixture.label
     Fixture.island Fixture.Island Fixture.isl_chunk Fixture.island_data
     Fixture.deblend Fixture.fit Fixture.detection
     Fixture.correlation_lengths).
Local Abbreviation fx_pyse :=
  (@_pyse Fixture.pi Fixture.sqrt Fixture.sin Fixture.arccos
     Fixture.median Fixture.circular_mask Fixture.sigma_clip
     Fixture.median_filter1 Fixture.map_coordinates Fixture.label
     Fixture.island Fixture.Island Fixture.isl_chunk Fixture.island_data
     Fixture.deblend Fixture.fit Fixture.detection).
Local Abbreviation fx_fit_to_point :=
  (fit_to_point Fixture.pi Fixture.sqrt Fixture.sin Fixture.arccos
     Fixture.circular_mask Fixture.sigma_clip Fixture.median_filter1
     Fixture.map_coordinates Fixture.label Fixture.detection
     Fixture.source_profile_and_errors).
Local Abbreviation fx_fit_fixed_positions :=
  (fit_fixed_positions Fixture.pi Fixture.sqrt Fixture.sin Fixture.arccos
     Fixture.circular_mask Fixture.sigma_clip Fixture.median_filter1
     Fixture.map_coordinates Fixture.label Fixture.detection Fixture.s2p
     Fixture.source_profile_and_errors).

Local Abbreviation fx_normalized_maps :=
  (normalized_maps Fixture.pi Fixture.sqrt Fixture.sin Fixture.arccos
     Fixture.circular_mask Fixture.sigma_clip Fixture.median_filter1
     Fixture.map_coordinates).


(** C7, counterexample.  After a forced fit at pixel (1, 2) with threshold
    3 the dictionaries hold the maps for that threshold and the
    background-subtracted data is stored.  Overriding the RMS map then
    leaves all three as they were, and overriding the background map
    leaves the two dictionaries as they were: the label map for threshold
    3 is still the one computed from the old maps. *)
Lemma setters_keep_label_caches :
  let st :=
    snd (fx_fit_to_point 1 2 3 (Some 3) None Fixture.small_sky_flat) in
  let sn := snd (_set_rm (ma_scale 5 Fixture.unit_rms) st) in
  let sb := snd (_set_backmap Fixture.unit_rms st) in
  lookup (labels (cache sn)) 3
  = Some ([[0; 0; 0; 0]; [0; 0; 1; 0]; [0; 0; 0; 0]; [0; 0; 0; 0]]%Z, 1%Z) /\
  clip (cache sn) <> [] /\
  memo_data_bgsubbed (cache sn) <> None /\
  lookup (labels (cache sb)) 3
  = Some ([[0; 0; 0; 0]; [0; 0; 1; 0]; [0; 0; 0; 0]; [0; 0; 0; 0]]%Z, 1%Z) /\
  clip (cache sb) <> [] /\
  ~ (memo_data_bgsubbed (cache sn) = None /\ labels (cache sn) = [] /\
     clip (cache sn) = []).
Proof.
  cbv zeta. repeat split; try (vm_compute; reflexivity);
    try (vm_compute; discriminate).
  vm_compute. intros [H _]. discriminate.
Qed.

(** On the small image: a background map of shape 2 x 2 and a noise map
    with a negative value are refused by [extract] and by [fd_extract],
    and the overrides stay unset. *)
Lemma override_validation_witness :
  refused (fx_extract None None None (Some (of_ndarray (full 2 2 0)))
             None None) Fixture.small_sky user_backmap /\
  refused (fx_fd_extract None None
             (Some (of_ndarray
                      [[1; 1; 1; 1]; [1; -1; 1; 1]; [1; 1; 1; 1];
                       [1; 1; 1; 1]]))
             None) Fixture.small_sky user_noisemap.
Proof.
  split.
  - destruct (@override_validation Fixture.pi Fixture.sqrt Fixture.sin
                Fixture.arccos Fixture.exp Fixture.log Fixture.median
                Fixture.circular_mask Fixture.sigma_clip
                Fixture.median_filter1 Fixture.map_coordinates Fixture.label
                Fixture.island Fixture.Island Fixture.isl_chunk
                Fixture.island_data Fixture.deblend Fixture.fit
                Fixture.detection Fixture.correlation_lengths
                Fixture.small_sky None None None None
                (Some (of_ndarray (full 2 2 0))) None None)
      as [Hbg _].
    destruct (Hbg _ eq_refl) as [Hextract _]. apply Hextract.
    intros backmap st1 H. vm_compute in H. injection H as <- <-.
    vm_compute. discriminate.
  - destruct (@override_validation Fixture.pi Fixture.sqrt Fixture.sin
                Fixture.arccos Fixture.exp Fixture.log Fixture.median
                Fixture.circular_mask Fixture.sigma_clip
                Fixture.median_filter1 Fixture.map_coordinates Fixture.label
                Fixture.island Fixture.Island Fixture.isl_chunk
                Fixture.island_data Fixture.deblend Fixture.fit
                Fixture.detection Fixture.correlation_lengths
                Fixture.small_sky None None None
                (Some (of_ndarray
                         [[1; 1; 1; 1]; [1; -1; 1; 1]; [1; 1; 1; 1];
                          [1; 1; 1; 1]]))
                None None None)
      as [_ Hnoise].
    destruct (Hnoise _ eq_refl) as [_ Hfd]. apply Hfd.
    intros st1 rms st2 _ _. right. exists (-1). split.
    + vm_compute. tauto.
    + reflexivity.
Defined.

Local Abbreviation fx_get_data :=
  (_get_data Fixture.pi Fixture.sqrt Fixture.sin Fixture.arccos
     Fixture.circular_mask).

(** C6, the code at the failing input.  On the 4 x 4 image with a source in
    its first row nothing is masked; the fit has one end of its minor axis
    at (-1, 2), outside the image; [check_point] reads the mask at row -1,
    which is the last row, and [extract] returns the detection. *)
Theorem extract_returns_off_image_endpoint :
  exists (data : marray) (det : Detection),
    fst (fx_get_data Fixture.edge_sky_flat) = Ok data /\
    ma_mask data = full 4 4 false /\
    fst (fx_extract None None None None None None Fixture.edge_sky_flat)
    = Ok [det] /\
    start_smin_x det = -1 /\ start_smin_y det = 2 /\
    isfinite (ra_error det) = true /\ isfinite (dec_error det) = true /\
    getitem2 (ma_mask data) (-1) 2 = getitem2 (ma_mask data) 3 2 /\
    check_point (ma_mask data) (start_smin_x det) (start_smin_y det) = true.
Proof.
  eexists. eexists.
  split; [vm_compute; reflexivity|].
  split; [reflexivity|].
  split; [vm_compute; reflexivity|].
  repeat split; reflexivity.
Qed.

(** On the small image whose RMS override is entirely masked both
    extractions return the empty result set. *)
Lemma all_masked_rms_no_detections_witness :
  (exists st' : ImageData,
      fx_extract None None None None None None Fixture.small_sky_blind
      = (Ok [], st')) /\
  (exists st' : ImageData,
      fx_fd_extract None None None None Fixture.small_sky_blind
      = (Ok [], st')).
Proof.
  destruct (@all_masked_rms_no_detections Fixture.pi Fixture.sqrt
              Fixture.sin Fixture.arccos Fixture.exp Fixture.log
              Fixture.median Fixture.circular_mask Fixture.sigma_clip
              Fixture.median_filter1 Fixture.map_coordinates Fixture.label
              Fixture.island Fixture.Island Fixture.isl_chunk
              Fixture.island_data Fixture.deblend Fixture.fit
              Fixture.detection Fixture.correlation_lengths
              Fixture.small_sky_blind None None None)
    as [Hextract Hfd].
  split.
  - destruct (fx_get_rm
                (snd (threshold_warning
                        (effective_det Fixture.small_sky_blind None)
                        (effective_anl Fixture.small_sky_blind None)
                        Fixture.small_sky_blind)))
      as [[rms|e] st1] eqn:E1; [|vm_compute in E1; discriminate].
    pose proof E1 as E1'. vm_compute in E1'. injection E1' as Hrms Hst1.
    destruct (fx_get_data_bgsubbed
                (snd (log "warning" "RMS map masked; sourcefinding skipped"
                          st1)))
      as [[d|e] st2] eqn:E2;
      [|rewrite <- Hst1 in E2; vm_compute in E2; discriminate].
    pose proof E2 as E2'. rewrite <- Hst1 in E2'. vm_compute in E2'.
    injection E2' as Hd Hst2.
    destruct (fx_get_data st2) as [[data|e] st3] eqn:E3;
      [|rewrite <- Hst2 in E3; vm_compute in E3; discriminate].
    destruct (Hextract rms d data st1 st2 st3 E1) as [_ H];
      [rewrite <- Hrms; reflexivity | exact E2 | exact E3 | exact H].
  - destruct (fx_get_data_bgsubbed Fixture.small_sky_blind)
      as [[d|e] st1] eqn:E1; [|vm_compute in E1; discriminate].
    pose proof E1 as E1'. vm_compute in E1'. injection E1' as Hd Hst1.
    destruct (fx_get_rm st1) as [[rms|e] st2] eqn:E2;
      [|rewrite <- Hst1 in E2; vm_compute in E2; discriminate].
    pose proof E2 as E2'. rewrite <- Hst1 in E2'. vm_compute in E2'.
    injection E2' as Hrms Hst2.
    exists st2. apply (Hfd rms d st1 st2 eq_refl E2).
    rewrite <- Hrms. reflexivity.
Defined.

(** On the small image with a flat background and unit noise, a forced fit
    with threshold 3 at the sky position of pixel (2, 2), whose value is 1,
    raises ValueError out of [fit_fixed_positions]. *)
Lemma fit_fixed_positions_propagates_ValueError_witness :
  exists st' : ImageData,
    fx_fit_fixed_positions [(0, 0)] 3 (Some 3)
      (Some "position+error"%string) Fixture.small_sky_flat
    = (Raise (ValueError
                "Fit region is below specified threshold, fit aborted."),
       st').
Proof.
  destruct (fx_get_rm Fixture.small_sky_flat) as [[rms|e] st2] eqn:E1;
    [|vm_compute in E1; discriminate].
  pose proof E1 as E1'. vm_compute in E1'. injection E1' as Hrms Hst2.
  destruct (fx_get_data_bgsubbed st2) as [[d|e] st3] eqn:E2;
    [|rewrite <- Hst2 in E2; vm_compute in E2; discriminate].
  pose proof E2 as E2'. rewrite <- Hst2 in E2'. vm_compute in E2'.
  injection E2' as Hd Hst3.
  destruct (@fit_fixed_positions_propagates_ValueError Fixture.pi
              Fixture.sqrt Fixture.sin Fixture.arccos Fixture.circular_mask
              Fixture.sigma_clip Fixture.median_filter1
              Fixture.map_coordinates Fixture.label Fixture.detection
              Fixture.s2p Fixture.source_profile_and_errors
              3 3 (Some "position+error"%string) [] [] (0, 0) []
              Fixture.small_sky_flat Fixture.small_sky_flat st2 st3
              2%Z 2%Z rms d 1
              eq_refl eq_refl E1)
    as [st' [_ Hrun]].
  - rewrite <- Hrms. reflexivity.
  - exact E2.
  - rewrite <- Hrms, <- Hd, <- Hst3. vm_compute. reflexivity.
  - exists st'. exact Hrun.
Defined.

(* ------------------------------------------------------------------ *)
(** ** Further properties on concrete images *)

Local Abbreviation fx_reliable_window :=
  (reliable_window Fixture.pi Fixture.sqrt Fixture.sin Fixture.arccos).
Local Abbreviation fx_get_data_body :=
  (_get_data_body Fixture.pi Fixture.sqrt Fixture.sin Fixture.arccos
     Fixture.circular_mask).
Local Abbreviation fx_grids :=
  (_grids Fixture.pi Fixture.sqrt Fixture.sin Fixture.arccos
     Fixture.circular_mask Fixture.sigma_clip).
Local Abbreviation fx_interpolate :=
  (_interpolate Fixture.pi Fixture.sqrt Fixture.sin Fixture.arccos
     Fixture.circular_mask Fixture.median_filter1 Fixture.map_coordinates).
Local Abbreviation fx_label_islands :=
  (label_islands Fixture.pi Fixture.sqrt Fixture.sin Fixture.arccos
     Fixture.median Fixture.circular_mask Fixture.sigma_clip
     Fixture.median_filter1 Fixture.map_coordinates Fixture.label).
Local Abbreviation fx_install_bgmap :=
  (install_bgmap Fixture.pi Fixture.sqrt Fixture.sin Fixture.arccos
     Fixture.circular_mask Fixture.sigma_clip Fixture.median_filter1
     Fixture.map_coordinates).
Local Abbreviation fx_install_noisemap :=
  (install_noisemap Fixture.pi Fixture.sqrt Fixture.sin Fixture.arccos
     Fixture.circular_mask Fixture.sigma_clip Fixture.median_filter1
     Fixture.map_coordinates).

(** On the small image the RMS map is interpolated once; the second read
    returns the stored map. *)
Lemma property_reads_are_cached_witness :
  exists (rms : marray) (st' : ImageData),
    fx_get_rm Fixture.small_sky = (Ok rms, st') /\
    fx_get_rm st' = (Ok rms, st').
Proof.
  destruct (fx_get_rm Fixture.small_sky) as [[rms|e] st'] eqn:E;
    [|vm_compute in E; discriminate].
  exists rms, st'. split; [reflexivity|].
  apply (@property_reads_are_cached Fixture.pi Fixture.sqrt Fixture.sin
           Fixture.arccos Fixture.circular_mask Fixture.sigma_clip
           Fixture.median_filter1 Fixture.map_coordinates
           Fixture.small_sky st').
  exact E.
Defined.

(** After [clearcache] the small image with both maps set still reads
    them. *)
Lemma clearcache_keeps_overrides_witness :
  fst (fx_backmap (snd (clearcache Fixture.small_sky_flat)))
  = Ok Fixture.zero_background /\
  fst (fx_get_rm (snd (clearcache Fixture.small_sky_flat)))
  = Ok Fixture.unit_rms.
Proof.
  destruct (@clearcache_keeps_overrides Fixture.pi Fixture.sqrt Fixture.sin
              Fixture.arccos Fixture.circular_mask Fixture.sigma_clip
              Fixture.median_filter1 Fixture.map_coordinates
              Fixture.small_sky_flat) as [_ [_ [Hb Hr]]].
  split; [apply Hb|apply Hr]; reflexivity.
Defined.

(** With a margin of one pixel the pixel (0, 2) of the small image, of
    value 1, lies in the margin and is masked. *)
Lemma _get_data_mask_witness :
  exists (data : marray) (st' : ImageData) (w : list (list bool)),
    fx_get_data_body Fixture.small_sky_margin = (Ok data, st') /\
    fx_reliable_window None Fixture.small_sky_margin = (Ok w, st') /\
    pixel (rawdata Fixture.small_sky_margin) 0 2 = Some 1 /\
    pixel data 0 2 = Some (1, true).
Proof.
  destruct (fx_get_data_body Fixture.small_sky_margin)
    as [[data|e] st'] eqn:E; [|vm_compute in E; discriminate].
  pose proof E as E'. vm_compute in E'. injection E' as Hd Hst.
  assert (Hp : pixel data 0 2 = Some (1, true))
    by (rewrite <- Hd; reflexivity).
  destruct (@_get_data_mask Fixture.pi Fixture.sqrt Fixture.sin
              Fixture.arccos Fixture.circular_mask
              Fixture.small_sky_margin st' data 0%nat 2%nat 1 true E Hp)
    as [w [bw [bn [Hw [Hraw _]]]]].
  exists data, st', w. repeat split; assumption.
Defined.

(** On the three-pixel image the pixel of 9 is above the analysis
    threshold of 3 and nothing is masked there: it is part of the image
    that is labelled. *)
Lemma clipped_data_pixel_witness :
  exists x y z : Q,
    pixel Fixture.three_pixels 0 4 = Some (x, false) /\
    pixel (ma_scale 3 Fixture.unit_noise) 0 4 = Some (y, false) /\
    pixel Fixture.unit_noise 0 4 = Some (z, false) /\
    y < x.
Proof.
  assert (H : pixel (clipped_data Fixture.median Fixture.three_pixels
                       (ma_scale 3 Fixture.unit_noise) Fixture.unit_noise)
                    0 4 = Some 1%Z) by (vm_compute; reflexivity).
  destruct (@clipped_data_pixel Fixture.median Fixture.three_pixels
              (ma_scale 3 Fixture.unit_noise) Fixture.unit_noise
              0%nat 4%nat 1%Z H)
    as [x [y [z [mx [my [mz [Hd [Ha [Hr [_ Hiff]]]]]]]]]].
  destruct (proj1 Hiff eq_refl) as [Hmx [Hmy [Hmz [Hxy _]]]].
  subst mx my mz. exists x, y, z. repeat split; assumption.
Defined.

(** On the three-pixel image the labels kept are 2 and 3, in this
    order, and the returned map has the shape of the labelled one. *)
Lemma label_islands_labels_and_map_witness :
  exists (labels : list Z) (relabelled : list (list Z)),
    label_islands_of Fixture.median Fixture.label Fixture.cross
      Fixture.three_pixels Fixture.unit_noise
      (ma_scale 5 Fixture.unit_noise) (ma_scale 3 Fixture.unit_noise)
    = Ok (labels, relabelled) /\
    StronglySorted Z.lt labels /\
    shape relabelled = shape [[1; 0; 0; 0; 2]; [0; 0; 3; 0; 0]]%Z.
Proof.
  destruct (label_islands_of Fixture.median Fixture.label Fixture.cross
              Fixture.three_pixels Fixture.unit_noise
              (ma_scale 5 Fixture.unit_noise) (ma_scale 3 Fixture.unit_noise))
    as [[labels relabelled]|e] eqn:E; [|vm_compute in E; discriminate].
  destruct (@label_islands_labels_and_map Fixture.median Fixture.label
              Fixture.cross Fixture.three_pixels Fixture.unit_noise
              (ma_scale 5 Fixture.unit_noise) (ma_scale 3 Fixture.unit_noise)
              [[1; 0; 0; 0; 2]; [0; 0; 3; 0; 0]]%Z relabelled 3%Z labels)
    as [Hsorted [_ [Hshape _]]];
    [vm_compute; reflexivity | exact E |].
  exists labels, relabelled. repeat split; assumption.
Defined.

(** On the small image with a flat background and unit noise no pixel
    exceeds ten times the noise: nothing is labelled and [label_islands]
    raises. *)
Lemma label_islands_nothing_labelled_witness :
  exists st' : ImageData,
    fx_label_islands (ma_scale 10 Fixture.unit_rms)
      (ma_scale 10 Fixture.unit_rms) Fixture.small_sky_flat
    = (Raise (UnboundLocalError "labels_above_det_thr"), st').
Proof.
  destruct (fx_get_rm Fixture.small_sky_flat) as [[rms|e] st1] eqn:E1;
    [|vm_compute in E1; discriminate].
  pose proof E1 as E1'. vm_compute in E1'. injection E1' as Hrms Hst1.
  destruct (fx_get_data_bgsubbed st1) as [[d|e] st2] eqn:E2;
    [|rewrite <- Hst1 in E2; vm_compute in E2; discriminate].
  pose proof E2 as E2'. rewrite <- Hst1 in E2'. vm_compute in E2'.
  injection E2' as Hd Hst2.
  destruct (Fixture.label
              (clipped_data Fixture.median d (ma_scale 10 Fixture.unit_rms)
                 rms) (structuring_element (conf st2)))
    as [labelled n] eqn:EL.
  pose proof EL as EL'. rewrite <- Hrms, <- Hd, <- Hst2 in EL'.
  vm_compute in EL'. injection EL' as Hlab Hn.
  exists st2.
  apply (@label_islands_nothing_labelled Fixture.pi Fixture.sqrt Fixture.sin
           Fixture.arccos Fixture.median Fixture.circular_mask
           Fixture.sigma_clip Fixture.median_filter1 Fixture.map_coordinates
           Fixture.label (ma_scale 10 Fixture.unit_rms)
           (ma_scale 10 Fixture.unit_rms) rms d Fixture.small_sky_flat
           st1 st2 labelled n E1).
  - rewrite <- Hrms. vm_compute. discriminate.
  - exact E2.
  - exact EL.
  - rewrite <- Hn. lia.
Defined.

(** The image of zeros has no grids and no RMS map. *)
Lemma blank_image_has_no_grids_witness :
  exists st1 : ImageData,
    fx_grids Fixture.blank_sky = (Raise AssertionError, st1) /\
    fx_get_rm Fixture.blank_sky = (Raise AssertionError, st1).
Proof.
  destruct (fx_get_data Fixture.blank_sky) as [[data|e] st1] eqn:E;
    [|vm_compute in E; discriminate].
  destruct (@blank_image_has_no_grids Fixture.pi Fixture.sqrt Fixture.sin
              Fixture.arccos Fixture.circular_mask Fixture.sigma_clip
              Fixture.median_filter1 Fixture.map_coordinates
              Fixture.blank_sky st1 data) as [Hg [Hr _]].
  - intros x Hx. vm_compute in Hx.
    repeat (destruct Hx as [Hx|Hx]; [now subst x|]). contradiction.
  - reflexivity.
  - reflexivity.
  - exact E.
  - exists st1. split; [exact Hg|]. apply Hr; reflexivity.
Defined.

(** The image of two tiles, 2 x 4 pixels in tiles of 2 x 2: the grids have
    one row of two entries. *)
Lemma grids_shape_and_mask_witness :
  exists g : grids_t,
    grids_of Fixture.sigma_clip Fixture.two_tiles 2 2 (2, 2, 0) = Ok g /\
    length (grid_rms g) = 1%nat /\ length (grid_bg g) = 1%nat /\
    Forall (fun row => length row = 2%nat) (grid_rms g).
Proof.
  destruct (grids_of Fixture.sigma_clip Fixture.two_tiles 2 2 (2, 2, 0))
    as [g|e] eqn:E; [|vm_compute in E; discriminate].
  destruct (@grids_shape_and_mask Fixture.sigma_clip Fixture.two_tiles
              2%nat 2%nat (2, 2, 0) g E) as [uc [Hfind [_ [_ H]]]].
  vm_compute in Hfind. injection Hfind as <-.
  cbv zeta in H. destruct H as [Hr [Hb [Hrow _]]].
  exists g. split; [reflexivity|]. split; [|split].
  - rewrite Hr. reflexivity.
  - rewrite Hb. reflexivity.
  - apply Forall_forall. intros row Hin. rewrite (Hrow row); [reflexivity|].
    now left.
Defined.

(** A grid of one unmasked entry interpolated over the small image gives a
    map of the shape of the data. *)
Lemma _interpolate_map_witness :
  exists (data m : marray) (st' : ImageData),
    fx_get_data Fixture.small_sky = (Ok data, st') /\
    fx_interpolate (of_ndarray [[2]]) true Fixture.small_sky = (Ok m, st') /\
    ma_shape m = ma_shape data.
Proof.
  destruct (fx_get_data Fixture.small_sky) as [[data|e] st1] eqn:E1;
    [|vm_compute in E1; discriminate].
  destruct (fx_interpolate (of_ndarray [[2]]) true Fixture.small_sky)
    as [[m|e] st'] eqn:E2; [|vm_compute in E2; discriminate].
  destruct (@_interpolate_map Fixture.pi Fixture.sqrt Fixture.sin
              Fixture.arccos Fixture.circular_mask Fixture.median_filter1
              Fixture.map_coordinates (of_ndarray [[2]]) true
              Fixture.small_sky st1 st' data m eq_refl E1 E2)
    as [Hst [Hshape _]].
  subst st'. exists data, m, st1. repeat split; assumption.
Defined.

(** On the small image whose background map is the map of zeros, the map
    of ones has the same shape: it is installed and read back. *)
Lemma valid_override_is_installed_witness :
  exists st2 : ImageData,
    fx_install_bgmap (Some Fixture.unit_rms) Fixture.small_sky_flat
    = (Ok tt, st2) /\
    fst (fx_backmap st2) = Ok Fixture.unit_rms.
Proof.
  destruct (fx_backmap Fixture.small_sky_flat) as [[cur|e] st1] eqn:E;
    [|vm_compute in E; discriminate].
  pose proof E as E'. vm_compute in E'. injection E' as Hcur Hst1.
  assert (Hshape : ma_shape Fixture.unit_rms = ma_shape cur)
    by (rewrite <- Hcur; reflexivity).
  destruct (@valid_override_is_installed Fixture.pi Fixture.sqrt Fixture.sin
              Fixture.arccos Fixture.circular_mask Fixture.sigma_clip
              Fixture.median_filter1 Fixture.map_coordinates
              Fixture.unit_rms cur Fixture.small_sky_flat st1 Hshape)
    as [Hbg _].
  destruct (Hbg E) as [st2 [H1 [H2 _]]].
  exists st2. split; assumption.
Defined.

(** On the small image, [extract] given the map of ones as background and
    a negative noise map raises, and the background map stays installed. *)
Lemma extract_keeps_accepted_bgmap_witness :
  exists (e : exn) (st' : ImageData),
    fx_extract None None (Some Fixture.negative_rms) (Some Fixture.unit_rms)
      None None Fixture.small_sky_flat = (Raise e, st') /\
    user_backmap (cache st') = Some Fixture.unit_rms.
Proof.
  destruct (fx_install_bgmap (Some Fixture.unit_rms)
              (snd (threshold_warning
                      (effective_det Fixture.small_sky_flat None)
                      (effective_anl Fixture.small_sky_flat None)
                      Fixture.small_sky_flat)))
    as [[[]|e] st1] eqn:E; [|vm_compute in E; discriminate].
  destruct (@extract_keeps_accepted_bgmap Fixture.pi Fixture.sqrt
              Fixture.sin Fixture.arccos Fixture.median
              Fixture.circular_mask Fixture.sigma_clip
              Fixture.median_filter1 Fixture.map_coordinates Fixture.label
              Fixture.island Fixture.Island Fixture.isl_chunk
              Fixture.island_data Fixture.deblend Fixture.fit
              Fixture.detection
              Fixture.small_sky_flat st1 None None Fixture.negative_rms
              Fixture.unit_rms None None E)
    as [e [st' [Hrun [Hbg _]]]].
  - intros rms st2 _. right. exists (-1). split; [|reflexivity].
    vm_compute. now left.
  - exists e, st'. split; assumption.
Defined.

(** A forced fit at the centre of the small image returns one detection,
    with finite position errors. *)
Lemma fit_fixed_positions_results_witness :
  exists (detections : list Detection) (st' : ImageData),
    fx_fit_fixed_positions [(0, 0)] 3 None (Some "position+error"%string)
      Fixture.small_sky_flat = (Ok detections, st') /\
    length detections = 1%nat /\
    Forall (fun d => is_pos_inf (ra_error d) = false /\
                     is_pos_inf (dec_error d) = false) detections.
Proof.
  destruct (fx_fit_fixed_positions [(0, 0)] 3 None
              (Some "position+error"%string) Fixture.small_sky_flat)
    as [[dets|e] st'] eqn:E; [|vm_compute in E; discriminate].
  pose proof E as E'. vm_compute in E'. injection E' as Hdets Hst.
  destruct (@fit_fixed_positions_results Fixture.pi Fixture.sqrt Fixture.sin
              Fixture.arccos Fixture.circular_mask Fixture.sigma_clip
              Fixture.median_filter1 Fixture.map_coordinates Fixture.label
              Fixture.detection Fixture.s2p Fixture.source_profile_and_errors
              [(0, 0)] 3 None (Some "position+error"%string)
              Fixture.small_sky_flat st' dets E) as [_ Hfin].
  exists dets, st'. split; [reflexivity|]. split; [|exact Hfin].
  rewrite <- Hdets. reflexivity.
Defined.

(** The blind extraction of the small image at 3 and 2 times the unit
    noise returns one detection, which passes [is_usable]. *)
Lemma _pyse_results_witness :
  exists (detections : list Detection) (st' : ImageData) (data : marray),
    fx_pyse (ma_scale 3 Fixture.unit_rms) (ma_scale 2 Fixture.unit_rms)
      None None Fixture.small_sky_flat = (Ok detections, st') /\
    length detections = 1%nat /\
    memo_data (cache st') = Some data /\
    Forall (fun d => is_usable (ma_mask data) d = true /\
                     is_pos_inf (ra_error d) = false /\
                     is_pos_inf (dec_error d) = false) detections.
Proof.
  destruct (fx_pyse (ma_scale 3 Fixture.unit_rms)
              (ma_scale 2 Fixture.unit_rms) None None Fixture.small_sky_flat)
    as [[dets|e] st'] eqn:E; [|vm_compute in E; discriminate].
  pose proof E as E'. vm_compute in E'. injection E' as Hdets Hst.
  destruct (@_pyse_results Fixture.pi Fixture.sqrt Fixture.sin
              Fixture.arccos Fixture.median Fixture.circular_mask
              Fixture.sigma_clip Fixture.median_filter1
              Fixture.map_coordinates Fixture.label
              Fixture.island Fixture.Island Fixture.isl_chunk
              Fixture.island_data Fixture.deblend Fixture.fit
              Fixture.detection
              (ma_scale 3 Fixture.unit_rms) (ma_scale 2 Fixture.unit_rms)
              None None Fixture.small_sky_flat st' dets E)
    as [data [Hmemo Hall]].
  exists dets, st', data. split; [reflexivity|]. split; [|now split].
  rewrite <- Hdets. reflexivity.
Defined.

(** A declination of 100 degrees is invalid: the source is skipped with a
    warning. *)
Lemma fit_fixed_positions_invalid_coordinates_witness :
  fx_fit_fixed_positions [(0, 100)] 3 None None Fixture.small_sky_flat =
  (Ok [],
   with_logged [("warning", "Input coordinates invalid: ")%string]
     Fixture.small_sky_flat).
Proof.
  apply (@fit_fixed_positions_invalid_coordinates Fixture.pi Fixture.sqrt
           Fixture.sin Fixture.arccos Fixture.circular_mask
           Fixture.sigma_clip Fixture.median_filter1 Fixture.map_coordinates
           Fixture.label Fixture.detection Fixture.s2p
           Fixture.source_profile_and_errors
           [(0, 100)] 3 None None Fixture.small_sky_flat).
  intros source [<-|[]]. eexists. split; [vm_compute; reflexivity|].
  reflexivity.
Defined.

(** A source that falls on pixel (7, 7) of the 4 x 4 image is skipped. *)
Lemma fit_fixed_positions_skips_unusable_pixel_witness :
  exists st' : ImageData,
    fx_fit_fixed_positions [(- (5 # 100), 5 # 100)] 3 None None
      Fixture.small_sky_flat = (Ok [], st').
Proof.
  destruct (fx_get_rm Fixture.small_sky_flat) as [[rms|e] st1] eqn:E1;
    [|vm_compute in E1; discriminate].
  pose proof E1 as E1'. vm_compute in E1'. injection E1' as Hrms Hst1.
  assert (Hs : Fixture.s2p (wcs Fixture.small_sky_flat)
                 (- (5 # 100), 5 # 100) = Ok (7%Z, 7%Z))
    by (vm_compute; reflexivity).
  destruct (@fit_fixed_positions_skips_unusable_pixel Fixture.pi
              Fixture.sqrt Fixture.sin Fixture.arccos Fixture.circular_mask
              Fixture.sigma_clip Fixture.median_filter1
              Fixture.map_coordinates Fixture.label Fixture.detection
              Fixture.s2p Fixture.source_profile_and_errors
              (- (5 # 100), 5 # 100) 3 None None Fixture.small_sky_flat st1
              7%Z 7%Z rms Hs E1) as [Hout _].
  eexists. apply Hout. rewrite <- Hrms. reflexivity.
Defined.

(** In an array of four rows a box of radius 1.5 about row 2 has three
    rows, and about row 0 it has none. *)
Lemma box_slice_about_pixel_rows_witness :
  Z.of_nat (length (ma_slice Fixture.unit_rms
                      (box_slice_about_pixel 2 2 (3 # 2)))) = 3%Z /\
  ma_slice Fixture.unit_rms (box_slice_about_pixel 0 2 (3 # 2)) = [].
Proof.
  assert (Hr : int_of (3 # 2) = 1%Z) by reflexivity.
  assert (Hl : Z.of_nat (length Fixture.unit_rms) = 4%Z) by reflexivity.
  split.
  - pose proof (@box_slice_about_pixel_rows Fixture.unit_rms 2%Z 2%Z (3 # 2))
      as H.
    cbv zeta in H. rewrite Hr, Hl in H.
    destruct H as [H _]; [lia|lia|]. apply H; lia.
  - pose proof (@box_slice_about_pixel_rows Fixture.unit_rms 0%Z 2%Z (3 # 2))
      as H.
    cbv zeta in H. rewrite Hr, Hl in H.
    destruct H as [_ [_ H]]; [lia|lia|]. apply H; lia.
Defined.

(** A forced fit with a box of 3 pixels at row 0 of the small image is
    left out. *)
Lemma fit_fixed_positions_skips_low_edge_witness :
  exists st' : ImageData,
    fx_fit_fixed_positions [(2 # 100, 0)] 3 None None Fixture.small_sky_flat
    = (Ok [], st').
Proof.
  destruct (fx_get_rm Fixture.small_sky_flat) as [[rms|e] st1] eqn:E1;
    [|vm_compute in E1; discriminate].
  pose proof E1 as E1'. vm_compute in E1'. injection E1' as Hrms Hst1.
  destruct (fx_get_data_bgsubbed st1) as [[d|e] st2] eqn:E2;
    [|rewrite <- Hst1 in E2; vm_compute in E2; discriminate].
  pose proof E2 as E2'. rewrite <- Hst1 in E2'. vm_compute in E2'.
  injection E2' as Hd Hst2.
  assert (Hs : Fixture.s2p (wcs Fixture.small_sky_flat) (2 # 100, 0)
               = Ok (0%Z, 2%Z)) by (vm_compute; reflexivity).
  assert (Hr : int_of (3 / 2) = 1%Z) by reflexivity.
  destruct (@fit_fixed_positions_skips_low_edge Fixture.pi
              Fixture.sqrt Fixture.sin Fixture.arccos Fixture.circular_mask
              Fixture.sigma_clip Fixture.median_filter1
              Fixture.map_coordinates Fixture.label Fixture.detection
              Fixture.s2p Fixture.source_profile_and_errors
              (2 # 100, 0) 3 None Fixture.small_sky_flat st1 st2
              0%Z 2%Z rms d 1 Hs E1) as [_ Hrun].
  - rewrite <- Hrms. reflexivity.
  - exact E2.
  - rewrite Hr. lia.
  - rewrite Hr, <- Hd. vm_compute. discriminate.
  - eexists. exact Hrun.
Defined.

(** A labelled map of one pixel does not fit the 4 x 4 image. *)
Lemma extract_rejects_labelled_map_witness :
  exists st' : ImageData,
    fx_extract None None None None (Some [[0%Z]]) (Some [])
      Fixture.small_sky_flat
    = (Raise (ValueError "Labelled map is wrong shape"), st').
Proof.
  destruct (fx_get_data
              (snd (threshold_warning
                      (effective_det Fixture.small_sky_flat None)
                      (effective_anl Fixture.small_sky_flat None)
                      Fixture.small_sky_flat)))
    as [[data|e] st1] eqn:E; [|vm_compute in E; discriminate].
  pose proof E as E'. vm_compute in E'. injection E' as Hd Hst.
  exists st1.
  apply (@extract_rejects_labelled_map Fixture.pi Fixture.sqrt
           Fixture.sin Fixture.arccos Fixture.median
           Fixture.circular_mask Fixture.sigma_clip
           Fixture.median_filter1 Fixture.map_coordinates Fixture.label
           Fixture.island Fixture.Island Fixture.isl_chunk
           Fixture.island_data Fixture.deblend Fixture.fit
           Fixture.detection
           Fixture.small_sky_flat st1 None None [[0%Z]] (Some []) data E).
  rewrite <- Hd. vm_compute. discriminate.
Defined.

(** [fd_extract] with [alpha = 0] on the small image is the call without
    [alpha]. *)
Lemma fd_extract_zero_arguments_witness :
  fx_fd_extract (Some 0) None None None Fixture.small_sky_flat =
  fx_fd_extract None None None None Fixture.small_sky_flat.
Proof.
  exact (proj1 (@fd_extract_zero_arguments Fixture.pi Fixture.sqrt Fixture.sin
           Fixture.arccos Fixture.exp Fixture.log Fixture.median
           Fixture.circular_mask Fixture.sigma_clip Fixture.median_filter1
           Fixture.map_coordinates Fixture.label
           Fixture.island Fixture.Island Fixture.isl_chunk
           Fixture.island_data Fixture.deblend Fixture.fit
           Fixture.detection Fixture.correlation_lengths
           0 None None None None Fixture.small_sky_flat (Qeq_refl 0))).
Defined.

(** [extract] on the small image with a labelled map of zeros and no list
    of labels raises TypeError. *)
Lemma extract_labelled_map_needs_labels_witness :
  exists st' : ImageData,
    fx_extract None None None None (Some (full 4 4 0%Z)) None
      Fixture.small_sky_flat
    = (Raise (TypeError "'NoneType' object is not iterable"), st').
Proof.
  destruct (fx_get_data
              (snd (threshold_warning
                      (effective_det Fixture.small_sky_flat None)
                      (effective_anl Fixture.small_sky_flat None)
                      Fixture.small_sky_flat)))
    as [[data|e] st1] eqn:E1; [|vm_compute in E1; discriminate].
  pose proof E1 as E1'. vm_compute in E1'. injection E1' as Hd Hst1.
  destruct (fx_get_rm st1) as [[rms|e] st2] eqn:E2;
    [|rewrite <- Hst1 in E2; vm_compute in E2; discriminate].
  exists st2.
  apply (@extract_labelled_map_needs_labels Fixture.pi Fixture.sqrt
           Fixture.sin Fixture.arccos Fixture.median
           Fixture.circular_mask Fixture.sigma_clip
           Fixture.median_filter1 Fixture.map_coordinates Fixture.label
           Fixture.island Fixture.Island Fixture.isl_chunk
           Fixture.island_data Fixture.deblend Fixture.fit
           Fixture.detection
           Fixture.small_sky_flat st1 st2 None None (full 4 4 0%Z)
           data rms E1).
  - rewrite <- Hd. reflexivity.
  - exact E2.
Defined.

(** An entirely masked array has no grids. *)
Lemma grids_of_all_masked_witness :
  grids_of Fixture.sigma_clip Fixture.masked_rms 2 2 (1, 1, 0)
  = Raise AssertionError.
Proof.
  apply (proj1 (@grids_of_all_masked Fixture.sigma_clip Fixture.masked_rms
                  2%nat 2%nat (1, 1, 0))).
  apply Forall_forall. vm_compute. repeat constructor.
Defined.

(** With correlation lengths of one half the area is about 0.2 and the
    sum is empty; with lengths of 2 it has terms. *)
Lemma C_n_small_beam_witness :
  C_n_of Fixture.pi (1 # 2) (1 # 2) == 0 /\ 1 <= C_n_of Fixture.pi 2 2.
Proof.
  split.
  - apply (proj1 (@C_n_small_beam Fixture.pi (1 # 2) (1 # 2))).
    vm_compute. reflexivity.
  - apply (proj2 (@C_n_small_beam Fixture.pi 2 2)).
    vm_compute. discriminate.
Defined.

(** In a 4 x 4 image with nothing masked, a detection at (2, 2) with
    axes of one pixel is accepted, and one with an end of its minor axis
    on row 4 is rejected. *)
Lemma is_usable_axis_ends_witness :
  is_usable (full 4 4 false)
    (Det (Measurement 1 0 0 1 1 0 1) (Fin 0) (Fin 0) 2 2
         2 3 1 2 2 1 3 2) = true /\
  is_usable (full 4 4 false)
    (Det (Measurement 1 0 0 1 1 0 1) (Fin 0) (Fin 0) 3 2
         3 3 2 2 3 1 4 2) = false.
Proof.
  split.
  - apply (proj1 (@is_usable_axis_ends (full 4 4 false)
                    (Det (Measurement 1 0 0 1 1 0 1) (Fin 0) (Fin 0) 2 2
                         2 3 1 2 2 1 3 2))).
    intros point Hp. cbn in Hp.
    destruct Hp as [<-|[<-|[<-|[<-|[]]]]];
      (split; [vm_compute; discriminate|]);
      (split; [vm_compute; discriminate|]);
      intros i j Hi Hj; cbn in Hi, Hj;
      destruct Hi as [<-|[<-|[]]]; destruct Hj as [<-|[<-|[]]];
      reflexivity.
  - apply (proj2 (@is_usable_axis_ends (full 4 4 false)
                    (Det (Measurement 1 0 0 1 1 0 1) (Fin 0) (Fin 0) 3 2
                         3 3 2 2 3 1 4 2)) (4, 2)).
    + right. right. right. now left.
    + left. vm_compute. discriminate.
Defined.

(** The all-sky image under a TAN projection: nothing is masked and the
    warning is logged. *)
Lemma reliable_window_without_window_witness :
  fx_reliable_window None Fixture.allsky_tan =
  (Ok (full 10 10 false),
   with_logged
     [("warn", "Not SIN projection: reliable window not calculated.")%string]
     Fixture.allsky_tan).
Proof.
  apply (proj1 (proj2 (@reliable_window_without_window Fixture.pi
                         Fixture.sqrt Fixture.sin Fixture.arccos None
                         Fixture.allsky_tan))).
  - vm_compute. discriminate.
  - vm_compute. discriminate.
Defined.

(** C9, the code at the failing input.  The image of zeros has no usable
    pixel; its noise map, set by the user, is entirely masked.  [rmsmap]
    reads that map, [label_islands] takes the branch for a masked RMS map
    and logs its warning, and the read of [data_bgsubbed] for the shape of
    the label map raises AssertionError out of [__grids]: neither
    [label_islands] nor [extract] returns the empty result. *)
Theorem extract_raises_on_masked_rms :
  fst (fx_get_rm Fixture.blank_sky_blind) = Ok Fixture.masked_rms /\
  ma_compressed Fixture.masked_rms = [] /\
  (exists st' : ImageData,
      fx_label_islands (ma_scale 10 Fixture.masked_rms)
        (ma_scale 3 Fixture.masked_rms) Fixture.blank_sky_blind
      = (Raise AssertionError, st') /\
      In ("warning", "RMS map masked; sourcefinding skipped")%string
         (logged st')) /\
  (exists st' : ImageData,
      fx_extract None None None None None None Fixture.blank_sky_blind
      = (Raise AssertionError, st') /\
      In ("warning", "RMS map masked; sourcefinding skipped")%string
         (logged st')).
Proof.
  split; [vm_compute; reflexivity|]. split; [reflexivity|]. split.
  - eexists. split; [vm_compute; reflexivity|]. cbn. now left.
  - eexists. split; [vm_compute; reflexivity|]. cbn. now left.
Qed.
